(** * MAHORAGA twitter-agent: the visual-extraction harvest loop

    A shallow embedding of [twitter-agent/src/agent.ts] (class
    [TwitterAutonomousAgent]) and of the [/twitter/search] route of the
    agent's HTTP server, with the properties of the harvest loop, the
    dedup tracker, the recovery selector, the screenshot cleanup and the
    breaking-news classifier.  Further on: [healthCheck], the other two
    routes and [loadEnvVars] of the server, the command line that
    [BrowserController] builds, and what holds of the agent across
    calls (work done, pages opened, files left, ids of the results).

    Modelling conventions.
    - Text is ASCII: a JS string is a [string]; [toLowerCase] and
      [toUpperCase] act on the letters A-Z / a-z, [trim] strips space,
      TAB, LF, VT, FF and CR.
    - The browser controller, the vision oracle, the clock and the file
      system are collaborators.  Their answers come from an environment
      [Env] indexed by the number of collaborator calls made so far, so
      that every sequence of answers (and failures) is some environment.
    - Numbers that count tweets ([maxResults], lengths) are integers.
    - Oracle candidates follow the schema of the extraction prompt: a
      field is either absent or has the type the prompt asks for.
    - [unlink] fails only when the file does not exist (the one failure
      the source expects and ignores).
    - Logging ([console.log] and friends) is not modelled.
    - Calls of the agent's methods are taken one after the other: a
      call starts when the previous one has ended. *)

From Stdlib Require Import String Ascii List ZArith Lia Bool Arith.
From Stdlib Require Import DecimalString.
From Stdlib Require DecimalPos DecimalZ.
Import ListNotations.

Local Open Scope string_scope.
Local Open Scope list_scope.

Set Implicit Arguments.

(* ================================================================== *)
(** ** JavaScript string primitives used by the agent *)

Module Js.

Definition is_upper (c : ascii) : bool :=
  let n := nat_of_ascii c in (65 <=? n)%nat && (n <=? 90)%nat.

Definition is_lower (c : ascii) : bool :=
  let n := nat_of_ascii c in (97 <=? n)%nat && (n <=? 122)%nat.

Definition lower_char (c : ascii) : ascii :=
  if is_upper c then ascii_of_nat (nat_of_ascii c + 32) else c.

Definition upper_char (c : ascii) : ascii :=
  if is_lower c then ascii_of_nat (nat_of_ascii c - 32) else c.

Fixpoint map_chars (f : ascii -> ascii) (s : string) : string :=
  match s with
  | EmptyString => EmptyString
  | String c r => String (f c) (map_chars f r)
  end.

(** [s.toLowerCase()] and [s.toUpperCase()]. *)
Definition toLowerCase : string -> string := map_chars lower_char.
Definition toUpperCase : string -> string := map_chars upper_char.

Definition is_space (c : ascii) : bool :=
  let n := nat_of_ascii c in
  (n =? 32)%nat || ((9 <=? n)%nat && (n <=? 13)%nat).

Fixpoint trimStart (s : string) : string :=
  match s with
  | EmptyString => EmptyString
  | String c r => if is_space c then trimStart r else s
  end.

Fixpoint trimEnd (s : string) : string :=
  match s with
  | EmptyString => EmptyString
  | String c r =>
      match trimEnd r with
      | EmptyString => if is_space c then EmptyString else String c EmptyString
      | r' => String c r'
      end
  end.

(** [s.trim()]. *)
Definition trim (s : string) : string := trimEnd (trimStart s).

(** [s.substring(0, n)] and [s.slice(0, n)] for a constant [n >= 0]. *)
Definition take (n : nat) (s : string) : string := String.substring 0 n s.

(** [hay.includes(needle)]. *)
Fixpoint includes (hay needle : string) : bool :=
  String.prefix needle hay ||
  match hay with
  | EmptyString => false
  | String _ r => includes r needle
  end.

(** [s.startsWith(p)] and [s.endsWith(p)]. *)
Definition startsWith (s p : string) : bool := String.prefix p s.

Definition endsWith (s p : string) : bool :=
  (String.length p <=? String.length s)%nat &&
  String.eqb (String.substring (String.length s - String.length p)
                               (String.length p) s) p.

(** [s.replace(c, '')] with a one-character string pattern: only the
    first occurrence goes. *)
Fixpoint remove_first (c : ascii) (s : string) : string :=
  match s with
  | EmptyString => EmptyString
  | String d r => if Ascii.eqb c d then r else String d (remove_first c r)
  end.

(** Truthiness of a string: [''] is falsy. *)
Definition truthy (s : string) : bool :=
  match s with EmptyString => false | _ => true end.

(** [a.slice(0, n)] on an array, [n] an integer: a negative [n] counts
    from the end. *)
Definition slice0 {A} (n : Z) (l : list A) : list A :=
  if (n <? 0)%Z
  then firstn (Z.to_nat (Z.of_nat (List.length l) + n)) l
  else firstn (Z.to_nat n) l.

(** Template-literal rendering of integers. *)
Definition show_Z (z : Z) : string := NilZero.string_of_int (Z.to_int z).
Definition show_nat (n : nat) : string := show_Z (Z.of_nat n).

End Js.

(* ================================================================== *)
(** ** Data model ([agent.ts], lines 4-20, and the oracle's candidates) *)

(** One entry of [extraction.data.tweets]. *)
Record Candidate := mkCandidate {
  c_text       : option string;
  c_author     : option string;
  c_created_at : option string;
  c_likes      : option Z;
  c_retweets   : option Z
}.

Record Tweet := mkTweet {
  tweet_id         : string;           (* the field [id] *)
  text             : string;
  created_at       : string;
  author           : string;
  author_followers : Z;
  retweets         : Z;
  likes            : Z
}.

Record BreakingNewsItem := mkNews {
  symbol      : string;
  headline    : string;
  news_author : string;
  age_minutes : option Z;       (* [None] is NaN *)
  is_breaking : bool
}.

(* ================================================================== *)
(** ** Dedup tracker (the body of the merge loops, lines 233-252 and
       324-331) *)

(** [x || ''] on an optional string. *)
Definition or_empty (o : option string) : string :=
  match o with Some s => s | None => "" end.

(** [(tweet.text || '').substring(0, 150).toLowerCase().trim()]. *)
Definition dedupKeyOf (t : string) : string :=
  Js.trim (Js.toLowerCase (Js.take 150 t)).

Definition dedupKey (c : Candidate) : string := dedupKeyOf (or_empty (c_text c)).

Definition has_key (seen : list string) (k : string) : bool :=
  existsb (String.eqb k) seen.

(** [key && key.length > 10 && !seen.has(key)]. *)
Definition acceptable (seen : list string) (c : Candidate) : bool :=
  let key := dedupKey c in
  Js.truthy key && (10 <? String.length key)%nat && negb (has_key seen key).

(** The accumulator of one harvest: [allTweets] and [seen]. *)
Record Session := mkSession {
  allTweets : list Candidate;
  seen      : list string
}.

Definition empty_session : Session := mkSession [] [].

(** [seen.add(key); allTweets.push(tweet)]. *)
Definition add_item (c : Candidate) (s : Session) : Session :=
  mkSession (allTweets s ++ [c]) (seen s ++ [dedupKey c]).

(** One round of the [for (const tweet of ...)] body: the session after
    the candidate was looked at. *)
Definition accept (c : Candidate) (s : Session) : Session :=
  if acceptable (seen s) c then add_item c s else s.

Definition count (s : Session) : Z := Z.of_nat (List.length (allTweets s)).

(** The whole [for ... of] loop with its [break] once the target is met. *)
Fixpoint merge (maxResults : Z) (cs : list Candidate) (s : Session) : Session :=
  match cs with
  | [] => s
  | c :: rest =>
      if acceptable (seen s) c then
        let s' := add_item c s in
        if (maxResults <=? count s')%Z then s' else merge maxResults rest s'
      else merge maxResults rest s
  end.

(* ================================================================== *)
(** ** Collaborators: browser session, extraction oracle, clock, files *)

Inductive Direction := up | down.

Record Tab := mkTab {
  tab_id    : Z;
  tab_url   : string;
  tab_title : string
}.

(** [SnapshotElement]; of [attributes] only [testid] is ever read. *)
Record SnapshotElement := mkElement {
  el_ref    : string;
  el_tag    : string;
  el_text   : option string;
  el_testid : option string
}.

(** [VisionAnalysisResult]: [success] and the optional [data]. *)
Record VisionAnalysisResult (D : Type) := mkVision {
  success : bool;
  data    : option D
}.

(** The oracle's [data] per prompt; a flag is the truthiness of the JSON
    field, [tweets] is absent or an array. *)
Record AuthData    := mkAuthData    { authenticated : bool }.
Record VerifyData  := mkVerifyData  { results_loaded : bool }.
Record ExtractData := mkExtractData { tweets : option (list Candidate) }.

(** What the agent asks of its collaborators, in call order. *)
Inductive Event :=
| EvIsConnected
| EvListTabs
| EvSwitchTab (tabId : Z)
| EvGetCurrentUrl
| EvOpen (url : string)
| EvSetViewportHeight (height : Z)
| EvScreenshot
| EvScroll (direction : Direction) (pixels : Z)
| EvSnapshot
| EvBrowserCleanup
| EvCheckAuthentication
| EvVerifySearchResults
| EvExtractTweets (maxResults : Z)
| EvDelay (ms : Z)
| EvRandomDelay                 (* [delay(1000 + Math.random() * 2000)] *)
| EvUnlink (path : string)
| EvNow.                        (* [Date.now()] or [new Date()] *)

Inductive Error :=
| ChromeNotRunning              (* thrown by [init] *)
| CommandFailed (cmd : string)  (* [executeCommand] threw *)
| ScreenshotFailed              (* [browser.screenshot] threw *)
| ENOENT.                       (* [unlink] of a missing file *)

(** The answers of the collaborators.  The [nat] is the number of
    collaborator calls made before this one; [None] and [false] are
    failures of the call. *)
Record Env := mkEnv {
  isConnected_at         : nat -> bool;
  listTabs_at            : nat -> option (list Tab);
  switchTab_at           : nat -> bool;
  getCurrentUrl_at       : nat -> option string;
  open_at                : nat -> bool;
  screenshot_at          : nat -> option (string * string); (* base64, path *)
  scroll_at              : nat -> bool;
  snapshot_at            : nat -> option (list SnapshotElement);
  readdir_at             : nat -> bool;
  checkAuthentication_at : nat -> VisionAnalysisResult AuthData;
  verifySearchResults_at : nat -> VisionAnalysisResult VerifyData;
  extractTweets_at       : nat -> VisionAnalysisResult ExtractData;
  now_at                 : nat -> Z;               (* milliseconds *)
  encodeURIComponent     : string -> string;
  toISOString            : Z -> string;
  Date_parse             : string -> option Z      (* [None] is NaN *)
}.

(** The agent's fields, the screenshot files on disk, and the log of
    collaborator calls (newest first). *)
Record State := mkState {
  initialized     : bool;
  screenshotPaths : list string;
  files           : list string;
  calls           : nat;
  trace           : list Event
}.

Definition fresh_agent : State := mkState false [] [] 0 [].

Inductive Outcome (A : Type) :=
| Ret (a : A)
| Raise (e : Error).
Arguments Ret {A} a.
Arguments Raise {A} e.

(** Stateful, fallible computations: the state survives a [throw]. *)
Definition M (A : Type) : Type := State -> Outcome A * State.

Definition ret {A} (a : A) : M A := fun st => (Ret a, st).

Definition raise {A} (e : Error) : M A := fun st => (Raise e, st).

Definition bind {A B} (m : M A) (k : A -> M B) : M B :=
  fun st =>
    match m st with
    | (Ret a, st') => k a st'
    | (Raise e, st') => (Raise e, st')
    end.

(** [try { m } catch (e) { h e }]. *)
Definition try_catch {A} (m : M A) (h : Error -> M A) : M A :=
  fun st =>
    match m st with
    | (Ret a, st') => (Ret a, st')
    | (Raise e, st') => h e st'
    end.

Declare Scope agent_scope.
Delimit Scope agent_scope with agent.
Notation "x <- m ;; k" := (bind m (fun x => k))
  (at level 61, m at next level, right associativity) : agent_scope.
Notation "m ;; k" := (bind m (fun _ => k))
  (at level 61, right associativity) : agent_scope.
Local Open Scope agent_scope.

Definition get : M State := fun st => (Ret st, st).

Definition record (ev : Event) (st : State) : State :=
  mkState (initialized st) (screenshotPaths st) (files st)
          (S (calls st)) (ev :: trace st).

Definition set_initialized (b : bool) : M unit :=
  fun st => (Ret tt, mkState b (screenshotPaths st) (files st) (calls st) (trace st)).

Definition set_screenshotPaths (l : list string) : M unit :=
  fun st => (Ret tt, mkState (initialized st) l (files st) (calls st) (trace st)).

Definition set_files (l : list string) : M unit :=
  fun st => (Ret tt, mkState (initialized st) (screenshotPaths st) l (calls st) (trace st)).

(** A collaborator call that answers or throws. *)
Definition call {A} (ev : Event) (answer : nat -> option A) (e : Error) : M A :=
  fun st =>
    match answer (calls st) with
    | Some a => (Ret a, record ev st)
    | None => (Raise e, record ev st)
    end.

(** A call that cannot throw. *)
Definition ask {A} (ev : Event) (answer : nat -> A) : M A :=
  fun st => (Ret (answer (calls st)), record ev st).

Definition ok_or_fail (b : nat -> bool) (n : nat) : option unit :=
  if b n then Some tt else None.

Fixpoint repeatM (n : nat) (m : M unit) : M unit :=
  match n with
  | O => ret tt
  | S k => m ;; repeatM k m
  end.

(* ================================================================== *)
(** ** The agent ([TwitterAutonomousAgent]) *)

(** Local state of the extraction loop of [searchTwitter] (lines
    198-206). *)
Record LoopState := mkLoop {
  session                     : Session;   (* [allTweets] and [seen] *)
  scrollPosition              : Z;
  scrollAttempts              : nat;
  consecutiveEmptyScreenshots : nat;
  lastTweetCount              : Z;
  stuckCount                  : nat
}.

Definition maxScrollAttempts : nat := 50.
Definition maxConsecutiveEmpty : nat := 5.
Definition maxVerifyAttempts : nat := 8.
Definition MAX_NEWS_AGE_MS : Z := 1800000.
Definition BREAKING_THRESHOLD_MS : Z := 600000.

Definition loop_start : LoopState := mkLoop empty_session 0 0 0 0 0.

(** [r.success && r.data?.tweets]: the array, when there is one. *)
Definition tweets_of (r : VisionAnalysisResult ExtractData) : option (list Candidate) :=
  if success r then
    match data r with
    | Some d => tweets d
    | None => None
    end
  else None.

(** [verify.success && verify.data?.results_loaded]. *)
Definition loaded (r : VisionAnalysisResult VerifyData) : bool :=
  success r && match data r with Some d => results_loaded d | None => false end.

(** Lines 230-277: what one oracle answer does to the loop state. *)
Definition tally (maxResults : Z) (extraction : VisionAnalysisResult ExtractData)
                 (ls : LoopState) : LoopState :=
  match tweets_of extraction with
  | Some (c :: cs) =>
      let beforeCount := count (session ls) in
      let s' := merge maxResults (c :: cs) (session ls) in
      let newTweets := (count s' - beforeCount)%Z in
      let foundNewTweets := (0 <? newTweets)%Z in
      if foundNewTweets then
        mkLoop s' (scrollPosition ls) (scrollAttempts ls) 0 (count s') 0
      else
        mkLoop s' (scrollPosition ls) (scrollAttempts ls)
               (S (consecutiveEmptyScreenshots ls))
               (count s')
               (if (count s' =? lastTweetCount ls)%Z then S (stuckCount ls) else 0)
  | _ =>
      mkLoop (session ls) (scrollPosition ls) (scrollAttempts ls)
             (S (consecutiveEmptyScreenshots ls))
             (lastTweetCount ls)
             (if (count (session ls) =? lastTweetCount ls)%Z
              then S (stuckCount ls) else stuckCount ls)
  end.

(** Lines 278-283: the [catch] of the iteration. *)
Definition screenshot_failed (ls : LoopState) : LoopState :=
  mkLoop (session ls) (scrollPosition ls) (scrollAttempts ls)
         (S (consecutiveEmptyScreenshots ls))
         (lastTweetCount ls)
         (S (stuckCount ls)).

(** Line 286: the recovery selector's test. *)
Definition needs_recovery (ls : LoopState) : bool :=
  (3 <=? stuckCount ls)%nat ||
  (maxConsecutiveEmpty <=? consecutiveEmptyScreenshots ls)%nat.

(** Lines 291-292. *)
Definition reset_counters (ls : LoopState) : LoopState :=
  mkLoop (session ls) (scrollPosition ls) (scrollAttempts ls) 0
         (lastTweetCount ls) 0.

(** Lines 303-304. *)
Definition advance (scrollAmount : Z) (ls : LoopState) : LoopState :=
  mkLoop (session ls) (scrollPosition ls + scrollAmount) (S (scrollAttempts ls))
         (consecutiveEmptyScreenshots ls) (lastTweetCount ls) (stuckCount ls).

Definition with_session (s : Session) (ls : LoopState) : LoopState :=
  mkLoop s (scrollPosition ls) (scrollAttempts ls)
         (consecutiveEmptyScreenshots ls) (lastTweetCount ls) (stuckCount ls).

Definition home_url : string := "https://twitter.com/home".

Definition is_screenshot_file (f : string) : bool :=
  Js.startsWith f "twitter-screenshot-" && Js.endsWith f ".png".

(** *** Values of the [/twitter/search] request and its responses *)

(** A parsed JSON value; numbers are the integer-valued ones. *)
Inductive JsValue :=
| JNull
| JBool (b : bool)
| JNum (n : Z)
| JStr (s : string)
| JArr
| JObj.

(** [req.body]; [None] is a missing field ([undefined]). *)
Record SearchBody := mkBody {
  body_query      : option JsValue;
  body_maxResults : option JsValue
}.

Inductive Response :=
| Json200 (tweets : list Tweet) (n : nat)   (* [{ success: true, tweets, count }] *)
| Json400 (error : string)                  (* [{ success: false, error }] *)
| Json500 (e : Error).                      (* [{ success: false, error }] *)

Definition js_truthy (v : JsValue) : bool :=
  match v with
  | JNull => false
  | JBool b => b
  | JNum n => negb (n =? 0)%Z
  | JStr s => Js.truthy s
  | JArr => true
  | JObj => true
  end.

(** [typeof v !== 'number' || v < 1 || v > 50]. *)
Definition out_of_range (v : JsValue) : bool :=
  match v with
  | JNum n => (n <? 1)%Z || (50 <? n)%Z
  | _ => true
  end.

(** The number a value stands for in the arithmetic of
    [searchTwitter]; past the validation only numbers and the falsy
    [null], [false] and [''] (all 0) are left. *)
Definition to_number (v : JsValue) : Z :=
  match v with
  | JNum n => n
  | JBool true => 1
  | _ => 0
  end.

Section Agent.

Variable env : Env.

(** *** [BrowserController] and [LLMVision], as seen by the agent *)

Definition delay (ms : Z) : M unit := ask (EvDelay ms) (fun _ => tt).
Definition random_delay : M unit := ask EvRandomDelay (fun _ => tt).
Definition Date_now : M Z := ask EvNow (now_at env).

Definition browser_isConnected : M bool := ask EvIsConnected (isConnected_at env).

Definition browser_listTabs : M (list Tab) :=
  call EvListTabs (listTabs_at env) (CommandFailed "tab").

Definition browser_switchTab (tabId : Z) : M unit :=
  call (EvSwitchTab tabId) (ok_or_fail (switchTab_at env)) (CommandFailed "tab").

Definition browser_getCurrentUrl : M string :=
  call EvGetCurrentUrl (getCurrentUrl_at env) (CommandFailed "get").

Definition browser_open (url : string) : M unit :=
  call (EvOpen url) (ok_or_fail (open_at env)) (CommandFailed "open").

Definition browser_setViewportHeight (height : Z) : M unit :=
  ask (EvSetViewportHeight height) (fun _ => tt).

Definition browser_scroll (direction : Direction) (pixels : Z) : M unit :=
  call (EvScroll direction pixels) (ok_or_fail (scroll_at env)) (CommandFailed "scroll").

Definition browser_snapshot : M (list SnapshotElement) :=
  call EvSnapshot (snapshot_at env) (CommandFailed "snapshot").

(** [browser.screenshot()]: a file is written under the returned path;
    the path is [''] when the image came from stdout instead. *)
Definition browser_screenshot : M (string * string) :=
  r <- call EvScreenshot (screenshot_at env) ScreenshotFailed ;;
  st <- get ;;
  (if Js.truthy (snd r) then set_files (snd r :: files st) else ret tt) ;;
  ret r.

(** [browser.cleanupScreenshots()]: never throws; when the directory
    can be read, every [twitter-screenshot-*.png] in it goes. *)
Definition browser_cleanupScreenshots : M unit :=
  readable <- ask EvBrowserCleanup (readdir_at env) ;;
  st <- get ;;
  if readable
  then set_files (filter (fun f => negb (is_screenshot_file f)) (files st))
  else ret tt.

(** [unlink(path)]. *)
Definition unlink (path : string) : M unit :=
  _ <- ask (EvUnlink path) (fun _ => tt) ;;
  st <- get ;;
  if existsb (String.eqb path) (files st)
  then set_files (filter (fun f => negb (String.eqb path f)) (files st))
  else raise ENOENT.

Definition llm_checkAuthentication : M (VisionAnalysisResult AuthData) :=
  ask EvCheckAuthentication (checkAuthentication_at env).

Definition llm_verifySearchResults : M (VisionAnalysisResult VerifyData) :=
  ask EvVerifySearchResults (verifySearchResults_at env).

Definition llm_extractTweetsFromScreenshot (maxResults : Z)
  : M (VisionAnalysisResult ExtractData) :=
  ask (EvExtractTweets maxResults) (extractTweets_at env).

(** *** Screenshot bookkeeping *)

(** [r = await this.browser.screenshot();
     if (r.path) this.screenshotPaths.push(r.path);]
    yielding [r.base64]. *)
Definition tracked_screenshot : M string :=
  r <- browser_screenshot ;;
  st <- get ;;
  (if Js.truthy (snd r)
   then set_screenshotPaths (screenshotPaths st ++ [snd r])
   else ret tt) ;;
  ret (fst r).

Fixpoint unlink_each (paths : list string) : M unit :=
  match paths with
  | [] => ret tt
  | path :: rest =>
      (if Js.truthy path
       then try_catch (unlink path) (fun _ => ret tt)
       else ret tt) ;;
      unlink_each rest
  end.

(** [cleanupScreenshots] (lines 433-452). *)
Definition cleanupScreenshots : M unit :=
  st <- get ;;
  unlink_each (screenshotPaths st) ;;
  set_screenshotPaths [] ;;
  browser_cleanupScreenshots.

(** *** [init] (lines 40-102) *)

Definition is_twitter_tab (tab : Tab) : bool :=
  Js.includes (tab_url tab) "twitter.com" || Js.includes (tab_url tab) "x.com".

Definition init : M unit :=
  st <- get ;;
  if initialized st then ret tt else
  connected <- browser_isConnected ;;
  if negb connected then raise ChromeNotRunning else
  try_catch
    (tabs <- browser_listTabs ;;
     match find is_twitter_tab tabs with
     | Some twitterTab =>
         browser_switchTab (tab_id twitterTab) ;;
         delay 2000 ;;
         currentUrl <- browser_getCurrentUrl ;;
         if negb (Js.includes currentUrl "/home")
         then browser_open home_url ;; delay 3000
         else ret tt
     | None =>
         browser_open home_url ;; delay 5000
     end)
    (fun _ => browser_open home_url ;; delay 5000) ;;
  screenshot <- tracked_screenshot ;;
  _ <- llm_checkAuthentication ;;
  set_initialized true.

(** *** [searchTwitter] (lines 107-428) *)

Definition searchUrl (query : string) : string :=
  ("https://twitter.com/search?q=" ++ encodeURIComponent env query)%string.

(** Lines 136-152; [remaining] is [maxVerifyAttempts - verifyAttempts]. *)
Fixpoint verify_loop (remaining : nat) : M unit :=
  match remaining with
  | O => ret tt
  | S r =>
      verify <- llm_verifySearchResults ;;
      if loaded verify then ret tt
      else
        (if (0 <? r)%nat       (* [verifyAttempts < maxVerifyAttempts - 1] *)
         then delay 3000 ;; _ <- tracked_screenshot ;; ret tt
         else ret tt) ;;
        verify_loop r
  end.

(** Lines 211-283: screenshot, oracle call, merge, counters. *)
Definition extract_step (maxResults : Z) (ls : LoopState) : M LoopState :=
  try_catch
    (screenshot <- tracked_screenshot ;;
     extraction <- llm_extractTweetsFromScreenshot (maxResults * 3) ;;
     ret (tally maxResults extraction ls))
    (fun _ => ret (screenshot_failed ls)).

(** Lines 286-293: aggressive recovery. *)
Definition recover (ls : LoopState) : M LoopState :=
  if needs_recovery ls
  then browser_scroll down 5000 ;; delay 4000 ;; ret (reset_counters ls)
  else ret ls.

(** Lines 208-308.  [fuel] bounds the unfolding only: the loop test is
    the source's, and [maxScrollAttempts] rounds of fuel are never
    used up before it fails (see [extraction_loop_fuel]). *)
Fixpoint extraction_loop (maxResults : Z) (fuel : nat) (ls : LoopState)
  : M LoopState :=
  match fuel with
  | O => ret ls
  | S fuel' =>
      if (count (session ls) <? maxResults)%Z &&
         (scrollAttempts ls <? maxScrollAttempts)%nat
      then
        ls1 <- extract_step maxResults ls ;;
        ls2 <- recover ls1 ;;
        if (count (session ls2) <? maxResults)%Z
        then
          let scrollAmount := 3000%Z in
          browser_scroll down scrollAmount ;;
          delay 4000 ;;
          extraction_loop maxResults fuel' (advance scrollAmount ls2)
        else ret ls2        (* [break] *)
      else ret ls
  end.

(** Lines 317-339: the [retry] loop. *)
Fixpoint rescan_passes (maxResults : Z) (retries : nat) (s : Session) : M Session :=
  match retries with
  | O => ret s
  | S r =>
      if (count s <? maxResults)%Z then
        retryScreenshot <- tracked_screenshot ;;
        retryExtraction <- llm_extractTweetsFromScreenshot (maxResults * 2) ;;
        let s' := match tweets_of retryExtraction with
                  | Some cs => merge maxResults cs s
                  | None => s
                  end in
        (if (count s' <? maxResults)%Z
         then browser_scroll down 2000 ;; delay 2500
         else ret tt) ;;
        rescan_passes maxResults r s'
      else ret s
  end.

(** Lines 311-340. *)
Definition rescan (maxResults : Z) (ls : LoopState) : M LoopState :=
  if (count (session ls) <? maxResults)%Z &&
     (scrollAttempts ls <? maxScrollAttempts)%nat
  then
    browser_scroll up 3000 ;;
    delay 2000 ;;
    s <- rescan_passes maxResults 3 (session ls) ;;
    ret (with_session s ls)
  else ret ls.

(** Lines 119-194: settle, verify, prefetch, back to the top. *)
Definition settle (maxResults : Z) : M unit :=
  delay 5000 ;;
  let viewportHeight := Z.max 5000 (maxResults * 300) in
  browser_setViewportHeight viewportHeight ;;
  delay 2000 ;;
  _ <- tracked_screenshot ;;
  verify_loop maxVerifyAttempts ;;
  let scrollCount := Z.max 5 ((maxResults + 1) / 2) in   (* ceil(maxResults / 2) *)
  repeatM (Z.to_nat scrollCount) (browser_scroll down 2500 ;; delay 3500) ;;
  repeatM 10 (browser_scroll up 5000 ;; delay 800) ;;
  delay 3000 ;;
  _ <- tracked_screenshot ;;
  verifyCheck <- llm_verifySearchResults ;;
  if negb (loaded verifyCheck)
  then delay 5000 ;;
       _ <- tracked_screenshot ;;
       _ <- llm_verifySearchResults ;;
       ret tt
  else ret tt.

(** Lines 113-194: navigate to the search page, then settle. *)
Definition prepare (query : string) (maxResults : Z) : M unit :=
  browser_open (searchUrl query) ;;
  settle maxResults.

(** Lines 113-340: everything up to the accumulated [allTweets]. *)
Definition collect (query : string) (maxResults : Z) : M LoopState :=
  prepare query maxResults ;;
  ls <- extraction_loop maxResults maxScrollAttempts loop_start ;;
  rescan maxResults ls.

Definition iso_now : M string :=
  t <- Date_now ;; ret (toISOString env t).

(** [tweet.author?.replace('@', '') || 'unknown']. *)
Definition author_of (tweet : Candidate) : string :=
  match c_author tweet with
  | Some a =>
      let a' := Js.remove_first "@"%char a in
      if Js.truthy a' then a' else "unknown"
  | None => "unknown"
  end.

Definition or_zero (o : option Z) : Z :=
  match o with Some z => z | None => 0%Z end.

(** The [.map] callback of lines 361-369 and 396-404. *)
Definition to_tweet (index : nat) (tweet : Candidate) : M Tweet :=
  now <- Date_now ;;
  created <- match c_created_at tweet with
             | Some s => if Js.truthy s then ret s else iso_now
             | None => iso_now
             end ;;
  ret (mkTweet ("browser_" ++ Js.show_Z now ++ "_" ++ Js.show_nat index)%string
               (or_empty (c_text tweet))
               created
               (author_of tweet)
               0
               (or_zero (c_retweets tweet))
               (or_zero (c_likes tweet))).

Fixpoint map_indexed {A B} (f : nat -> A -> M B) (index : nat) (l : list A)
  : M (list B) :=
  match l with
  | [] => ret []
  | a :: rest =>
      b <- f index a ;;
      bs <- map_indexed f (S index) rest ;;
      ret (b :: bs)
  end.

(** [extractTweetsFallback] (lines 457-484). *)
Definition is_tweet_element (el : SnapshotElement) : bool :=
  String.eqb (el_tag el) "article" ||
  match el_testid el with
  | Some t => String.eqb t "tweet"
  | None => false
  end.

Definition fallback_tweet (i : nat) (el : SnapshotElement) : M Tweet :=
  now <- Date_now ;;
  created <- iso_now ;;
  ret (mkTweet ("fallback_" ++ Js.show_Z now ++ "_" ++ Js.show_nat i)%string
               (or_empty (el_text el)) created "unknown" 0 0 0).

Definition extractTweetsFallback (maxResults : Z) : M (list Tweet) :=
  try_catch
    (snapshot <- browser_snapshot ;;
     let tweetElements := filter is_tweet_element snapshot in
     let bound := Z.min (Z.of_nat (List.length tweetElements)) maxResults in
     map_indexed fallback_tweet 0 (firstn (Z.to_nat bound) tweetElements))
    (fun _ => ret []).

(** Lines 342-414: from the accumulated candidates to the result. *)
Definition finalize (maxResults : Z) (ls : LoopState) : M (list Tweet) :=
  let uniqueTweets := Js.slice0 maxResults (allTweets (session ls)) in
  cleanupScreenshots ;;
  match uniqueTweets with
  | [] =>
      finalScreenshot <- tracked_screenshot ;;
      finalExtraction <- llm_extractTweetsFromScreenshot maxResults ;;
      match tweets_of finalExtraction with
      | Some (c :: cs) =>
          tweets <- map_indexed to_tweet 0 (Js.slice0 maxResults (c :: cs)) ;;
          cleanupScreenshots ;;
          random_delay ;;
          ret tweets
      | _ =>
          fallbackTweets <- extractTweetsFallback maxResults ;;
          cleanupScreenshots ;;
          match fallbackTweets with
          | [] => ret []
          | _ => ret fallbackTweets
          end
      end
  | _ =>
      tweets <- map_indexed to_tweet 0 (Js.slice0 maxResults uniqueTweets) ;;
      cleanupScreenshots ;;
      random_delay ;;
      ret tweets
  end.

(** Lines 415-427: the outer [catch]. *)
Definition on_search_error (maxResults : Z) : M (list Tweet) :=
  try_catch cleanupScreenshots (fun _ => ret tt) ;;
  try_catch (extractTweetsFallback maxResults) (fun _ => ret []).

Definition ensure_init : M unit :=
  st <- get ;;
  if negb (initialized st) then init else ret tt.

Definition searchTwitter (query : string) (maxResults : Z) : M (list Tweet) :=
  ensure_init ;;
  try_catch
    (ls <- collect query maxResults ;; finalize maxResults ls)
    (fun _ => on_search_error maxResults).

(** *** [checkBreakingNews] (lines 489-533) *)

Definition newsQuery (toCheck : list string) : string :=
  let queries := String.concat " OR " (map (fun s => "$" ++ s)%string toCheck) in
  ("(" ++ queries ++
   ") (from:FirstSquawk OR from:DeItaone OR from:Newsquawk) -is:retweet")%string.

(** The predicate of [toCheck.find] (lines 509-510). *)
Definition mentions (tweet_text s : string) : bool :=
  Js.includes (Js.toUpperCase tweet_text) ("$" ++ s)%string ||
  Js.includes (Js.toUpperCase tweet_text) (" " ++ s ++ " ")%string.

Definition isNewsAccount (a : string) : bool :=
  Js.includes (Js.toLowerCase a) "firstsquawk" ||
  Js.includes (Js.toLowerCase a) "deitaone" ||
  Js.includes (Js.toLowerCase a) "newsquawk".

(** [Date.now() - new Date(tweet.created_at).getTime()]. *)
Definition tweetAge (now : Z) (tweet : Tweet) : option Z :=
  match Date_parse env (created_at tweet) with
  | Some t => Some (now - t)%Z
  | None => None
  end.

(** [Math.round(ms / 60000)]: the nearest integer, halves upwards. *)
Definition round_minutes (ms : Z) : Z := ((ms + 30000) / 60000)%Z.

(** [a > b] and [a < b] with a possibly-NaN left operand. *)
Definition gt_ms (a : option Z) (b : Z) : bool :=
  match a with Some x => (b <? x)%Z | None => false end.
Definition lt_ms (a : option Z) (b : Z) : bool :=
  match a with Some x => (x <? b)%Z | None => false end.

(** The body of the [for (const tweet of tweets)] loop, given the
    reading of the clock: the item pushed, if any. *)
Definition classify (toCheck : list string) (now : Z) (tweet : Tweet)
  : option BreakingNewsItem :=
  let age := tweetAge now tweet in
  if gt_ms age MAX_NEWS_AGE_MS then None        (* [continue] *)
  else
    match find (mentions (text tweet)) toCheck with
    | Some mentionedSymbol =>
        if Js.truthy mentionedSymbol then
          if isNewsAccount (author tweet) then
            Some (mkNews mentionedSymbol
                         (Js.take 200 (text tweet))
                         (author tweet)
                         (option_map round_minutes age)
                         (lt_ms age BREAKING_THRESHOLD_MS))
          else None
        else None
    | None => None
    end.

Fixpoint classify_each (toCheck : list string) (tweets : list Tweet)
                       (results : list BreakingNewsItem)
  : M (list BreakingNewsItem) :=
  match tweets with
  | [] => ret results
  | tweet :: rest =>
      now <- Date_now ;;
      match classify toCheck now tweet with
      | Some item => classify_each toCheck rest (results ++ [item])
      | None => classify_each toCheck rest results
      end
  end.

Definition checkBreakingNews (symbols : list string) : M (list BreakingNewsItem) :=
  match symbols with
  | [] => ret []
  | _ =>
      let toCheck := firstn 3 symbols in
      tweets <- searchTwitter (newsQuery toCheck) 5 ;;
      classify_each toCheck tweets []
  end.

(** *** The [/twitter/search] route of the server *)

Definition search_route (body : SearchBody) : M Response :=
  let maxResults := match body_maxResults body with
                    | Some v => v
                    | None => JNum 10
                    end in
  match body_query body with
  | Some (JStr (String c q as query)) =>
      if js_truthy maxResults && out_of_range maxResults
      then ret (Json400 "maxResults must be a number between 1 and 50")
      else
        try_catch
          (tweets <- searchTwitter query (to_number maxResults) ;;
           ret (Json200 tweets (List.length tweets)))
          (fun e => ret (Json500 e))
  | _ => ret (Json400 "Query is required and must be a string")
  end.

End Agent.

(* ================================================================== *)
(** ** The rest of the agent and of its server *)

(** [String(error)] or a fixed text, as the [message] of a health
    report. *)
Inductive Message :=
| Text (s : string)
| OfError (e : Error).

Record Health := mkHealth {
  healthy : bool;
  message : Message
}.

(** The answer of [GET /health]. *)
Record HealthResponse := mkHealthResponse {
  health_status : Z;
  health_body   : Health
}.

(** [req.body.symbols] of [POST /twitter/breaking-news]: anything that
    is not an array, or an array (of strings). *)
Inductive SymbolsField :=
| NotAnArray
| SymbolArray (symbols : list string).

(** What a route's [catch] caught: the [TypeError] of destructuring an
    undefined [req.body], or what the agent threw. *)
Inductive RouteFailure :=
| BodyUndefined
| AgentThrew (e : Error).

Inductive NewsResponse :=
| News200 (news : list BreakingNewsItem) (n : nat)  (* [{ success: true, news, count }] *)
| News400 (error : string)
| News500 (cause : RouteFailure).

(** The answer to a [POST /twitter/search]: that of the route on the
    body, or the 500 of a request that has none. *)
Inductive SearchAnswer :=
| Answered (r : Response)
| Answered500 (cause : RouteFailure).

Section Server.

Variable env : Env.

(** [healthCheck] (agent.ts, lines 538-562). *)
Definition healthCheck : M Health :=
  try_catch
    (connected <- browser_isConnected env ;;
     if negb connected
     then ret (mkHealth false (Text "Chrome not connected"))
     else
       st <- get ;;
       (if negb (initialized st) then init env else ret tt) ;;
       ret (mkHealth true (Text "Agent is ready")))
    (fun e => ret (mkHealth false (OfError e))).

(** The [/health] route of the server (lines 71-81). *)
Definition health_route : M HealthResponse :=
  try_catch
    (health <- healthCheck ;;
     ret (mkHealthResponse (if healthy health then 200 else 503) health))
    (fun e => ret (mkHealthResponse 503 (mkHealth false (OfError e)))).

(** The [/twitter/breaking-news] route of the server (lines 120-146).
    [req_body] is [None] when [req.body] is undefined, and otherwise
    holds the [symbols] field of the body. *)
Definition breaking_news_route (req_body : option SymbolsField) : M NewsResponse :=
  match req_body with
  | None => ret (News500 BodyUndefined)     (* [const { symbols } = req.body] throws *)
  | Some (SymbolArray (s :: rest)) =>
      try_catch
        (news <- checkBreakingNews env (s :: rest) ;;
         ret (News200 news (List.length news)))
        (fun e => ret (News500 (AgentThrew e)))
  | Some _ => ret (News400 "symbols must be a non-empty array")
  end.

(** The [/twitter/search] route (lines 84-117) on a request whose body
    may be undefined: the destructuring at line 86 throws then, inside
    the route's [try]. *)
Definition search_request (req_body : option SearchBody) : M SearchAnswer :=
  match req_body with
  | None => ret (Answered500 BodyUndefined)
  | Some body => r <- search_route env body ;; ret (Answered r)
  end.

End Server.

(** *** [BrowserController]: the command line of [executeCommand] *)

(** [s.split(sep)] for a one-character separator. *)
Fixpoint split_on (sep : ascii) (s : string) : list string :=
  match s with
  | EmptyString => [EmptyString]
  | String c r =>
      if Ascii.eqb c sep then EmptyString :: split_on sep r
      else match split_on sep r with
           | h :: t => String c h :: t
           | [] => [String c EmptyString]
           end
  end.

(** The constructor's [`http://localhost:${chromeDebugPort}`]. *)
Definition chromeWsEndpoint (chromeDebugPort : Z) : string :=
  ("http://localhost:" ++ Js.show_Z chromeDebugPort)%string.

(** [this.chromeWsEndpoint.split(':')[2]]; [None] is [undefined]. *)
Definition port_of (endpoint : string) : option string :=
  nth_error (split_on ":"%char endpoint) 2.

(** [['agent-browser', '--cdp', port, command, ...args].join(' ')]
    (lines 37-41); [join] prints [undefined] as the empty string. *)
Definition fullCommand (endpoint command : string) (args : list string) : string :=
  String.concat " " ("agent-browser" :: "--cdp" :: or_empty (port_of endpoint)
                                     :: command :: args).

(** [url.replace(/&/g, '^&')] (line 76). *)
Fixpoint escape_ampersands (url : string) : string :=
  match url with
  | EmptyString => EmptyString
  | String c r =>
      if Ascii.eqb c "&"%char
      then String "^"%char (String "&"%char (escape_ampersands r))
      else String c (escape_ampersands r)
  end.

(** The command line that [open(url)] runs (lines 73-77). *)
Definition open_command (endpoint url : string) : string :=
  fullCommand endpoint "open" [escape_ampersands url].

(** The command line that [scroll(direction, pixels)] runs (line 207). *)
Definition scroll_command (endpoint : string) (direction : Direction) (pixels : Z) : string :=
  fullCommand endpoint "scroll"
    [match direction with up => "up" | down => "down" end; Js.show_Z pixels].

(** *** The server's [loadEnvVars] (lines 11-42) *)

(** The own entries of a [Record<string, string>]: the latest
    assignment to a key is the first pair with it. *)
Definition Vars := list (string * string).

Fixpoint lookup_var (k : string) (vars : Vars) : option string :=
  match vars with
  | [] => None
  | (k', v) :: rest => if String.eqb k k' then Some v else lookup_var k rest
  end.

Definition LF : ascii := ascii_of_nat 10.

(** The assignment [env[key.trim()] = value] that one line of
    [.dev.vars] executes, if any (lines 28-35): its key and value. *)
Definition parse_line (line : string) : option (string * string) :=
  let trimmed := Js.trim line in
  if Js.truthy trimmed && negb (Js.startsWith trimmed "#") && Js.includes trimmed "="
  then
    match split_on "="%char trimmed with
    | key :: valueParts =>
        let value := Js.trim (String.concat "=" valueParts) in
        if Js.truthy key && Js.truthy value
        then Some (Js.trim key, value)
        else None
    | [] => None
    end
  else None.

(** [env[key] = value] on the plain object [env], [value] a string:
    the key [__proto__] names the prototype accessor, which ignores a
    string, so that no entry is made. *)
Definition assign (kv : string * string) (vars : Vars) : Vars :=
  if String.eqb (fst kv) "__proto__" then vars else kv :: vars.

(** The [forEach] over the lines. *)
Fixpoint assign_lines (lines : list string) (vars : Vars) : Vars :=
  match lines with
  | [] => vars
  | line :: rest =>
      assign_lines rest
        (match parse_line line with
         | Some kv => assign kv vars
         | None => vars
         end)
  end.

(** The copy of the defined entries of [process.env] (lines 15-19). *)
Definition copy_entries (entries : list (string * string)) : Vars :=
  fold_left (fun vars kv => assign kv vars) entries [].

(** [loadEnvVars]: the entries of [process.env], then the file if it
    could be read ([None]: [readFileSync] threw). *)
Definition loadEnvVars (process_env : list (string * string))
                       (dev_vars : option string) : Vars :=
  match dev_vars with
  | Some content => assign_lines (split_on LF content) (copy_entries process_env)
  | None => copy_entries process_env
  end.

(* ================================================================== *)
(** ** Specification vocabulary *)

Unset Implicit Arguments.

(** Some character of [s] satisfies [p]. *)
Fixpoint has_char (p : ascii -> bool) (s : string) : bool :=
  match s with
  | EmptyString => false
  | String c r => p c || has_char p r
  end.

(** The symbol contains a lowercase letter. *)
Definition has_lowercase (s : string) : bool := has_char Js.is_lower s.

(** Every character of [s] is an ASCII character (code below 128).
    On such texts [substring], [toLowerCase], [toUpperCase] and [trim]
    of JavaScript are the functions of [Js]. *)
Definition is_ascii_char (c : ascii) : bool := (nat_of_ascii c <? 128)%nat.

Definition is_ascii (s : string) : bool :=
  negb (has_char (fun c => negb (is_ascii_char c)) s).



(** The invariant of the accumulator: never more than the target, and
    [seen] holds exactly the keys of the accumulated items, each once. *)
Definition session_inv (maxResults : Z) (s : Session) : Prop :=
  (count s <= maxResults)%Z /\
  seen s = map dedupKey (allTweets s) /\
  NoDup (seen s).

(** A key that can no longer be accepted: too short, or already seen. *)
Definition blocked (s : Session) (k : string) : Prop :=
  (String.length k <= 10)%nat \/ In k (seen s).

(** Postconditions of a computation: [Q] on return, [E] on a throw. *)
Definition triple {A} (P : State -> Prop) (m : M A)
           (Q : A -> State -> Prop) (E : Error -> State -> Prop) : Prop :=
  forall st, P st ->
    match m st with
    | (Ret a, st') => Q a st'
    | (Raise e, st') => E e st'
    end.

(** [J] holds after [m], however [m] ends, if it held before. *)
Definition keeps {A} (J : State -> Prop) (m : M A) : Prop :=
  triple J m (fun _ => J) (fun _ => J).

(** [m] cannot throw. *)
Definition total {A} (m : M A) : Prop :=
  forall st, exists a st', m st = (Ret a, st').

(** [J] survives the logging of a collaborator call. *)
Definition stable (J : State -> Prop) : Prop :=
  forall ev st, J st -> J (record ev st).

(** Every screenshot file on disk is tracked (and has a real path). *)
Definition tracked (st : State) : Prop :=
  forall f, In f (files st) -> Js.truthy f = true /\ In f (screenshotPaths st).

(** Nothing tracked, nothing left on disk. *)
Definition clean (st : State) : Prop :=
  screenshotPaths st = [] /\ files st = [].

(** What holds of the agent between calls. *)
Definition agent_wf (st : State) : Prop :=
  tracked st /\ (initialized st = false -> screenshotPaths st = []).

(** The text a candidate contributes to the result ([tweet.text || '']). *)
Definition text_of (c : Candidate) : string := or_empty (c_text c).

(** The dedup keys of the texts of a result. *)
Definition result_keys (tweets : list Tweet) : list string :=
  map dedupKeyOf (map text tweets).

(** The event [ev] is in the log. *)
Definition logged (ev : Event) (st : State) : Prop := In ev (trace st).

(** The events of [st'] that were not yet in [st]. *)
Definition new_events (st st' : State) : list Event :=
  firstn (List.length (trace st') - List.length (trace st)) (trace st').

(** *** Sample collaborators, for concrete runs *)

Definition sample (t : string) : Candidate :=
  mkCandidate (Some t) (Some "@FirstSquawk") None None None.

(** A browser where every command works, one screenshot file name, a
    clock that advances by a millisecond per call, dates that all parse
    to the epoch, an oracle that always gives the same answer, and the
    identity standing in for [encodeURIComponent]. *)
Definition steady_env (answer : VisionAnalysisResult ExtractData) : Env :=
  mkEnv (fun _ => true)
        (fun _ => Some [])
        (fun _ => true)
        (fun _ => Some "https://x.com/home")
        (fun _ => true)
        (fun _ => Some ("iVBORw0KGgo=", "twitter-screenshot-1.png"))
        (fun _ => true)
        (fun _ => Some [])
        (fun _ => true)
        (fun _ => mkVision true (Some (mkAuthData true)))
        (fun _ => mkVision true (Some (mkVerifyData true)))
        (fun _ => answer)
        (fun n => Z.of_nat n)
        (fun s => s)
        (fun z => Js.show_Z z)
        (fun _ => Some 0%Z).

Definition oracle_sees (cs : list Candidate) : VisionAnalysisResult ExtractData :=
  mkVision true (Some (mkExtractData (Some cs))).

(** The oracle sees three posts, the third a re-spelling of the first. *)
Definition env_three_posts : Env :=
  steady_env (oracle_sees
    [sample "$AAPL halted pending news, more to follow";
     sample "$TSLA recalls 2 million vehicles over autopilot";
     sample "  $aapl HALTED pending news, more to follow  "]).

(** The oracle sees the same too-short post twice. *)
Definition env_short_twice : Env :=
  steady_env (oracle_sees [sample "hi"; sample "hi"]).

(** One post long enough to be kept, one too short. *)
Definition mixed_view : VisionAnalysisResult ExtractData :=
  oracle_sees [sample "$AAPL halted pending news, more to follow"; sample "hi"].

(** The oracle sees nothing. *)
Definition env_blind : Env := steady_env (oracle_sees []).

(** Chrome answers the connectivity check, but no screenshot can be
    taken. *)
Definition env_no_screenshot : Env :=
  mkEnv (fun _ => true) (fun _ => Some []) (fun _ => true)
        (fun _ => Some "https://x.com/home") (fun _ => true)
        (fun _ => None)
        (fun _ => true) (fun _ => Some []) (fun _ => true)
        (fun _ => mkVision true (Some (mkAuthData true)))
        (fun _ => mkVision true (Some (mkVerifyData true)))
        (fun _ => oracle_sees [])
        (fun n => Z.of_nat n) (fun s => s) (fun z => Js.show_Z z)
        (fun _ => Some 0%Z).

(** A page that never looks loaded, and an oracle that sees nothing. *)
Definition env_never_loaded : Env :=
  mkEnv (fun _ => true) (fun _ => Some []) (fun _ => true)
        (fun _ => Some "https://x.com/home") (fun _ => true)
        (fun _ => Some ("iVBORw0KGgo=", "twitter-screenshot-1.png"))
        (fun _ => true) (fun _ => Some []) (fun _ => true)
        (fun _ => mkVision true (Some (mkAuthData true)))
        (fun _ => mkVision true (Some (mkVerifyData false)))
        (fun _ => oracle_sees [])
        (fun n => Z.of_nat n) (fun s => s) (fun z => Js.show_Z z)
        (fun _ => Some 0%Z).

(** A working browser whose only tab shows a streaming site, on its
    own home page. *)
Definition env_other_tab : Env :=
  mkEnv (fun _ => true)
        (fun _ => Some [mkTab 7 "https://www.netflix.com/home" "Netflix"])
        (fun _ => true)
        (fun _ => Some "https://www.netflix.com/home") (fun _ => true)
        (fun _ => Some ("iVBORw0KGgo=", "twitter-screenshot-1.png"))
        (fun _ => true) (fun _ => Some []) (fun _ => true)
        (fun _ => mkVision true (Some (mkAuthData false)))
        (fun _ => mkVision true (Some (mkVerifyData true)))
        (fun _ => oracle_sees [])
        (fun n => Z.of_nat n) (fun s => s) (fun z => Js.show_Z z)
        (fun _ => Some 0%Z).

(** Two posts in view, and a browser whose scroll command fails from
    the first scroll of the extraction loop on (the 48th collaborator
    call of a search on a new agent); the snapshot then shows one
    article twice. *)
Definition env_scroll_breaks : Env :=
  mkEnv (fun _ => true) (fun _ => Some []) (fun _ => true)
        (fun _ => Some "https://x.com/home") (fun _ => true)
        (fun _ => Some ("iVBORw0KGgo=", "twitter-screenshot-1.png"))
        (fun n => (n <? 47)%nat)
        (fun _ => Some [mkElement "@e1" "article" (Some "same article text twice") None;
                        mkElement "@e2" "article" (Some "same article text twice") None])
        (fun _ => true)
        (fun _ => mkVision true (Some (mkAuthData true)))
        (fun _ => mkVision true (Some (mkVerifyData true)))
        (fun _ => oracle_sees
                    [sample "$AAPL halted pending news, more to follow";
                     sample "$TSLA recalls 2 million vehicles over autopilot"])
        (fun n => Z.of_nat n) (fun s => s) (fun z => Js.show_Z z)
        (fun _ => Some 0%Z).

(** The oracle reads the timestamp of a post as it is displayed, [40m];
    [new Date("40m")] is an invalid date. *)
Definition env_relative_dates : Env :=
  mkEnv (fun _ => true) (fun _ => Some []) (fun _ => true)
        (fun _ => Some "https://x.com/home") (fun _ => true)
        (fun _ => Some ("iVBORw0KGgo=", "twitter-screenshot-1.png"))
        (fun _ => true) (fun _ => Some []) (fun _ => true)
        (fun _ => mkVision true (Some (mkAuthData true)))
        (fun _ => mkVision true (Some (mkVerifyData true)))
        (fun _ => oracle_sees
                    [mkCandidate (Some "$AAPL halted pending news, more to follow")
                                 (Some "@FirstSquawk") (Some "40m") None None])
        (fun n => Z.of_nat n) (fun s => s) (fun z => Js.show_Z z)
        (fun s => if String.eqb s "40m" then None else Some 0%Z).

(** The post of [env_relative_dates], as [searchTwitter] returns it. *)
Definition stale_post : Tweet :=
  mkTweet "browser_0_0" "$AAPL halted pending news, more to follow" "40m"
          "FirstSquawk" 0 0 0.



(** An agent that went through [init] already. *)
Definition ready_agent : State := mkState true [] [] 0 [].

(** A loop state that already holds the first of the three posts. *)
Definition one_post_in : LoopState :=
  mkLoop (add_item (sample "$AAPL halted pending news, more to follow") empty_session)
         0 0 0 1 0.

(** A post by an allow-listed account, and the moment four minutes
    after its (epoch) timestamp. *)
Definition aapl_post : Tweet :=
  mkTweet "browser_0_0" "$AAPL halted pending news" "2024-02-04T10:00:00Z"
          "FirstSquawk" 0 0 0.

Definition minutes (m : Z) : Z := (m * 60000)%Z.

(** *** Vocabulary of the further properties *)

(** The two stall counters agree and [lastTweetCount] is up to date. *)
Definition in_step (ls : LoopState) : Prop :=
  stuckCount ls = consecutiveEmptyScreenshots ls /\
  lastTweetCount ls = count (session ls).

(** The collaborator calls that cost time or money. *)
Inductive Work := Screenshots | Extractions | Verifications.

Definition is_work (w : Work) (ev : Event) : bool :=
  match w, ev with
  | Screenshots, EvScreenshot => true
  | Extractions, EvExtractTweets _ => true
  | Verifications, EvVerifySearchResults => true
  | _, _ => false
  end.

(** How many calls of the kind [w] are in the log. *)
Definition work_done (w : Work) (st : State) : nat :=
  List.length (filter (is_work w) (trace st)).

(** [m] makes at most [k] calls of the kind [w], however it ends. *)
Definition adds {A} (w : Work) (k : nat) (m : M A) : Prop :=
  forall st, (work_done w (snd (m st)) <= work_done w st + k)%nat.

(** What one call of each collaborator costs, per kind of work. *)
Definition verify_cost (w : Work) : nat :=
  match w with Verifications => 1 | _ => 0 end.

Definition screenshot_cost (w : Work) : nat :=
  match w with Screenshots => 1 | _ => 0 end.

Definition extract_cost (w : Work) : nat :=
  match w with Extractions => 1 | _ => 0 end.

(** One round of the extraction loop, and the final extraction: a
    screenshot and an oracle call. *)
Definition round_cost (w : Work) : nat := screenshot_cost w + extract_cost w.

(** Lines 119-194: up to ten screenshots and ten verifications. *)
Definition settle_cost (w : Work) : nat :=
  match w with
  | Screenshots => 10
  | Extractions => 0
  | Verifications => 10
  end.

(** The most that one [searchTwitter] asks for. *)
Definition search_budget (w : Work) : nat :=
  match w with
  | Screenshots => 62
  | Extractions => 51
  | Verifications => 10
  end.

(** The ids [prefix_<now>_<index>] of consecutive positions from
    [index] on. *)
Fixpoint ids_from (prefix : string) (index : nat) (ids : list string) : Prop :=
  match ids with
  | [] => True
  | i :: rest =>
      (exists now, i = (prefix ++ Js.show_Z now ++ "_" ++ Js.show_nat index)%string) /\
      ids_from prefix (S index) rest
  end.

(** A tweet as [searchTwitter] shapes it. *)
Definition shaped (t : Tweet) : Prop :=
  author t <> "" /\ author_followers t = 0%Z.

(** A tweet as [extractTweetsFallback] shapes it. *)
Definition placeholder (t : Tweet) : Prop :=
  author t = "unknown" /\ author_followers t = 0%Z /\
  retweets t = 0%Z /\ likes t = 0%Z.

(** The character [c] does not occur in [s]. *)
Definition free_of (c : ascii) (s : string) : Prop :=
  has_char (Ascii.eqb c) s = false.

(** Whatever [m] returns satisfies [Q]. *)
Definition yields {A} (m : M A) (Q : A -> Prop) : Prop :=
  forall st a st', m st = (Ret a, st') -> Q a.

(** The agent went through [init]. *)
Definition ready (st : State) : Prop := initialized st = true.

(** The public methods of the agent, and the state a call leaves
    behind, whether it returned or threw. *)
Inductive AgentCall :=
| CallInit
| CallSearchTwitter (query : string) (maxResults : Z)
| CallCheckBreakingNews (symbols : list string)
| CallHealthCheck.

Definition after_call (env : Env) (st : State) (c : AgentCall) : State :=
  match c with
  | CallInit => snd (init env st)
  | CallSearchTwitter q n => snd (searchTwitter env q n st)
  | CallCheckBreakingNews symbols => snd (checkBreakingNews env symbols st)
  | CallHealthCheck => snd (healthCheck env st)
  end.

(** Calls made one after the other (none starts before the previous
    one ended). *)
Definition after_calls (env : Env) (cs : list AgentCall) (st : State) : State :=
  fold_left (after_call env) cs st.

(** The agent between calls: [agent_wf], and at most one screenshot
    file on disk. *)
Definition at_rest (st : State) : Prop :=
  agent_wf st /\ (List.length (files st) <= 1)%nat.

(** Every page opened so far was opened before (its event is in
    [old]) or is one of [allowed]. *)
Definition opened_within (old : list Event) (allowed : list string) (st : State)
  : Prop :=
  forall url, In (EvOpen url) (trace st) -> In (EvOpen url) old \/ In url allowed.

(** The result of a search: indexed ids under one of the two prefixes,
    every tweet [shaped], and placeholders only under [fallback_]. *)
Definition result_shape (tweets : list Tweet) : Prop :=
  (ids_from "browser_" 0 (map tweet_id tweets) \/
   ids_from "fallback_" 0 (map tweet_id tweets) /\ Forall placeholder tweets) /\
  Forall shaped tweets.

(* ================================================================== *)
(** ** String facts *)

Lemma take_length (n : nat) (s : string) :
  (String.length (Js.take n s) <= n)%nat.
Proof.
  unfold Js.take. revert s.
  induction n as [|n IH]; intros [|c r]; simpl; try lia.
  specialize (IH r). lia.
Qed.

Lemma has_char_app (p : ascii -> bool) (a b : string) :
  has_char p (a ++ b)%string = has_char p a || has_char p b.
Proof.
  induction a as [|c a IH]; simpl; [reflexivity|].
  now rewrite IH, orb_assoc.
Qed.

Lemma prefix_has_char (p : ascii -> bool) (a b : string) :
  String.prefix a b = true -> has_char p a = true -> has_char p b = true.
Proof.
  revert b. induction a as [|c a IH]; intros b Hpre Ha; simpl in *; [discriminate|].
  destruct b as [|d b]; simpl in Hpre; [discriminate|].
  destruct (Ascii.ascii_dec c d) as [->|Hne]; [|discriminate].
  simpl. destruct (p d); simpl in *; [reflexivity|]. now apply IH.
Qed.

Lemma includes_has_char (p : ascii -> bool) (hay needle : string) :
  Js.includes hay needle = true -> has_char p needle = true ->
  has_char p hay = true.
Proof.
  induction hay as [|c hay IH]; simpl; intros H Hn.
  - rewrite orb_false_r in H. destruct needle; simpl in *; congruence.
  - apply orb_true_iff in H as [H|H].
    + exact (prefix_has_char p needle (String c hay) H Hn).
    + rewrite (IH H Hn). apply orb_true_r.
Qed.

Lemma upper_char_not_lower (c : ascii) : Js.is_lower (Js.upper_char c) = false.
Proof. destruct c as [[] [] [] [] [] [] [] []]; reflexivity. Qed.

Lemma toUpperCase_no_lowercase (s : string) :
  has_lowercase (Js.toUpperCase s) = false.
Proof.
  unfold has_lowercase, Js.toUpperCase.
  induction s as [|c s IH]; simpl; [reflexivity|].
  now rewrite upper_char_not_lower, IH.
Qed.

(** A symbol with a lowercase letter matches no tweet. *)
Lemma mentions_lowercase (tweet_text s : string) :
  has_lowercase s = true -> mentions tweet_text s = false.
Proof.
  intros Hs. unfold mentions.
  apply orb_false_iff; split; apply not_true_is_false; intros H.
  - pose proof (includes_has_char Js.is_lower _ _ H) as Hc.
    rewrite toUpperCase_no_lowercase in Hc.
    assert (has_char Js.is_lower ("$" ++ s)%string = true) by (simpl; exact Hs).
    specialize (Hc H0). discriminate.
  - pose proof (includes_has_char Js.is_lower _ _ H) as Hc.
    rewrite toUpperCase_no_lowercase in Hc.
    assert (has_char Js.is_lower (" " ++ s ++ " ")%string = true).
    { simpl. rewrite has_char_app. unfold has_lowercase in Hs. now rewrite Hs. }
    specialize (Hc H0). discriminate.
Qed.

(** The primitives on sample inputs. *)
Example trim_example : Js.trim "  a b 	 " = "a b".
Proof. reflexivity. Qed.

Example dedupKey_example :
  dedupKey (sample "  $aapl HALTED pending news, more to follow  ") =
  "$aapl halted pending news, more to follow".
Proof. reflexivity. Qed.

Example is_screenshot_file_example :
  is_screenshot_file "twitter-screenshot-1707040800000.png" = true /\
  is_screenshot_file "twitter-screenshot-1.jpg" = false /\
  is_screenshot_file "notes.png" = false.
Proof. repeat split; reflexivity. Qed.

Example remove_first_example : Js.remove_first "@"%char "@First@Squawk" = "First@Squawk".
Proof. reflexivity. Qed.

Example slice0_example :
  Js.slice0 2 [1; 2; 3] = [1; 2] /\ Js.slice0 0 [1; 2; 3] = [] /\
  Js.slice0 (-1) [1; 2; 3] = [1; 2].
Proof. repeat split; reflexivity. Qed.

Example round_minutes_example :
  round_minutes 240000 = 4%Z /\ round_minutes 89999 = 1%Z /\
  round_minutes 90000 = 2%Z /\ round_minutes (-90000) = (-1)%Z.
Proof. repeat split; reflexivity. Qed.

Example show_Z_example : Js.show_Z 1707040800000 = "1707040800000".
Proof. reflexivity. Qed.

(* ================================================================== *)
(** ** The dedup tracker *)

Lemma has_key_In (l : list string) (k : string) :
  has_key l k = true <-> In k l.
Proof.
  unfold has_key. rewrite existsb_exists. split.
  - intros (x & Hx & Heq). apply String.eqb_eq in Heq. now subst.
  - intros H. exists k. split; [assumption | apply String.eqb_refl].
Qed.

Lemma acceptable_spec (l : list string) (c : Candidate) :
  acceptable l c = true <->
  (11 <= String.length (dedupKey c))%nat /\ ~ In (dedupKey c) l.
Proof.
  unfold acceptable. rewrite !andb_true_iff, negb_true_iff, Nat.ltb_lt.
  rewrite <- not_true_iff_false, has_key_In. split.
  - intros [[_ Hlen] Hnot]. split; [lia | assumption].
  - intros [Hlen Hnot]. repeat split; try lia; try assumption.
    destruct (dedupKey c); [simpl in Hlen; lia | reflexivity].
Qed.

Lemma acceptable_blocked (s : Session) (c : Candidate) :
  blocked s (dedupKey c) -> acceptable (seen s) c = false.
Proof.
  intros Hb. apply not_true_is_false. rewrite acceptable_spec.
  intros [Hlen Hnot]. destruct Hb as [Hshort|Hin]; [lia | contradiction].
Qed.

Lemma blocked_add_item (s : Session) (c : Candidate) (k : string) :
  blocked s k -> blocked (add_item c s) k.
Proof.
  intros [H|H]; [now left | right]. simpl. apply in_or_app. now left.
Qed.

Lemma blocked_after_accept (s : Session) (c : Candidate) :
  blocked (accept c s) (dedupKey c).
Proof.
  unfold accept. destruct (acceptable (seen s) c) eqn:Hacc.
  - right. simpl. apply in_or_app. right. now left.
  - unfold blocked.
    destruct (le_dec (String.length (dedupKey c)) 10) as [Hle|Hgt]; [now left|].
    right. destruct (in_dec string_dec (dedupKey c) (seen s)) as [Hin|Hnin]; [assumption|].
    assert (acceptable (seen s) c = true) by (apply acceptable_spec; split; [lia|assumption]).
    congruence.
Qed.

(** Once its key is blocked, a candidate can be struck from the batch
    without changing the outcome of the merge. *)
Lemma merge_skips_blocked (n : Z) (pre post : list Candidate) (c : Candidate) :
  forall s, blocked s (dedupKey c) ->
    merge n (pre ++ c :: post) s = merge n (pre ++ post) s.
Proof.
  induction pre as [|p pre IH]; intros s Hb; simpl.
  - now rewrite (acceptable_blocked s c Hb).
  - destruct (acceptable (seen s) p).
    + destruct (n <=? count (add_item p s))%Z; [reflexivity|].
      apply IH. now apply blocked_add_item.
    + now apply IH.
Qed.

Lemma merge_extends (n : Z) (cs : list Candidate) :
  forall s, exists added,
    allTweets (merge n cs s) = allTweets s ++ added /\
    seen (merge n cs s) = seen s ++ map dedupKey added /\
    incl added cs.
Proof.
  induction cs as [|c cs IH]; intros s; simpl.
  - exists []. rewrite !app_nil_r. repeat split. apply incl_refl.
  - destruct (acceptable (seen s) c).
    + destruct (n <=? count (add_item c s))%Z.
      * exists [c]. simpl. repeat split. intros x [<-|[]]. now left.
      * destruct (IH (add_item c s)) as (added & Ha & Hs & Hi).
        exists (c :: added). simpl in *. rewrite Ha, Hs, <- !app_assoc. simpl.
        repeat split. intros x [<-|Hx]; [now left | right; now apply Hi].
    + destruct (IH s) as (added & Ha & Hs & Hi).
      exists added. repeat split; try assumption. now apply incl_tl.
Qed.

Lemma count_add_item (c : Candidate) (s : Session) :
  count (add_item c s) = (count s + 1)%Z.
Proof. unfold count, add_item. simpl. rewrite length_app. simpl. lia. Qed.

Lemma session_inv_add (n : Z) (c : Candidate) (s : Session) :
  session_inv n s -> (count s < n)%Z -> acceptable (seen s) c = true ->
  session_inv n (add_item c s).
Proof.
  intros (Hc & Hs & Hnd) Hlt Hacc. apply acceptable_spec in Hacc as [_ Hnot].
  repeat split.
  - rewrite count_add_item. lia.
  - simpl. now rewrite map_app, Hs.
  - simpl. apply NoDup_app; [assumption | repeat constructor; intros [] | ].
    intros a Ha [<-|[]]. contradiction.
Qed.

Lemma session_inv_accept (n : Z) (c : Candidate) (s : Session) :
  session_inv n s -> (count s < n)%Z -> session_inv n (accept c s).
Proof.
  intros Hinv Hlt. unfold accept.
  destruct (acceptable (seen s) c) eqn:Hacc; [|assumption].
  now apply session_inv_add.
Qed.

Lemma session_inv_merge (n : Z) (cs : list Candidate) :
  forall s, session_inv n s -> (count s < n)%Z -> session_inv n (merge n cs s).
Proof.
  induction cs as [|c cs IH]; intros s Hinv Hlt; simpl; [assumption|].
  destruct (acceptable (seen s) c) eqn:Hacc.
  - pose proof (session_inv_add n c s Hinv Hlt Hacc) as Hinv'.
    destruct (n <=? count (add_item c s))%Z eqn:Hfull; [assumption|].
    apply IH; [assumption|]. apply Z.leb_gt in Hfull. lia.
  - now apply IH.
Qed.

Lemma count_merge_mono (n : Z) (cs : list Candidate) (s : Session) :
  (count s <= count (merge n cs s))%Z.
Proof.
  destruct (merge_extends n cs s) as (added & Ha & _ & _).
  unfold count. rewrite Ha, length_app. lia.
Qed.

(* ================================================================== *)
(** ** Reasoning about computations *)

Section Logic.

Context {A B : Type}.

Lemma triple_ret (P : State -> Prop) (a : A) Q E :
  (forall st, P st -> Q a st) -> triple P (ret a) Q E.
Proof. intros H st HP. simpl. now apply H. Qed.

Lemma triple_raise (P : State -> Prop) (e : Error) (Q : A -> State -> Prop) E :
  (forall st, P st -> E e st) -> triple P (raise e) Q E.
Proof. intros H st HP. simpl. now apply H. Qed.

Lemma triple_bind (P : State -> Prop) (m : M A) (k : A -> M B) R Q E :
  triple P m R E -> (forall a, triple (R a) (k a) Q E) ->
  triple P (bind m k) Q E.
Proof.
  intros Hm Hk st HP. unfold bind. specialize (Hm st HP).
  destruct (m st) as [[a|e] st1]; [|assumption].
  now apply Hk.
Qed.

Lemma triple_try (P : State -> Prop) (m : M A) (h : Error -> M A) Q R E :
  triple P m Q R -> (forall e, triple (R e) (h e) Q E) ->
  triple P (try_catch m h) Q E.
Proof.
  intros Hm Hh st HP. unfold try_catch. specialize (Hm st HP).
  destruct (m st) as [[a|e] st1]; [assumption|].
  now apply Hh.
Qed.

Lemma triple_weaken (P P' : State -> Prop) (m : M A)
      (Q Q' : A -> State -> Prop) (E E' : Error -> State -> Prop) :
  triple P m Q E ->
  (forall st, P' st -> P st) ->
  (forall a st, Q a st -> Q' a st) ->
  (forall e st, E e st -> E' e st) ->
  triple P' m Q' E'.
Proof.
  intros Hm HP HQ HE st HP'. specialize (Hm st (HP st HP')).
  destruct (m st) as [[a|e] st1]; auto.
Qed.

Lemma triple_any (P : State -> Prop) (m : M A) :
  triple P m (fun _ _ => True) (fun _ _ => True).
Proof. intros st _. now destruct (m st) as [[a|e] st1]. Qed.

Lemma keeps_ret (J : State -> Prop) (a : A) : keeps J (ret a).
Proof. now apply triple_ret. Qed.

Lemma keeps_raise (J : State -> Prop) (e : Error) : keeps J (@raise A e).
Proof. now apply triple_raise. Qed.

Lemma keeps_bind (J : State -> Prop) (m : M A) (k : A -> M B) :
  keeps J m -> (forall a, keeps J (k a)) -> keeps J (bind m k).
Proof. intros Hm Hk. eapply triple_bind; [exact Hm | exact Hk]. Qed.

Lemma keeps_try (J : State -> Prop) (m : M A) (h : Error -> M A) :
  keeps J m -> (forall e, keeps J (h e)) -> keeps J (try_catch m h).
Proof. intros Hm Hh. eapply triple_try; [exact Hm | exact Hh]. Qed.

Lemma keeps_ask (J : State -> Prop) (ev : Event) (f : nat -> A) :
  stable J -> keeps J (ask ev f).
Proof. intros HJ st Hst. simpl. now apply HJ. Qed.

Lemma keeps_call (J : State -> Prop) (ev : Event) (f : nat -> option A) (e : Error) :
  stable J -> keeps J (call ev f e).
Proof.
  intros HJ st Hst. unfold call. destruct (f (calls st)); now apply HJ.
Qed.

Lemma total_ret (a : A) : total (ret a).
Proof. intros st. now exists a, st. Qed.

Lemma total_bind (m : M A) (k : A -> M B) :
  total m -> (forall a, total (k a)) -> total (bind m k).
Proof.
  intros Hm Hk st. unfold bind.
  destruct (Hm st) as (a & st1 & ->). apply Hk.
Qed.

Lemma total_try (m : M A) (h : Error -> M A) :
  (forall e, total (h e)) -> total (try_catch m h).
Proof.
  intros Hh st. unfold try_catch.
  destruct (m st) as [[a|e] st1]; [now exists a, st1 | apply Hh].
Qed.

Lemma total_ask (ev : Event) (f : nat -> A) : total (ask ev f).
Proof. intros st. unfold ask. eauto. Qed.

End Logic.

Lemma keeps_get (J : State -> Prop) : keeps J get.
Proof. intros st Hst. exact Hst. Qed.

Lemma total_get : total get.
Proof. intros st. unfold get. eauto. Qed.

Lemma keeps_repeatM (J : State -> Prop) (m : M unit) (n : nat) :
  keeps J m -> keeps J (repeatM n m).
Proof.
  intros Hm. induction n as [|n IH]; simpl.
  - apply keeps_ret.
  - apply keeps_bind; [exact Hm | intros _; exact IH].
Qed.

Lemma stable_tracked : stable tracked.
Proof. intros ev st H. exact H. Qed.

Lemma stable_clean : stable clean.
Proof. intros ev st H. exact H. Qed.

Lemma stable_in_trace (ev0 : Event) : stable (fun st => In ev0 (trace st)).
Proof. intros ev st H. simpl. now right. Qed.

Lemma clean_tracked (st : State) : clean st -> tracked st.
Proof. intros [_ Hf] f Hin. rewrite Hf in Hin. destruct Hin. Qed.

Create HintDb agent.

#[local] Hint Resolve stable_tracked stable_clean stable_in_trace : agent.
#[local] Hint Resolve keeps_ret keeps_raise keeps_get keeps_ask keeps_call
  keeps_repeatM : agent.
#[local] Hint Resolve total_ret total_get total_ask : agent.

(** Walk through a computation, leaving the collaborator-specific
    steps to the hint database. *)
Ltac keeps_walk :=
  repeat first
    [ progress auto with agent
    | progress cbv zeta
    | apply keeps_bind; [|intro]
    | apply keeps_try; [|intro]
    | apply keeps_repeatM
    | match goal with
      | |- keeps _ (if ?b then _ else _) => destruct b
      | |- keeps _ (match ?x with _ => _ end) => destruct x
      end ].

Ltac total_walk :=
  repeat first
    [ progress auto with agent
    | progress cbv zeta
    | apply total_bind; [|intro]
    | apply total_try; intro
    | match goal with
      | |- total (if ?b then _ else _) => destruct b
      | |- total (match ?x with _ => _ end) => destruct x
      end ].

(* ================================================================== *)
(** ** What every step of the agent preserves *)

Section Walk.

Variable env : Env.
Variable J : State -> Prop.
Hypothesis J_stable : stable J.
Hypothesis J_screenshot : keeps J (tracked_screenshot env).
Hypothesis J_cleanup : keeps J (cleanupScreenshots env).
Hypothesis J_initialized : forall b, keeps J (set_initialized b).

Hint Resolve J_stable J_screenshot J_cleanup J_initialized : agent.

Lemma keeps_delay ms : keeps J (delay ms).
Proof. unfold delay. auto with agent. Qed.

Lemma keeps_random_delay : keeps J random_delay.
Proof. unfold random_delay. auto with agent. Qed.

Lemma keeps_Date_now : keeps J (Date_now env).
Proof. unfold Date_now. auto with agent. Qed.

Lemma keeps_isConnected : keeps J (browser_isConnected env).
Proof. unfold browser_isConnected. auto with agent. Qed.

Lemma keeps_listTabs : keeps J (browser_listTabs env).
Proof. unfold browser_listTabs. auto with agent. Qed.

Lemma keeps_switchTab tabId : keeps J (browser_switchTab env tabId).
Proof. unfold browser_switchTab. auto with agent. Qed.

Lemma keeps_getCurrentUrl : keeps J (browser_getCurrentUrl env).
Proof. unfold browser_getCurrentUrl. auto with agent. Qed.

Lemma keeps_open url : keeps J (browser_open env url).
Proof. unfold browser_open. auto with agent. Qed.

Lemma keeps_setViewportHeight h : keeps J (browser_setViewportHeight h).
Proof. unfold browser_setViewportHeight. auto with agent. Qed.

Lemma keeps_scroll d px : keeps J (browser_scroll env d px).
Proof. unfold browser_scroll. auto with agent. Qed.

Lemma keeps_snapshot : keeps J (browser_snapshot env).
Proof. unfold browser_snapshot. auto with agent. Qed.

Lemma keeps_checkAuthentication : keeps J (llm_checkAuthentication env).
Proof. unfold llm_checkAuthentication. auto with agent. Qed.

Lemma keeps_verifySearchResults : keeps J (llm_verifySearchResults env).
Proof. unfold llm_verifySearchResults. auto with agent. Qed.

Lemma keeps_extractTweets n : keeps J (llm_extractTweetsFromScreenshot env n).
Proof. unfold llm_extractTweetsFromScreenshot. auto with agent. Qed.

Hint Resolve keeps_delay keeps_random_delay keeps_Date_now keeps_isConnected
  keeps_listTabs keeps_switchTab keeps_getCurrentUrl keeps_open
  keeps_setViewportHeight keeps_scroll keeps_snapshot
  keeps_checkAuthentication keeps_verifySearchResults keeps_extractTweets
  : agent.

Lemma keeps_init : keeps J (init env).
Proof. unfold init. keeps_walk. Qed.

Lemma keeps_ensure_init : keeps J (ensure_init env).
Proof. pose proof keeps_init. unfold ensure_init. keeps_walk. Qed.

Lemma keeps_verify_loop n : keeps J (verify_loop env n).
Proof. induction n as [|n IH]; simpl; keeps_walk. Qed.

Lemma keeps_extract_step n ls : keeps J (extract_step env n ls).
Proof. unfold extract_step. keeps_walk. Qed.

Lemma keeps_recover ls : keeps J (recover env ls).
Proof. unfold recover. keeps_walk. Qed.

Hint Resolve keeps_verify_loop keeps_extract_step keeps_recover : agent.

Lemma keeps_extraction_loop n fuel : forall ls, keeps J (extraction_loop env n fuel ls).
Proof. induction fuel as [|fuel IH]; intros ls; simpl; keeps_walk. Qed.

Lemma keeps_rescan_passes n retries : forall s, keeps J (rescan_passes env n retries s).
Proof. induction retries as [|r IH]; intros s; simpl; keeps_walk. Qed.

Hint Resolve keeps_extraction_loop keeps_rescan_passes : agent.

Lemma keeps_settle n : keeps J (settle env n).
Proof. unfold settle. keeps_walk. Qed.

Hint Resolve keeps_settle : agent.

Lemma keeps_prepare q n : keeps J (prepare env q n).
Proof. unfold prepare. keeps_walk. Qed.

Lemma keeps_rescan n ls : keeps J (rescan env n ls).
Proof. unfold rescan. keeps_walk. Qed.

Hint Resolve keeps_prepare keeps_rescan : agent.

Lemma keeps_collect q n : keeps J (collect env q n).
Proof. unfold collect. keeps_walk. Qed.

Lemma keeps_iso_now : keeps J (iso_now env).
Proof. unfold iso_now. keeps_walk. Qed.

Hint Resolve keeps_collect keeps_iso_now : agent.

Lemma keeps_to_tweet i c : keeps J (to_tweet env i c).
Proof. unfold to_tweet. keeps_walk. Qed.

Lemma keeps_fallback_tweet i el : keeps J (fallback_tweet env i el).
Proof. unfold fallback_tweet. keeps_walk. Qed.

Lemma keeps_map_indexed {X Y} (f : nat -> X -> M Y) (l : list X) :
  (forall i x, keeps J (f i x)) -> forall i, keeps J (map_indexed f i l).
Proof. intros Hf. induction l as [|x l IH]; intros i; simpl; keeps_walk. Qed.

Hint Resolve keeps_to_tweet keeps_fallback_tweet keeps_map_indexed : agent.

Lemma keeps_extractTweetsFallback n : keeps J (extractTweetsFallback env n).
Proof. unfold extractTweetsFallback. keeps_walk. Qed.

Hint Resolve keeps_extractTweetsFallback : agent.

Lemma keeps_finalize n ls : keeps J (finalize env n ls).
Proof. unfold finalize. keeps_walk. Qed.

Lemma keeps_on_search_error n : keeps J (on_search_error env n).
Proof. unfold on_search_error. keeps_walk. Qed.

Hint Resolve keeps_finalize keeps_on_search_error keeps_ensure_init : agent.

Lemma keeps_searchTwitter q n : keeps J (searchTwitter env q n).
Proof. unfold searchTwitter. keeps_walk. Qed.

Lemma keeps_classify_each toCheck tweets :
  forall results, keeps J (classify_each env toCheck tweets results).
Proof. induction tweets as [|t ts IH]; intros results; simpl; keeps_walk. Qed.

End Walk.


(* ================================================================== *)
(** ** Initialisation *)

(** Case analysis on the innermost scrutinee of a run. *)
Ltac split_run H :=
  repeat (match type of H with
          | context [match ?x with _ => _ end] =>
              lazymatch x with
              | context [match _ with _ => _ end] => fail
              | _ => let E := fresh "E" in destruct x eqn:E
              end
          end; cbv beta iota in H).

Ltac unfold_init H :=
  cbv beta iota zeta delta
    [init tracked_screenshot browser_screenshot browser_isConnected
     browser_listTabs browser_switchTab browser_getCurrentUrl browser_open
     llm_checkAuthentication delay set_initialized set_screenshotPaths
     set_files bind try_catch call ask get ret raise ok_or_fail record
     initialized screenshotPaths files calls trace fst snd negb] in H.

(** A throw of [init] comes from the connectivity check, from opening
    the home page once the tab lookup (or a first opening) had failed,
    or from the screenshot; it leaves the tracked paths and the files
    alone. *)
Lemma init_raise (env : Env) (st st' : State) (e : Error) :
  init env st = (Raise e, st') ->
  initialized st = false /\
  screenshotPaths st' = screenshotPaths st /\
  files st' = files st /\
  (e = ChromeNotRunning /\ isConnected_at env (calls st) = false \/
   e = CommandFailed "open" \/
   e = ScreenshotFailed).
Proof.
  intros H. unfold_init H. split_run H.
  all: try discriminate.
  all: inversion H; subst; clear H; simpl; auto 7.
Qed.

Lemma init_ret_initialized (env : Env) (st st' : State) (u : unit) :
  init env st = (Ret u, st') -> initialized st' = true.
Proof.
  intros H. unfold_init H. split_run H.
  all: try discriminate.
  all: inversion H; subst; clear H; simpl; auto.
Qed.

Lemma init_when_initialized (env : Env) (st : State) :
  initialized st = true -> init env st = (Ret tt, st).
Proof. intros H. unfold init, bind, get. now rewrite H. Qed.

Lemma ensure_init_is_init (env : Env) (st : State) :
  ensure_init env st = init env st.
Proof.
  unfold ensure_init, bind, get.
  destruct (initialized st) eqn:Hi; simpl; [|reflexivity].
  now rewrite init_when_initialized.
Qed.

(* ================================================================== *)
(** ** What cannot throw *)

Lemma total_set_screenshotPaths l : total (set_screenshotPaths l).
Proof. intros st. unfold set_screenshotPaths. eauto. Qed.

Lemma total_set_files l : total (set_files l).
Proof. intros st. unfold set_files. eauto. Qed.

#[local] Hint Resolve total_set_screenshotPaths total_set_files : agent.

Lemma total_browser_cleanupScreenshots env : total (browser_cleanupScreenshots env).
Proof. unfold browser_cleanupScreenshots. total_walk. Qed.

Lemma total_unlink_each paths : total (unlink_each paths).
Proof. induction paths as [|p ps IH]; simpl; total_walk. Qed.

#[local] Hint Resolve total_browser_cleanupScreenshots total_unlink_each : agent.

Lemma total_cleanupScreenshots env : total (cleanupScreenshots env).
Proof. unfold cleanupScreenshots. total_walk. Qed.

Lemma total_extractTweetsFallback env n : total (extractTweetsFallback env n).
Proof. unfold extractTweetsFallback. total_walk. Qed.

#[local] Hint Resolve total_cleanupScreenshots total_extractTweetsFallback : agent.

Lemma total_on_search_error env n : total (on_search_error env n).
Proof. unfold on_search_error. total_walk. Qed.

(** Past [init], [searchTwitter] is the guarded body, which returns. *)
Lemma searchTwitter_after_init env q n st st1 u :
  init env st = (Ret u, st1) ->
  exists tweets st', searchTwitter env q n st = (Ret tweets, st').
Proof.
  intros Hinit. unfold searchTwitter, bind at 1.
  rewrite ensure_init_is_init, Hinit.
  apply total_try. intros e. apply total_on_search_error.
Qed.

Lemma searchTwitter_raise env q n st e st' :
  searchTwitter env q n st = (Raise e, st') -> init env st = (Raise e, st').
Proof.
  intros H. destruct (init env st) as [[u|e1] st1] eqn:Hinit.
  - destruct (searchTwitter_after_init env q n st st1 u Hinit) as (t & s & Heq).
    congruence.
  - unfold searchTwitter, bind at 1 in H.
    rewrite ensure_init_is_init, Hinit in H. now inversion H.
Qed.

(* ================================================================== *)
(** ** Screenshot bookkeeping *)

Lemma keeps_tracked_screenshot env : keeps tracked (tracked_screenshot env).
Proof.
  intros st Hst.
  unfold tracked_screenshot, browser_screenshot, bind, call, get, ret,
    set_files, set_screenshotPaths.
  destruct (screenshot_at env (calls st)) as [[b64 path]|]; simpl; [|exact Hst].
  destruct (Js.truthy path) eqn:Hp; simpl; rewrite ?Hp; simpl; [|exact Hst].
  intros f [<-|Hf]; simpl.
  - split; [assumption|]. apply in_or_app. right. now left.
  - destruct (Hst f Hf) as [Ht Hin]. split; [assumption|].
    apply in_or_app. now left.
Qed.

Lemma keeps_tracked_set_initialized b : keeps tracked (set_initialized b).
Proof. intros st Hst. exact Hst. Qed.

Lemma unlink_spec (p : string) (st : State) :
  exists r st', unlink p st = (r, st') /\
    screenshotPaths st' = screenshotPaths st /\
    initialized st' = initialized st /\
    forall f, In f (files st') -> In f (files st) /\ f <> p.
Proof.
  unfold unlink, bind, ask, get, set_files, raise. simpl.
  destruct (existsb (String.eqb p) (files st)) eqn:Hex; simpl.
  - eexists _, _. split; [reflexivity|]. simpl.
    split; [reflexivity|]. split; [reflexivity|].
    intros f Hf. apply filter_In in Hf as [Hin Hne]. split; [assumption|].
    intros ->. now rewrite String.eqb_refl in Hne.
  - eexists _, _. split; [reflexivity|]. simpl.
    split; [reflexivity|]. split; [reflexivity|].
    intros f Hf. split; [assumption|].
    intros ->. apply not_true_iff_false in Hex. apply Hex.
    apply existsb_exists. exists p. split; [assumption | apply String.eqb_refl].
Qed.

Lemma unlink_each_spec (ps : list string) :
  forall st, exists st', unlink_each ps st = (Ret tt, st') /\
    screenshotPaths st' = screenshotPaths st /\
    initialized st' = initialized st /\
    forall f, In f (files st') ->
      In f (files st) /\ (Js.truthy f = true -> ~ In f ps).
Proof.
  induction ps as [|p ps IH]; intros st; simpl.
  - exists st. repeat (split; [reflexivity|]). intros f Hf. split; [assumption|]. auto.
  - unfold bind. destruct (Js.truthy p) eqn:Hp.
    + destruct (unlink_spec p st) as (r & st1 & Hrun & Hpaths & Hinit & Hfiles).
      unfold try_catch. rewrite Hrun.
      assert (Hstep : (let (o, st') := (r, st1) in
                       match o with
                       | Ret a => (Ret a, st')
                       | Raise _ => ret tt st'
                       end) = (Ret tt, st1)) by (destruct r as [[]|]; reflexivity).
      simpl in Hstep. rewrite Hstep.
      destruct (IH st1) as (st2 & Hrun2 & Hpaths2 & Hinit2 & Hfiles2).
      exists st2. split; [assumption|].
      split; [congruence|]. split; [congruence|].
      intros f Hf. destruct (Hfiles2 f Hf) as [Hin1 Hnot1].
      destruct (Hfiles f Hin1) as [Hin0 Hne]. split; [assumption|].
      intros Ht [Heq|Hin]; [congruence | now apply Hnot1].
    + simpl. destruct (IH st) as (st2 & Hrun2 & Hpaths2 & Hinit2 & Hfiles2).
      exists st2. split; [assumption|].
      split; [congruence|]. split; [congruence|].
      intros f Hf. destruct (Hfiles2 f Hf) as [Hin1 Hnot1]. split; [assumption|].
      intros Ht [Heq|Hin]; [congruence | now apply Hnot1].
Qed.

(** [cleanupScreenshots] returns, with nothing tracked and no tracked
    file left. *)
Lemma cleanupScreenshots_spec env st :
  tracked st ->
  exists st', cleanupScreenshots env st = (Ret tt, st') /\
    clean st' /\ initialized st' = initialized st.
Proof.
  intros Htr. unfold cleanupScreenshots, bind at 1, get.
  unfold bind at 1.
  destruct (unlink_each_spec (screenshotPaths st) st) as (st1 & Hrun & Hp & Hi & Hf).
  rewrite Hrun.
  assert (Hnil : files st1 = []).
  { destruct (files st1) as [|f fs] eqn:Hfs; [reflexivity|]. exfalso.
    destruct (Hf f) as [Hin Hnot]; [now left|].
    destruct (Htr f Hin) as [Ht Hin']. now apply Hnot. }
  unfold bind, set_screenshotPaths, browser_cleanupScreenshots, bind, ask, get,
    set_files, ret. simpl.
  destruct (readdir_at env (calls st1)); simpl;
    eexists; (split; [reflexivity|]); unfold clean; simpl; rewrite Hnil; auto.
Qed.

Lemma cleanupScreenshots_cleans env :
  triple tracked (cleanupScreenshots env) (fun _ => clean) (fun _ => clean).
Proof.
  intros st Hst. destruct (cleanupScreenshots_spec env st Hst) as (st' & -> & Hc & _).
  exact Hc.
Qed.

Lemma keeps_tracked_cleanup env : keeps tracked (cleanupScreenshots env).
Proof.
  eapply triple_weaken; [apply cleanupScreenshots_cleans | auto | | ];
    intros; now apply clean_tracked.
Qed.

Lemma keeps_clean_random_delay : keeps clean random_delay.
Proof. unfold random_delay. auto with agent. Qed.

Lemma keeps_clean_fallback env n : keeps clean (extractTweetsFallback env n).
Proof.
  assert (HD : keeps clean (Date_now env)) by (unfold Date_now; auto with agent).
  assert (HI : keeps clean (iso_now env)) by (unfold iso_now; keeps_walk).
  assert (HF : forall i el, keeps clean (fallback_tweet env i el))
    by (intros; unfold fallback_tweet; keeps_walk).
  assert (HM : forall l i, keeps clean (map_indexed (fallback_tweet env) i l)).
  { induction l as [|x l IH]; intros i; simpl; keeps_walk. }
  unfold extractTweetsFallback, browser_snapshot. keeps_walk.
Qed.

(** Everything the agent does keeps the screenshot files tracked. *)
Lemma tracked_searchTwitter env q n : keeps tracked (searchTwitter env q n).
Proof.
  apply keeps_searchTwitter; auto using stable_tracked, keeps_tracked_screenshot,
    keeps_tracked_cleanup, keeps_tracked_set_initialized.
Qed.

Lemma tracked_init env : keeps tracked (init env).
Proof.
  apply keeps_init; auto using stable_tracked, keeps_tracked_screenshot,
    keeps_tracked_set_initialized.
Qed.

Lemma tracked_collect env q n : keeps tracked (collect env q n).
Proof.
  apply keeps_collect; auto using stable_tracked, keeps_tracked_screenshot.
Qed.

(** Helper: use an invariant where a triple is asked for. *)
Lemma triple_of_keeps {A} (J P : State -> Prop) (m : M A) Q E :
  keeps J m ->
  (forall st, P st -> J st) ->
  (forall a st, J st -> Q a st) ->
  (forall e st, J st -> E e st) ->
  triple P m Q E.
Proof. intros Hk HP HQ HE. eapply triple_weaken; eauto. Qed.

Lemma finalize_cleans env n ls :
  triple tracked (finalize env n ls) (fun _ => clean) (fun _ => tracked).
Proof.
  assert (Hshot := keeps_tracked_screenshot env).
  assert (Hclean := cleanupScreenshots_cleans env).
  assert (Hmap : forall l, keeps tracked (map_indexed (to_tweet env) 0 l)).
  { intros l. apply keeps_map_indexed. intros. apply keeps_to_tweet.
    apply stable_tracked. }
  assert (Hdelay : triple clean random_delay (fun _ : unit => clean) (fun _ => tracked)).
  { eapply triple_of_keeps; [apply keeps_clean_random_delay | auto ..].
    intros; now apply clean_tracked. }
  assert (Hcl : triple tracked (cleanupScreenshots env) (fun _ => clean) (fun _ => tracked)).
  { eapply triple_weaken; [apply Hclean | auto ..]. intros; now apply clean_tracked. }
  unfold finalize. cbv zeta.
  eapply triple_bind; [exact Hcl | intros ?].
  destruct (Js.slice0 n (allTweets (session ls))) as [|u us].
  - eapply triple_bind;
      [eapply triple_of_keeps with (J := tracked);
       [exact Hshot | apply clean_tracked | intros ? ? H; exact H | auto] | intros shot].
    eapply triple_bind;
      [apply keeps_extractTweets, stable_tracked | intros x].
    destruct (tweets_of x) as [[|c cs]|].
    + eapply triple_bind;
        [apply keeps_extractTweetsFallback, stable_tracked | intros fb].
      eapply triple_bind; [exact Hcl | intros ?].
      destruct fb; apply triple_ret; auto.
    + eapply triple_bind; [apply Hmap | intros tweets].
      eapply triple_bind; [exact Hcl | intros ?].
      eapply triple_bind; [exact Hdelay | intros ?].
      apply triple_ret; auto.
    + eapply triple_bind;
        [apply keeps_extractTweetsFallback, stable_tracked | intros fb].
      eapply triple_bind; [exact Hcl | intros ?].
      destruct fb; apply triple_ret; auto.
  - eapply triple_bind;
      [eapply triple_of_keeps with (J := tracked);
       [apply Hmap | apply clean_tracked | intros ? ? H; exact H | auto]
      | intros tweets].
    eapply triple_bind; [exact Hcl | intros ?].
    eapply triple_bind; [exact Hdelay | intros ?].
    apply triple_ret; auto.
Qed.

Lemma on_search_error_cleans env n :
  triple tracked (on_search_error env n) (fun _ => clean) (fun _ => clean).
Proof.
  unfold on_search_error.
  eapply triple_bind with (R := fun _ => clean).
  - eapply triple_try; [apply cleanupScreenshots_cleans | intros e].
    now apply triple_ret.
  - intros ?. apply keeps_try; [apply keeps_clean_fallback | intros e; apply keeps_ret].
Qed.

(** However [searchTwitter] ends, nothing is tracked and no tracked file
    is left. *)
Lemma searchTwitter_cleans env q n :
  triple agent_wf (searchTwitter env q n) (fun _ => clean) (fun _ => clean).
Proof.
  intros st [Htr Hfresh].
  unfold searchTwitter, bind at 1. rewrite ensure_init_is_init.
  pose proof (tracked_init env st Htr) as Hinit.
  destruct (init env st) as [[u|e] st1] eqn:Hrun.
  - assert (Hbody : triple tracked
              (try_catch (bind (collect env q n) (fun ls => finalize env n ls))
                         (fun _ => on_search_error env n))
              (fun _ => clean) (fun _ => clean)).
    { eapply triple_try with (R := fun _ => tracked).
      - eapply triple_bind; [apply tracked_collect | intros ls; apply finalize_cleans].
      - intros e. apply on_search_error_cleans. }
    exact (Hbody st1 Hinit).
  - destruct (init_raise env st st1 e Hrun) as (Hi & Hp & Hf & _).
    specialize (Hfresh Hi). split; [congruence|].
    destruct (files st1) as [|f fs] eqn:Hfs; [reflexivity|]. exfalso.
    destruct (Htr f) as [_ Hin]; [rewrite <- Hf; now left|].
    now rewrite Hfresh in Hin.
Qed.

Lemma agent_wf_fresh : agent_wf fresh_agent.
Proof. split; [intros f [] | reflexivity]. Qed.

Lemma agent_wf_clean st : clean st -> agent_wf st.
Proof. intros Hc. split; [now apply clean_tracked | intros _; apply Hc]. Qed.

(** [agent_wf] holds between calls: a fresh agent has it, and [init]
    (as called at server start-up) and [searchTwitter] keep it. *)
Lemma agent_wf_init env : keeps agent_wf (init env).
Proof.
  intros st [Htr Hfresh]. pose proof (tracked_init env st Htr) as Hinit.
  destruct (init env st) as [[u|e] st1] eqn:Hrun.
  - split; [assumption|]. rewrite (init_ret_initialized env st st1 u Hrun). discriminate.
  - destruct (init_raise env st st1 e Hrun) as (Hi & Hp & _).
    split; [assumption|]. intros _. rewrite Hp. auto.
Qed.

Lemma agent_wf_searchTwitter env q n : keeps agent_wf (searchTwitter env q n).
Proof.
  eapply triple_weaken; [apply searchTwitter_cleans | auto | | ];
    intros; now apply agent_wf_clean.
Qed.

Lemma agent_wf_checkBreakingNews env symbols : keeps agent_wf (checkBreakingNews env symbols).
Proof.
  unfold checkBreakingNews. destruct symbols as [|s0 rest]; [apply keeps_ret|].
  cbv zeta. apply keeps_bind; [apply agent_wf_searchTwitter | intros tweets].
  apply keeps_classify_each. intros ev st H. exact H.
Qed.

(* ================================================================== *)
(** ** The extraction loop *)

(** One round of the loop (lines 208-308): the step, the recovery, and
    the ordinary scroll unless the target is met. *)
Lemma extraction_loop_round env n fuel ls st :
  (count (session ls) <? n)%Z && (scrollAttempts ls <? maxScrollAttempts)%nat = true ->
  extraction_loop env n (S fuel) ls st =
    bind (extract_step env n ls)
         (fun ls1 =>
            bind (recover env ls1)
                 (fun ls2 =>
                    if (count (session ls2) <? n)%Z
                    then bind (browser_scroll env down 3000)
                              (fun _ => bind (delay 4000)
                                             (fun _ => extraction_loop env n fuel
                                                         (advance 3000 ls2)))
                    else ret ls2)) st.
Proof. intros H. simpl. now rewrite H. Qed.

(** Peel one [bind] off a run that is known to return. *)
Ltac step_bind H :=
  match type of H with
  | bind ?m ?k ?st = _ =>
      let a := fresh "a" in
      let e := fresh "e" in
      let st1 := fresh "st" in
      let E := fresh "Hrun" in
      unfold bind at 1 in H; cbv beta in H;
      destruct (m st) as [[a|e] st1] eqn:E; [|try discriminate]
  end.

Lemma extract_step_shape env n ls st :
  exists st',
    (exists x, extract_step env n ls st = (Ret (tally n x ls), st')) \/
    extract_step env n ls st = (Ret (screenshot_failed ls), st').
Proof.
  unfold extract_step, try_catch, bind, llm_extractTweetsFromScreenshot, ask, ret.
  destruct (tracked_screenshot env st) as [[shot|e] st1]; simpl; eexists.
  - left. eexists. reflexivity.
  - right. reflexivity.
Qed.

Lemma recover_shape env ls st r st' :
  recover env ls st = (r, st') ->
  forall ls', r = Ret ls' -> ls' = ls \/ ls' = reset_counters ls.
Proof.
  unfold recover. destruct (needs_recovery ls).
  - unfold bind, browser_scroll, call, delay, ask, ret.
    destruct (ok_or_fail (scroll_at env) (calls st)); intros H ls' ->;
      inversion H; auto.
  - intros H ls' ->. inversion H. auto.
Qed.

Lemma session_tally_cases n x ls :
  session (tally n x ls) = session ls \/
  exists cs, session (tally n x ls) = merge n cs (session ls).
Proof.
  unfold tally.
  destruct (tweets_of x) as [[|c cs]|]; [left; reflexivity | right | left; reflexivity].
  exists (c :: cs). cbv zeta.
  match goal with |- session (if ?b then _ else _) = _ => destruct b end; reflexivity.
Qed.

Lemma scrollAttempts_tally n x ls :
  scrollAttempts (tally n x ls) = scrollAttempts ls.
Proof.
  unfold tally.
  destruct (tweets_of x) as [[|c cs]|]; try reflexivity. cbv zeta.
  match goal with |- scrollAttempts (if ?b then _ else _) = _ => destruct b end;
    reflexivity.
Qed.

Lemma session_inv_tally n x ls :
  session_inv n (session ls) -> (count (session ls) < n)%Z ->
  session_inv n (session (tally n x ls)).
Proof.
  intros Hinv Hlt. destruct (session_tally_cases n x ls) as [->|[cs ->]];
    [assumption | now apply session_inv_merge].
Qed.

Lemma extract_step_inv env n ls st ls1 st1 :
  extract_step env n ls st = (Ret ls1, st1) ->
  session_inv n (session ls) -> (count (session ls) < n)%Z ->
  session_inv n (session ls1) /\ scrollAttempts ls1 = scrollAttempts ls.
Proof.
  intros H Hinv Hlt.
  destruct (extract_step_shape env n ls st) as (st' & [[x Hx]|Hx]);
    rewrite Hx in H; inversion H; subst.
  - split; [now apply session_inv_tally | apply scrollAttempts_tally].
  - split; [assumption | reflexivity].
Qed.

Lemma extraction_loop_inv env n fuel :
  forall ls st ls' st',
    extraction_loop env n fuel ls st = (Ret ls', st') ->
    session_inv n (session ls) -> session_inv n (session ls').
Proof.
  induction fuel as [|fuel IH]; intros ls st ls' st' H Hinv; simpl in H.
  - inversion H; subst. assumption.
  - destruct ((count (session ls) <? n)%Z && (scrollAttempts ls <? maxScrollAttempts)%nat)
      eqn:Hcond; [|inversion H; subst; assumption].
    apply andb_true_iff in Hcond as [Hlt _]. apply Z.ltb_lt in Hlt.
    step_bind H.
    destruct (extract_step_inv env n ls st a st0 Hrun Hinv Hlt) as [Hinv1 _].
    step_bind H.
    assert (Hinv2 : session_inv n (session a0)).
    { destruct (recover_shape env a st0 _ _ Hrun0 a0 eq_refl) as [->| ->]; assumption. }
    destruct (count (session a0) <? n)%Z; [|inversion H; subst; assumption].
    cbv zeta in H. step_bind H. step_bind H.
    eapply IH; [exact H | exact Hinv2].
Qed.

(** More fuel than the rounds left changes nothing: the loop test
    fails before the fuel does. *)
Lemma extraction_loop_fuel env n fuel :
  forall k ls st,
    (maxScrollAttempts <= scrollAttempts ls + fuel)%nat ->
    extraction_loop env n (fuel + k) ls st = extraction_loop env n fuel ls st.
Proof.
  induction fuel as [|fuel IH]; intros k ls st Hfuel.
  - simpl in Hfuel. destruct k as [|k]; simpl; [reflexivity|].
    assert (Hends : (scrollAttempts ls <? maxScrollAttempts)%nat = false)
      by (apply Nat.ltb_ge; lia).
    now rewrite Hends, andb_false_r.
  - simpl. destruct ((count (session ls) <? n)%Z &&
                     (scrollAttempts ls <? maxScrollAttempts)%nat); [|reflexivity].
    unfold bind.
    destruct (extract_step_shape env n ls st) as (st1 & Hshape).
    assert (Hsame : exists ls1, extract_step env n ls st = (Ret ls1, st1) /\
                                scrollAttempts ls1 = scrollAttempts ls).
    { destruct Hshape as [[x Hx]|Hx]; eexists; (split; [exact Hx|]);
        [apply scrollAttempts_tally | reflexivity]. }
    destruct Hsame as (ls1 & -> & Hsa1).
    destruct (recover env ls1 st1) as [[ls2|e] st2] eqn:Hrec; [|reflexivity].
    assert (Hsa2 : scrollAttempts ls2 = scrollAttempts ls).
    { destruct (recover_shape env ls1 st1 _ _ Hrec ls2 eq_refl) as [->| ->];
        simpl; assumption. }
    destruct (count (session ls2) <? n)%Z; [|reflexivity].
    destruct (browser_scroll env down 3000 st2) as [[u|e] st3]; [|reflexivity].
    destruct (delay 4000 st3) as [[u'|e] st4]; [|reflexivity].
    apply IH. simpl. lia.
Qed.

Lemma rescan_passes_inv env n retries :
  forall s st s' st',
    rescan_passes env n retries s st = (Ret s', st') ->
    session_inv n s -> session_inv n s'.
Proof.
  induction retries as [|r IH]; intros s st s' st' H Hinv; simpl in H.
  - inversion H; subst. assumption.
  - destruct (count s <? n)%Z eqn:Hlt; [|inversion H; subst; assumption].
    apply Z.ltb_lt in Hlt.
    step_bind H. step_bind H. cbv zeta in H. step_bind H.
    eapply IH; [exact H|].
    destruct (tweets_of a0); [now apply session_inv_merge | assumption].
Qed.

Lemma rescan_inv env n ls st ls' st' :
  rescan env n ls st = (Ret ls', st') ->
  session_inv n (session ls) -> session_inv n (session ls').
Proof.
  unfold rescan. intros H Hinv.
  destruct ((count (session ls) <? n)%Z && (scrollAttempts ls <? maxScrollAttempts)%nat);
    [|inversion H; subst; assumption].
  step_bind H. step_bind H. step_bind H. inversion H; subst. simpl.
  eapply rescan_passes_inv; eassumption.
Qed.

Lemma session_inv_empty n : (0 <= n)%Z -> session_inv n empty_session.
Proof. intros Hn. repeat split; simpl; [assumption | constructor]. Qed.

(** The accumulator that [collect] hands over satisfies the invariant. *)
Lemma collect_inv env q n st ls st' :
  (0 <= n)%Z ->
  collect env q n st = (Ret ls, st') -> session_inv n (session ls).
Proof.
  intros Hn H. unfold collect in H.
  step_bind H. step_bind H.
  eapply rescan_inv; [exact H|].
  eapply extraction_loop_inv; [exact Hrun0|].
  now apply session_inv_empty.
Qed.

(* ================================================================== *)
(** ** What [searchTwitter] returns *)

Lemma slice0_length {X} (n : Z) (l : list X) :
  (0 <= n)%Z -> (Z.of_nat (List.length (Js.slice0 n l)) <= n)%Z.
Proof.
  intros Hn. unfold Js.slice0.
  destruct (n <? 0)%Z eqn:Hneg; [apply Z.ltb_lt in Hneg; lia|].
  pose proof (firstn_le_length (Z.to_nat n) l). 
  assert (List.length (firstn (Z.to_nat n) l) <= Z.to_nat n)%nat
    by (rewrite length_firstn; lia).
  lia.
Qed.

Lemma slice0_all {X} (n : Z) (l : list X) :
  (Z.of_nat (List.length l) <= n)%Z -> Js.slice0 n l = l.
Proof.
  intros Hn. unfold Js.slice0.
  destruct (n <? 0)%Z eqn:Hneg; [apply Z.ltb_lt in Hneg; lia|].
  apply firstn_all2. lia.
Qed.

Lemma map_indexed_length {X Y} (f : nat -> X -> M Y) (l : list X) :
  forall i st bs st',
    map_indexed f i l st = (Ret bs, st') -> List.length bs = List.length l.
Proof.
  induction l as [|x l IH]; intros i st bs st' H; simpl in H.
  - inversion H. reflexivity.
  - step_bind H. step_bind H. inversion H; subst. simpl.
    f_equal. eapply IH. eassumption.
Qed.

Lemma to_tweet_run env i c st :
  exists t st', to_tweet env i c st = (Ret t, st') /\ text t = text_of c.
Proof.
  unfold to_tweet, bind, Date_now, iso_now, bind, ask, ret.
  destruct (c_created_at c) as [s|]; [destruct (Js.truthy s)|];
    simpl; eexists _, _; split; reflexivity.
Qed.

Lemma map_indexed_to_tweet_run env (l : list Candidate) :
  forall i st, exists tweets st',
    map_indexed (to_tweet env) i l st = (Ret tweets, st') /\
    map text tweets = map text_of l.
Proof.
  induction l as [|c l IH]; intros i st; simpl.
  - eexists _, _. split; reflexivity.
  - unfold bind at 1. destruct (to_tweet_run env i c st) as (t & st1 & -> & Ht).
    unfold bind at 1. destruct (IH (S i) st1) as (ts & st2 & -> & Hts).
    eexists _, _. split; [reflexivity|]. simpl. now rewrite Ht, Hts.
Qed.

Lemma extractTweetsFallback_length env n st r st' :
  (0 <= n)%Z ->
  extractTweetsFallback env n st = (Ret r, st') ->
  (Z.of_nat (List.length r) <= n)%Z.
Proof.
  intros Hn H. unfold extractTweetsFallback, try_catch in H.
  match type of H with
  | context [bind ?m ?k st] => destruct (bind m k st) as [[bs|e] st1] eqn:Hrun
  end.
  - inversion H; subst. step_bind Hrun. cbv zeta in Hrun.
    apply map_indexed_length in Hrun. rewrite Hrun, length_firstn. lia.
  - inversion H; subst. simpl. assumption.
Qed.

Lemma on_search_error_length env n st r st' :
  (0 <= n)%Z ->
  on_search_error env n st = (Ret r, st') ->
  (Z.of_nat (List.length r) <= n)%Z.
Proof.
  intros Hn H. unfold on_search_error in H. step_bind H.
  unfold try_catch in H.
  destruct (extractTweetsFallback env n st0) as [[bs|e0] st1] eqn:Hfb.
  - inversion H; subst. eapply extractTweetsFallback_length; eassumption.
  - inversion H; subst. simpl. assumption.
Qed.

Lemma finalize_length env n ls st tweets st' :
  (0 <= n)%Z ->
  finalize env n ls st = (Ret tweets, st') ->
  (Z.of_nat (List.length tweets) <= n)%Z.
Proof.
  intros Hn H. unfold finalize in H. cbv zeta in H. step_bind H.
  destruct (Js.slice0 n (allTweets (session ls))) as [|u us] eqn:Hs.
  - step_bind H. step_bind H.
    destruct (tweets_of a1) as [[|c cs]|].
    + step_bind H. step_bind H.
      apply extractTweetsFallback_length in Hrun2; [|assumption].
      destruct a2; inversion H; subst; simpl in *; lia.
    + step_bind H. step_bind H. step_bind H. inversion H; subst.
      apply map_indexed_length in Hrun2. rewrite Hrun2. now apply slice0_length.
    + step_bind H. step_bind H.
      apply extractTweetsFallback_length in Hrun2; [|assumption].
      destruct a2; inversion H; subst; simpl in *; lia.
  - step_bind H. step_bind H. step_bind H. inversion H; subst.
    apply map_indexed_length in Hrun0. rewrite Hrun0. now apply slice0_length.
Qed.

(** With at least one accumulated item, [finalize] returns exactly the
    accumulated items, converted. *)
Lemma finalize_nonempty env n ls st :
  allTweets (session ls) <> [] -> (count (session ls) <= n)%Z ->
  exists tweets st',
    finalize env n ls st = (Ret tweets, st') /\
    map text tweets = map text_of (allTweets (session ls)).
Proof.
  intros Hne Hcount. unfold finalize. cbv zeta.
  rewrite !slice0_all by (rewrite ?slice0_all; exact Hcount).
  unfold bind at 1.
  destruct (total_cleanupScreenshots env st) as ([] & st1 & ->).
  destruct (allTweets (session ls)) as [|u us] eqn:Hall; [congruence|].
  unfold bind at 1.
  destruct (map_indexed_to_tweet_run env (u :: us) 0 st1) as (tweets & st2 & -> & Htext).
  unfold bind at 1.
  destruct (total_cleanupScreenshots env st2) as ([] & st3 & ->).
  unfold bind, random_delay, ask, ret. eexists _, _. split; [reflexivity | exact Htext].
Qed.

Lemma searchTwitter_length env q n st tweets st' :
  (0 <= n)%Z ->
  searchTwitter env q n st = (Ret tweets, st') ->
  (Z.of_nat (List.length tweets) <= n)%Z.
Proof.
  intros Hn H. unfold searchTwitter in H. step_bind H.
  unfold try_catch in H.
  match type of H with
  | context [bind ?m ?k st0] => destruct (bind m k st0) as [[ts|e] st1] eqn:Hbody
  end.
  - inversion H; subst. step_bind Hbody. eapply finalize_length; eassumption.
  - eapply on_search_error_length; eassumption.
Qed.

Lemma searchTwitter_from_session env q n st st1 ls st2 u :
  (0 <= n)%Z ->
  init env st = (Ret u, st1) ->
  collect env q n st1 = (Ret ls, st2) ->
  allTweets (session ls) <> [] ->
  exists tweets st',
    searchTwitter env q n st = (Ret tweets, st') /\
    map text tweets = map text_of (allTweets (session ls)).
Proof.
  intros Hn Hinit Hcollect Hne.
  pose proof (collect_inv env q n st1 ls st2 Hn Hcollect) as (Hcount & _).
  destruct (finalize_nonempty env n ls st2 Hne Hcount) as (tweets & st' & Hfin & Htext).
  exists tweets, st'. split; [|exact Htext].
  unfold searchTwitter, bind at 1. rewrite ensure_init_is_init, Hinit.
  unfold try_catch, bind. now rewrite Hcollect, Hfin.
Qed.

Lemma dedupKey_text_of (l : list Candidate) :
  map dedupKeyOf (map text_of l) = map dedupKey l.
Proof. rewrite map_map. reflexivity. Qed.

Lemma new_events_app (st st' : State) (new : list Event) :
  trace st' = new ++ trace st -> new_events st st' = new.
Proof.
  intros H. unfold new_events. rewrite H, length_app.
  replace (List.length new + List.length (trace st) - List.length (trace st))
    with (List.length new + 0) by lia.
  rewrite firstn_app_2. simpl. apply app_nil_r.
Qed.

(* ================================================================== *)
(** ** Properties of the harvest *)

Lemma not_acceptable_blocked (s : Session) (c : Candidate) :
  acceptable (seen s) c = false -> blocked s (dedupKey c).
Proof.
  intros H. pose proof (blocked_after_accept s c) as Hb.
  unfold accept in Hb. now rewrite H in Hb.
Qed.

(** A candidate that comes after one with its key can be struck from
    the batch. *)
Lemma merge_drops_repeat (n : Z) (later : Candidate) (post : list Candidate) :
  forall pre s,
    (exists c, In c pre /\ dedupKey c = dedupKey later) ->
    merge n (pre ++ later :: post) s = merge n (pre ++ post) s.
Proof.
  induction pre as [|p pre IH]; intros s (c & Hin & Hkey); [destruct Hin|].
  simpl. destruct Hin as [->|Hin].
  - pose proof (blocked_after_accept s c) as Hb. rewrite Hkey in Hb.
    unfold accept in Hb. destruct (acceptable (seen s) c).
    + destruct (n <=? count (add_item c s))%Z; [reflexivity|].
      now apply merge_skips_blocked.
    + now apply merge_skips_blocked.
  - destruct (acceptable (seen s) p).
    + destruct (n <=? count (add_item p s))%Z; [reflexivity|]. apply IH. eauto.
    + apply IH. eauto.
Qed.






(** The key of an ASCII text does not see its letter case, nor a blank
    in front of a text of less than 150 characters. *)
Lemma lower_upper_char (c : ascii) :
  Js.lower_char (Js.upper_char c) = Js.lower_char c.
Proof. destruct c as [[] [] [] [] [] [] [] []]; reflexivity. Qed.

Lemma take_map_chars (f : ascii -> ascii) (n : nat) (s : string) :
  Js.take n (Js.map_chars f s) = Js.map_chars f (Js.take n s).
Proof.
  unfold Js.take. revert s.
  induction n as [|n IH]; intros [|c s]; simpl; try reflexivity.
  now rewrite IH.
Qed.

Lemma map_chars_compose (f g h : ascii -> ascii) (s : string) :
  (forall c, f (g c) = h c) ->
  Js.map_chars f (Js.map_chars g s) = Js.map_chars h s.
Proof. intros H. induction s as [|c s IH]; simpl; congruence. Qed.

Lemma dedupKeyOf_upper (t : string) : dedupKeyOf (Js.toUpperCase t) = dedupKeyOf t.
Proof.
  unfold dedupKeyOf, Js.toUpperCase, Js.toLowerCase.
  rewrite take_map_chars.
  now rewrite (map_chars_compose _ _ Js.lower_char _ lower_upper_char).
Qed.




(** C5.  Aggressive recovery, a scroll of 5000 pixels (the ordinary one
    is 3000) followed by a 4000 ms wait, happens in an iteration exactly
    when [stuckCount >= 3] or [consecutiveEmptyScreenshots >= 5] after
    the iteration's counters were updated; once the scroll and the wait
    are done both counters are zero and nothing else of the loop state
    has changed. *)
Theorem aggressive_recovery_iff (env : Env) (ls : LoopState) (st : State) :
  (needs_recovery ls = true <->
     (3 <= stuckCount ls)%nat \/ (5 <= consecutiveEmptyScreenshots ls)%nat) /\
  (In (EvScroll down 5000) (new_events st (snd (recover env ls st))) <->
     (3 <= stuckCount ls)%nat \/ (5 <= consecutiveEmptyScreenshots ls)%nat) /\
  (needs_recovery ls = false -> recover env ls st = (Ret ls, st)) /\
  (needs_recovery ls = true ->
     forall r st', recover env ls st = (r, st') ->
       (scroll_at env (calls st) = true ->
          r = Ret (reset_counters ls) /\
          trace st' = EvDelay 4000 :: EvScroll down 5000 :: trace st) /\
       (scroll_at env (calls st) = false ->
          r = Raise (CommandFailed "scroll") /\
          trace st' = EvScroll down 5000 :: trace st)) /\
  stuckCount (reset_counters ls) = 0 /\
  consecutiveEmptyScreenshots (reset_counters ls) = 0 /\
  session (reset_counters ls) = session ls /\
  scrollAttempts (reset_counters ls) = scrollAttempts ls.
Proof.
  assert (Hiff : needs_recovery ls = true <->
            (3 <= stuckCount ls)%nat \/ (5 <= consecutiveEmptyScreenshots ls)%nat).
  { unfold needs_recovery, maxConsecutiveEmpty.
    now rewrite orb_true_iff, !Nat.leb_le. }
  split; [exact Hiff|].
  split.
  - rewrite <- Hiff. unfold recover.
    destruct (needs_recovery ls).
    + unfold bind, browser_scroll, call, delay, ask, ret, ok_or_fail.
      destruct (scroll_at env (calls st)); cbn [snd].
      * rewrite (new_events_app st _ [EvDelay 4000; EvScroll down 5000]) by reflexivity.
        simpl. tauto.
      * rewrite (new_events_app st _ [EvScroll down 5000]) by reflexivity.
        simpl. tauto.
    + cbn [snd ret]. rewrite (new_events_app st st []) by reflexivity.
      simpl. split; [tauto | discriminate].
  - split; [intros H; unfold recover; now rewrite H|].
    split; [|repeat split].
    intros Hneed r st' Hrun. unfold recover in Hrun. rewrite Hneed in Hrun.
    unfold bind, browser_scroll, call, delay, ask, ret, ok_or_fail in Hrun.
    split; intros Hscroll; rewrite Hscroll in Hrun; simpl in Hrun;
      inversion Hrun; subst; simpl; auto.
Qed.

(** C4 (as the code has it).  An iteration of the extraction loop always
    yields a loop state.  [consecutiveEmptyScreenshots] goes up by one
    exactly when the iteration accepted no new item, whatever the
    reason (the oracle saw nothing or failed, every candidate was a
    duplicate or too short, or the screenshot failed), and [stuckCount]
    goes up with it, the item count being what the previous iteration
    left; both are zero after an iteration that accepted at least one
    new item. *)
Theorem counters_after_iteration (env : Env) (n : Z) (ls : LoopState) (st : State) :
  exists ls' st',
    extract_step env n ls st = (Ret ls', st') /\
    let newTweets := (count (session ls') - count (session ls))%Z in
    (0 <= newTweets)%Z /\
    ((0 < newTweets)%Z ->
       consecutiveEmptyScreenshots ls' = 0 /\ stuckCount ls' = 0) /\
    (newTweets = 0%Z ->
       consecutiveEmptyScreenshots ls' = S (consecutiveEmptyScreenshots ls) /\
       (lastTweetCount ls = count (session ls) -> stuckCount ls' = S (stuckCount ls))) /\
    (lastTweetCount ls = count (session ls) ->
       lastTweetCount ls' = count (session ls')).
Proof.
  destruct (extract_step_shape env n ls st) as (st' & [[x Hx]|Hx]).
  - exists (tally n x ls), st'. split; [exact Hx|]. cbv zeta.
    unfold tally. destruct (tweets_of x) as [[|c cs]|].
    + simpl. rewrite Z.sub_diag. repeat split; try lia.
      intros ->. now rewrite Z.eqb_refl.
    + cbv zeta.
      pose proof (count_merge_mono n (c :: cs) (session ls)) as Hmono.
      destruct (0 <? count (merge n (c :: cs) (session ls)) - count (session ls))%Z
        eqn:Hnew; cbn [session consecutiveEmptyScreenshots stuckCount lastTweetCount].
      * apply Z.ltb_lt in Hnew. repeat split; try lia.
      * apply Z.ltb_ge in Hnew. repeat split; try lia.
        intros Hlast.
        assert (Heq : count (merge n (c :: cs) (session ls)) = lastTweetCount ls) by lia.
        now rewrite Heq, Z.eqb_refl.
    + simpl. rewrite Z.sub_diag. repeat split; try lia.
      intros ->. now rewrite Z.eqb_refl.
  - exists (screenshot_failed ls), st'. split; [exact Hx|]. simpl.
    rewrite Z.sub_diag. repeat split; try lia; auto.
Qed.

(* ================================================================== *)
(** ** The breaking-news classifier *)

Section Trace.

Variable env : Env.
Variable ev : Event.

Lemma logged_stable : stable (logged ev).
Proof. apply stable_in_trace. Qed.

Lemma logged_set_initialized b : keeps (logged ev) (set_initialized b).
Proof. intros st H. exact H. Qed.

Lemma logged_set_files l : keeps (logged ev) (set_files l).
Proof. intros st H. exact H. Qed.

Lemma logged_set_screenshotPaths l : keeps (logged ev) (set_screenshotPaths l).
Proof. intros st H. exact H. Qed.

Hint Resolve logged_stable logged_set_initialized logged_set_files
  logged_set_screenshotPaths : agent.

Lemma logged_tracked_screenshot : keeps (logged ev) (tracked_screenshot env).
Proof. unfold tracked_screenshot, browser_screenshot. keeps_walk. Qed.

Lemma logged_unlink_each paths : keeps (logged ev) (unlink_each paths).
Proof. induction paths as [|p ps IH]; simpl; unfold unlink; keeps_walk. Qed.

Hint Resolve logged_unlink_each : agent.

Lemma logged_cleanupScreenshots : keeps (logged ev) (cleanupScreenshots env).
Proof. unfold cleanupScreenshots, browser_cleanupScreenshots. keeps_walk. Qed.

(** Once in the log, an event stays there through the rest of a search
    and the classification after it. *)
Lemma logged_rest_of_search n :
  keeps (logged ev)
    (bind (bind (settle env n)
                (fun _ => bind (extraction_loop env n maxScrollAttempts loop_start)
                               (fun ls => rescan env n ls)))
          (fun ls => finalize env n ls)).
Proof.
  pose proof logged_stable. pose proof logged_tracked_screenshot.
  pose proof logged_cleanupScreenshots.
  apply keeps_bind; [apply keeps_bind; [|intros ?; apply keeps_bind; [|intros ?]] | intros ?].
  - now apply keeps_settle.
  - now apply keeps_extraction_loop.
  - now apply keeps_rescan.
  - now apply keeps_finalize.
Qed.

Lemma logged_on_search_error n : keeps (logged ev) (on_search_error env n).
Proof.
  apply keeps_on_search_error; auto using logged_stable, logged_cleanupScreenshots.
Qed.

Lemma logged_classify_each toCheck tweets results :
  keeps (logged ev) (classify_each env toCheck tweets results).
Proof. apply keeps_classify_each, logged_stable. Qed.

End Trace.

(** A search that returns has opened the search page of its query. *)
Lemma searchTwitter_opens env q n st tweets st' :
  searchTwitter env q n st = (Ret tweets, st') ->
  In (EvOpen (searchUrl env q)) (trace st').
Proof.
  intros H. unfold searchTwitter in H. step_bind H.
  set (ev := EvOpen (searchUrl env q)).
  assert (Hbody : triple (fun _ => True)
            (try_catch (bind (collect env q n) (fun ls => finalize env n ls))
                       (fun _ => on_search_error env n))
            (fun _ st => In ev (trace st)) (fun _ st => In ev (trace st))).
  { eapply triple_try with (R := fun _ st => In ev (trace st)).
    - unfold collect, prepare.
      intros s _. unfold bind at 1 2 3.
      unfold browser_open at 1, call.
      destruct (ok_or_fail (open_at env) (calls s)) as [[]|].
      + pose proof (logged_rest_of_search env ev n (record ev s)) as Hrest.
        unfold bind at 1 2 in Hrest. apply Hrest. simpl. now left.
      + simpl. now left.
    - intros e. apply logged_on_search_error. }
  specialize (Hbody st0 I). rewrite H in Hbody. exact Hbody.
Qed.

Lemma find_mentions_some (tweet_text : string) (toCheck : list string) (s : string) :
  find (mentions tweet_text) toCheck = Some s ->
  In s toCheck /\ mentions tweet_text s = true.
Proof. apply find_some. Qed.

(** What an emitted item says about the tweet it comes from. *)
Lemma classify_some env toCheck now tweet item :
  classify env toCheck now tweet = Some item ->
  In (symbol item) toCheck /\
  mentions (text tweet) (symbol item) = true /\
  isNewsAccount (author tweet) = true /\
  headline item = Js.take 200 (text tweet) /\
  gt_ms (tweetAge env now tweet) MAX_NEWS_AGE_MS = false /\
  is_breaking item = lt_ms (tweetAge env now tweet) BREAKING_THRESHOLD_MS.
Proof.
  unfold classify. cbv zeta.
  destruct (gt_ms (tweetAge env now tweet) MAX_NEWS_AGE_MS); [discriminate|].
  destruct (find (mentions (text tweet)) toCheck) as [s|] eqn:Hfind; [|discriminate].
  destruct (Js.truthy s); [|discriminate].
  destruct (isNewsAccount (author tweet)); [|discriminate].
  intros H. inversion H; subst; simpl.
  apply find_mentions_some in Hfind as [Hin Hm]. auto 6.
Qed.

Lemma classify_each_spec env toCheck tweets :
  forall results st news st',
    classify_each env toCheck tweets results st = (Ret news, st') ->
    (List.length news <= List.length results + List.length tweets)%nat /\
    forall item, In item news ->
      In item results \/
      exists now tweet, In tweet tweets /\ classify env toCheck now tweet = Some item.
Proof.
  induction tweets as [|t ts IH]; intros results st news st' H; simpl in H.
  - inversion H; subst. split; [lia | auto].
  - step_bind H.
    destruct (classify env toCheck a t) as [item0|] eqn:Hc.
    + apply IH in H as [Hlen Hitems]. rewrite length_app in Hlen. simpl in *.
      split; [lia|]. intros item Hin.
      destruct (Hitems item Hin) as [Hold|(now & tw & Htw & Hcl)].
      * apply in_app_or in Hold as [Hold|[<-|[]]]; [now left|].
        right. exists a, t. auto.
      * right. exists now, tw. auto.
    + apply IH in H as [Hlen Hitems]. simpl. split; [lia|].
      intros item Hin.
      destruct (Hitems item Hin) as [Hold|(now & tw & Htw & Hcl)]; [now left|].
      right. exists now, tw. auto.
Qed.

(** The news of a check: at most as many as the tweets searched, each
    classified from one of them. *)
Lemma checkBreakingNews_spec env symbols st news st' :
  checkBreakingNews env symbols st = (Ret news, st') ->
  (List.length news <= 5)%nat /\
  forall item, In item news ->
    exists now tweet, classify env (firstn 3 symbols) now tweet = Some item.
Proof.
  unfold checkBreakingNews. destruct symbols as [|s0 rest].
  - intros H. inversion H; subst. split; [simpl; lia | intros item []].
  - intros H. cbv zeta in H. step_bind H.
    apply searchTwitter_length in Hrun; [|lia].
    apply classify_each_spec in H as [Hlen Hitems]. simpl in Hlen.
    split; [lia|]. intros item Hin.
    destruct (Hitems item Hin) as [[]|(now & tw & _ & Hcl)].
    now exists now, tw.
Qed.

(** C7 (as the code has it).  The cut-offs are 30 and 10 minutes, and
    they are applied to the age [Date.now() - new Date(created_at)].
    When the tweet's timestamp can be read as a date, so that the age
    is a number: a tweet older than 30 minutes is dropped whatever it
    mentions and whoever wrote it, so one aged 35 or 40 minutes never
    comes out; a tweet no older than that, whose first matching symbol
    among those checked is a non-empty string and whose author is on
    the allow-list, comes out with that symbol, its text cut to at most
    200 characters, its age in rounded minutes, and [is_breaking] true
    exactly when it is younger than 10 minutes: true at 4 minutes.
    When the timestamp cannot be read the age is NaN, which is not
    greater than the cut-off: with such a match and author the tweet
    comes out however old it is, with no age and [is_breaking] false.
    Nothing comes out without a non-empty first matching symbol and an
    allow-listed author. *)
Theorem classify_time_window
        (env : Env) (toCheck : list string) (now : Z) (tweet : Tweet) :
  MAX_NEWS_AGE_MS = minutes 30 /\
  BREAKING_THRESHOLD_MS = minutes 10 /\
  (forall age,
     tweetAge env now tweet = Some age ->
     ((minutes 30 < age)%Z -> classify env toCheck now tweet = None) /\
     (age = minutes 35 \/ age = minutes 40 -> classify env toCheck now tweet = None) /\
     (forall s,
        (age <= minutes 30)%Z ->
        find (mentions (text tweet)) toCheck = Some s -> s <> "" ->
        isNewsAccount (author tweet) = true ->
        classify env toCheck now tweet =
          Some (mkNews s (Js.take 200 (text tweet)) (author tweet)
                       (Some (round_minutes age)) (age <? minutes 10)%Z) /\
        (String.length (Js.take 200 (text tweet)) <= 200)%nat /\
        (age = minutes 4 -> (age <? minutes 10)%Z = true))) /\
  (tweetAge env now tweet = None ->
   forall s,
     find (mentions (text tweet)) toCheck = Some s -> s <> "" ->
     isNewsAccount (author tweet) = true ->
     classify env toCheck now tweet =
       Some (mkNews s (Js.take 200 (text tweet)) (author tweet) None false)) /\
  (find (mentions (text tweet)) toCheck = None \/
   find (mentions (text tweet)) toCheck = Some "" \/
   isNewsAccount (author tweet) = false ->
   classify env toCheck now tweet = None).
Proof.
  split; [reflexivity|]. split; [reflexivity|]. split; [|split].
  - intros age Hage.
    assert (Hold : (minutes 30 < age)%Z -> classify env toCheck now tweet = None).
    { intros Hlt. unfold classify. cbv zeta. rewrite Hage. simpl.
      apply Z.ltb_lt in Hlt. unfold MAX_NEWS_AGE_MS.
      change (minutes 30) with 1800000%Z in Hlt. now rewrite Hlt. }
    split; [exact Hold|]. split.
    + intros [->| ->]; apply Hold; reflexivity.
    + intros s Hyoung Hfind Hs Hnews. split; [|split].
      * unfold classify. cbv zeta. rewrite Hage, Hfind, Hnews. simpl.
        assert (Hle : (MAX_NEWS_AGE_MS <? age)%Z = false)
          by (apply Z.ltb_ge; exact Hyoung).
        rewrite Hle. destruct s as [|c s]; [congruence|]. reflexivity.
      * apply take_length.
      * intros ->. reflexivity.
  - intros Hage s Hfind Hs Hnews.
    unfold classify. cbv zeta. rewrite Hage, Hfind, Hnews. simpl.
    destruct s as [|c s]; [congruence|]. reflexivity.
  - intros Hno. unfold classify. cbv zeta.
    destruct (gt_ms (tweetAge env now tweet) MAX_NEWS_AGE_MS); [reflexivity|].
    destruct Hno as [->|[->| ->]]; [reflexivity | reflexivity |].
    destruct (find (mentions (text tweet)) toCheck) as [s|]; [|reflexivity].
    destruct (Js.truthy s); reflexivity.
Qed.

(** C10.  A symbol with a lowercase letter matches no tweet: the text is
    upper-cased before the test, the symbol is not, so neither the
    [$SYMBOL] nor the space-delimited test can succeed; hence no news
    item of [checkBreakingNews] carries such a symbol. *)
Theorem lowercase_symbol_never_emitted (env : Env) (symbols : list string) (s : string) :
  has_lowercase s = true ->
  (forall tweet_text,
     Js.includes (Js.toUpperCase tweet_text) ("$" ++ s)%string = false /\
     Js.includes (Js.toUpperCase tweet_text) (" " ++ s ++ " ")%string = false) /\
  (forall toCheck now tweet item,
     classify env toCheck now tweet = Some item -> symbol item <> s) /\
  (forall st news st',
     checkBreakingNews env symbols st = (Ret news, st') ->
     forall item, In item news -> symbol item <> s).
Proof.
  intros Hlow.
  assert (Hclass : forall toCheck now tweet item,
             classify env toCheck now tweet = Some item -> symbol item <> s).
  { intros toCheck now tweet item Hc Heq.
    apply classify_some in Hc as (_ & Hm & _). rewrite Heq in Hm.
    now rewrite (mentions_lowercase (text tweet) s Hlow) in Hm. }
  split; [|split; [exact Hclass|]].
  - intros tweet_text. apply orb_false_iff.
    exact (mentions_lowercase tweet_text s Hlow).
  - intros st news st' Hrun item Hin.
    destruct (checkBreakingNews_spec env symbols st news st' Hrun) as [_ Hitems].
    destruct (Hitems item Hin) as (now & tweet & Hc).
    now apply (Hclass _ _ _ _ Hc).
Qed.

(** C9.  [checkBreakingNews] looks at the first three symbols only.  For
    a non-empty list it runs one [searchTwitter] for 5 tweets, with the
    query made of their cashtags joined by [OR], the three allow-listed
    accounts and [-is:retweet], and classifies what comes back; the
    search page of that query is opened.  So at most 5 news items come
    back, each with one of the first three symbols. *)
Theorem checkBreakingNews_capped (env : Env) (symbols : list string) (st : State) :
  let toCheck := firstn 3 symbols in
  (List.length toCheck <= 3)%nat /\
  newsQuery toCheck =
    ("(" ++ String.concat " OR " (map (String "$") toCheck) ++
     ") (from:FirstSquawk OR from:DeItaone OR from:Newsquawk) -is:retweet")%string /\
  (symbols <> [] ->
     checkBreakingNews env symbols st =
       bind (searchTwitter env (newsQuery toCheck) 5)
            (fun tweets => classify_each env toCheck tweets []) st) /\
  (symbols = [] -> checkBreakingNews env symbols st = (Ret [], st)) /\
  (forall news st',
     checkBreakingNews env symbols st = (Ret news, st') ->
     (List.length news <= 5)%nat /\
     (forall item, In item news -> In (symbol item) toCheck) /\
     (symbols <> [] -> In (EvOpen (searchUrl env (newsQuery toCheck))) (trace st'))).
Proof.
  cbv zeta. split; [apply firstn_le_length|]. split; [reflexivity|].
  split; [destruct symbols; [congruence | reflexivity]|].
  split; [intros ->; reflexivity|].
  intros news st' Hrun.
  destruct (checkBreakingNews_spec env symbols st news st' Hrun) as [Hlen Hitems].
  split; [exact Hlen|]. split.
  - intros item Hin. destruct (Hitems item Hin) as (now & tweet & Hc).
    now apply classify_some in Hc.
  - intros Hne. unfold checkBreakingNews in Hrun.
    destruct symbols as [|s0 rest]; [congruence|].
    cbv zeta in Hrun. step_bind Hrun.
    apply searchTwitter_opens in Hrun0.
    pose proof (logged_classify_each env _ (firstn 3 (s0 :: rest)) a [] st0 Hrun0) as Hk.
    rewrite Hrun in Hk. exact Hk.
Qed.

(** C3 (what the route does with [maxResults = 0]).  A search request
    with a proper query and [maxResults: 0] is never answered with the
    400 rejection: the route calls [searchTwitter] with 0.  On a ready
    agent with a working browser the search page is opened, the oracle
    is asked for 0 tweets, and the answer is a success with no tweet. *)
Theorem search_route_accepts_zero :
  (forall env c q st,
     search_route env (mkBody (Some (JStr (String c q))) (Some (JNum 0))) st =
       try_catch (bind (searchTwitter env (String c q) 0)
                       (fun tweets => ret (Json200 tweets (List.length tweets))))
                 (fun e => ret (Json500 e)) st) /\
  (forall env c q st, exists resp st',
     search_route env (mkBody (Some (JStr (String c q))) (Some (JNum 0))) st =
       (Ret resp, st') /\
     forall msg, resp <> Json400 msg) /\
  (exists st',
     search_route env_blind (mkBody (Some (JStr "AAPL")) (Some (JNum 0))) ready_agent =
       (Ret (Json200 [] 0), st') /\
     In (EvOpen "https://twitter.com/search?q=AAPL") (trace st') /\
     In (EvExtractTweets 0) (trace st')).
Proof.
  split; [reflexivity|]. split.
  - intros env c q st. cbn [search_route body_query body_maxResults js_truthy
      Z.eqb negb andb to_number].
    unfold try_catch, bind.
    destruct (searchTwitter env (String c q) 0 st) as [[tweets|e] st1].
    + eexists _, _. split; [reflexivity | discriminate].
    + eexists _, _. split; [reflexivity | discriminate].
  - eexists. split; [vm_compute; reflexivity|].
    split; vm_compute; tauto.
Qed.

(** C1 (as the code has it).  For a target between 1 and 50: the merge
    loop, on one candidate as on a batch, run while the accumulator is
    below the target keeps the session invariant (never more items
    than the target; [seen] is exactly the list of the items' keys,
    without repetition), and the accumulator that the collection phase
    hands over satisfies it.  A
    call that returns gives at most [maxResults] tweets.  When the
    collection phase (lines 113-340) ended without a throw and with at
    least one accumulated item, the result is those items, with
    pairwise distinct dedup keys.  When a browser command of the
    collection phase threw, whatever was accumulated is given up and
    the result is that of the outer [catch] (lines 415-427), the
    snapshot fallback, which deduplicates nothing. *)
Theorem harvest_bounded_and_deduplicated
        (env : Env) (query : string) (maxResults : Z) (st : State) :
  (1 <= maxResults <= 50)%Z ->
  (forall c s,
     session_inv maxResults s -> (count s < maxResults)%Z ->
     session_inv maxResults (merge maxResults [c] s)) /\
  (forall batch s,
     session_inv maxResults s -> (count s < maxResults)%Z ->
     session_inv maxResults (merge maxResults batch s)) /\
  (forall rounds ls st1 ls' st2,
     session_inv maxResults (session ls) ->
     extraction_loop env maxResults rounds ls st1 = (Ret ls', st2) ->
     session_inv maxResults (session ls')) /\
  (forall st1 ls st2,
     collect env query maxResults st1 = (Ret ls, st2) ->
     session_inv maxResults (session ls)) /\
  (forall tweets st',
     searchTwitter env query maxResults st = (Ret tweets, st') ->
     (Z.of_nat (List.length tweets) <= maxResults)%Z /\
     (forall st1 ls st2,
        init env st = (Ret tt, st1) ->
        collect env query maxResults st1 = (Ret ls, st2) ->
        allTweets (session ls) <> [] ->
        map text tweets = map text_of (allTweets (session ls)) /\
        NoDup (result_keys tweets))) /\
  (forall st1 e st2,
     init env st = (Ret tt, st1) ->
     collect env query maxResults st1 = (Raise e, st2) ->
     searchTwitter env query maxResults st = on_search_error env maxResults st2).
Proof.
  intros [Hlo Hhi].
  split; [intros c s; apply session_inv_merge|].
  split; [intros batch s; apply session_inv_merge|].
  split; [intros rounds ls st1 ls' st2 Hinv Hloop;
          exact (extraction_loop_inv env maxResults rounds ls st1 ls' st2 Hloop Hinv)|].
  split; [intros st1 ls st2; apply collect_inv; lia|].
  split; [|intros st1 e st2 Hinit Hcollect;
           unfold searchTwitter, bind at 1; rewrite ensure_init_is_init, Hinit;
           unfold try_catch, bind; now rewrite Hcollect].
  intros tweets st' Hrun.
  split; [apply (searchTwitter_length env query maxResults st tweets st'); [lia | exact Hrun]|].
  intros st1 ls st2 Hinit Hcollect Hne.
  destruct (searchTwitter_from_session env query maxResults st st1 ls st2 tt
              ltac:(lia) Hinit Hcollect Hne) as (tweets' & st'' & Hrun' & Htext).
  rewrite Hrun in Hrun'. inversion Hrun'; subst tweets' st''.
  split; [exact Htext|].
  unfold result_keys. rewrite Htext, dedupKey_text_of.
  destruct (collect_inv env query maxResults st1 ls st2 ltac:(lia) Hcollect)
    as (_ & Hseen & Hnodup).
  now rewrite <- Hseen.
Qed.

(** C2 (as the code has it).  [searchTwitter] throws only out of [init]:
    when [init] returns, the call returns a list of tweets (so it does
    whenever the agent is initialised already); and an error that
    leaves the call is the one [init] threw on a not yet initialised
    agent: the failed connectivity check, a failed opening of the home
    page, or the failed screenshot of the authentication check. *)
Theorem searchTwitter_raises_only_from_init
        (env : Env) (query : string) (maxResults : Z) (st : State) :
  (initialized st = true ->
     exists tweets st', searchTwitter env query maxResults st = (Ret tweets, st')) /\
  (forall u st1, init env st = (Ret u, st1) ->
     exists tweets st', searchTwitter env query maxResults st = (Ret tweets, st')) /\
  (forall e st', searchTwitter env query maxResults st = (Raise e, st') ->
     initialized st = false /\
     init env st = (Raise e, st') /\
     (e = ChromeNotRunning /\ isConnected_at env (calls st) = false \/
      e = CommandFailed "open" \/
      e = ScreenshotFailed)).
Proof.
  split; [|split].
  - intros Hi. apply (searchTwitter_after_init env query maxResults st st tt).
    now apply init_when_initialized.
  - intros u st1. apply searchTwitter_after_init.
  - intros e st' Hrun. apply searchTwitter_raise in Hrun.
    destruct (init_raise env st st' e Hrun) as (Hi & _ & _ & He). auto.
Qed.

(** C8.  On an agent whose screenshot files are all tracked (as they are
    between calls), however [searchTwitter] ends, by returning from
    any of its branches or by throwing, no path is tracked any more
    and no screenshot file is left on disk. *)
Theorem screenshots_cleaned_on_every_exit
        (env : Env) (query : string) (maxResults : Z) (st : State)
        (r : Outcome (list Tweet)) (st' : State) :
  agent_wf st ->
  searchTwitter env query maxResults st = (r, st') ->
  screenshotPaths st' = [] /\ files st' = [].
Proof.
  intros Hwf Hrun. pose proof (searchTwitter_cleans env query maxResults st Hwf) as H.
  rewrite Hrun in H. destruct r; exact H.
Qed.

(* ================================================================== *)
(** ** Concrete runs *)

(** C1, on a run: three posts in view, the third a duplicate of the
    first; two tweets come back, with distinct keys. *)
Lemma harvest_bounded_and_deduplicated_witness :
  (1 <= 5 <= 50)%Z /\
  exists tweets st',
    searchTwitter env_three_posts "AAPL" 5 fresh_agent = (Ret tweets, st') /\
    (Z.of_nat (List.length tweets) <= 5)%Z /\
    NoDup (result_keys tweets).
Proof.
  split; [lia|].
  assert (Hrun : exists tweets st',
             searchTwitter env_three_posts "AAPL" 5 fresh_agent = (Ret tweets, st'))
    by (vm_compute; repeat eexists).
  destruct Hrun as (tweets & st' & Hrun). exists tweets, st'.
  split; [exact Hrun|].
  destruct (harvest_bounded_and_deduplicated env_three_posts "AAPL" 5 fresh_agent
              ltac:(lia)) as (_ & _ & _ & _ & Hres & _).
  destruct (Hres tweets st' Hrun) as [Hlen Hkeys].
  split; [exact Hlen|].
  eapply Hkeys; [vm_compute; reflexivity | vm_compute; reflexivity | vm_compute; discriminate].
Defined.

(** C1 as stated fails, in two ways.  With only too-short posts in
    view the loop accumulates nothing, and the final extraction returns
    the oracle's two candidates as they are, both with the key ["hi"].
    And when the loop has taken in two posts and its scroll command
    then fails, the outer [catch] answers with the snapshot fallback:
    the same article twice. *)
Lemma harvest_fallback_returns_duplicates :
  (exists tweets st',
     (1 <= 2 <= 50)%Z /\
     searchTwitter env_short_twice "news" 2 fresh_agent = (Ret tweets, st') /\
     result_keys tweets = ["hi"; "hi"] /\
     ~ NoDup (result_keys tweets)) /\
  (exists st1 st2 tweets st',
     (1 <= 3 <= 50)%Z /\
     init env_scroll_breaks fresh_agent = (Ret tt, st1) /\
     collect env_scroll_breaks "news" 3 st1 = (Raise (CommandFailed "scroll"), st2) /\
     In (EvExtractTweets 9) (trace st2) /\
     searchTwitter env_scroll_breaks "news" 3 fresh_agent = (Ret tweets, st') /\
     result_keys tweets = ["same article text twice"; "same article text twice"] /\
     ~ NoDup (result_keys tweets)).
Proof.
  split.
  - eexists _, _. split; [lia|]. split; [vm_compute; reflexivity|].
    split; [vm_compute; reflexivity|].
    vm_compute. intros H. inversion H as [|k l Hnotin _]. apply Hnotin. now left.
  - eexists _, _, _, _. split; [lia|]. split; [vm_compute; reflexivity|].
    split; [vm_compute; reflexivity|]. split; [vm_compute; tauto|].
    split; [vm_compute; reflexivity|]. split; [vm_compute; reflexivity|].
    vm_compute. intros H. inversion H as [|k l Hnotin _]. apply Hnotin. now left.
Qed.

(** C2, on a run: with no screenshot possible at all, an initialised
    agent still returns (an empty list). *)
Lemma searchTwitter_raises_only_from_init_witness :
  initialized ready_agent = true /\
  exists tweets st',
    searchTwitter env_no_screenshot "news" 5 ready_agent = (Ret tweets, st').
Proof.
  split; [reflexivity|].
  apply (searchTwitter_raises_only_from_init env_no_screenshot "news" 5 ready_agent).
  reflexivity.
Defined.

(** C2 as stated fails: Chrome answers the connectivity check, the
    screenshot of [init] fails, and the call throws. *)
Lemma searchTwitter_raises_past_connectivity_check :
  exists st',
    isConnected_at env_no_screenshot (calls fresh_agent) = true /\
    searchTwitter env_no_screenshot "news" 5 fresh_agent = (Raise ScreenshotFailed, st').
Proof. eexists. split; [reflexivity | vm_compute; reflexivity]. Qed.

(** C4, on a run: the post in view is new, both counters end at zero. *)
Lemma counters_after_iteration_witness :
  exists ls' st',
    extract_step env_three_posts 5 loop_start ready_agent = (Ret ls', st') /\
    count (session ls') = 2%Z /\
    consecutiveEmptyScreenshots ls' = 0 /\ stuckCount ls' = 0.
Proof.
  destruct (counters_after_iteration env_three_posts 5 loop_start ready_agent)
    as (ls' & st' & Hrun & Hnew).
  exists ls', st'. split; [exact Hrun|].
  assert (Hcount : count (session ls') = 2%Z).
  { vm_compute in Hrun. inversion Hrun. reflexivity. }
  split; [exact Hcount|].
  cbv zeta in Hnew. destruct Hnew as (_ & Hreset & _).
  apply Hreset. rewrite Hcount. reflexivity.
Defined.

(** C4 as stated fails: the oracle returns one candidate, a duplicate of
    the post already held, and [consecutiveEmptyScreenshots] goes up. *)
Lemma duplicates_count_as_empty :
  exists ls' st',
    (forall k, tweets_of (extractTweets_at
                            (steady_env (oracle_sees
                               [sample "$AAPL halted pending news, more to follow"])) k)
               = Some [sample "$AAPL halted pending news, more to follow"]) /\
    extract_step (steady_env (oracle_sees
                    [sample "$AAPL halted pending news, more to follow"]))
                 5 one_post_in ready_agent = (Ret ls', st') /\
    allTweets (session ls') = allTweets (session one_post_in) /\
    consecutiveEmptyScreenshots ls' = S (consecutiveEmptyScreenshots one_post_in).
Proof.
  eexists _, _. split; [intros k; reflexivity|].
  split; [vm_compute; reflexivity|]. split; reflexivity.
Qed.



(** C7, on a tweet: four minutes old, [$AAPL], by FirstSquawk. *)
Lemma classify_time_window_witness :
  tweetAge env_blind (minutes 4) aapl_post = Some (minutes 4) /\
  classify env_blind ["TSLA"; "AAPL"] (minutes 4) aapl_post =
    Some (mkNews "AAPL" "$AAPL halted pending news" "FirstSquawk" (Some 4%Z) true) /\
  classify env_blind ["TSLA"; "AAPL"] (minutes 35) aapl_post = None.
Proof.
  split; [reflexivity|].
  destruct (classify_time_window env_blind ["TSLA"; "AAPL"] (minutes 4) aapl_post)
    as (_ & _ & Hknown4 & _).
  destruct (classify_time_window env_blind ["TSLA"; "AAPL"] (minutes 35) aapl_post)
    as (_ & _ & Hknown35 & _).
  destruct (Hknown4 (minutes 4) eq_refl) as (_ & _ & Hyoung).
  destruct (Hknown35 (minutes 35) eq_refl) as (_ & Hold & _).
  split; [|apply Hold; now left].
  destruct (Hyoung "AAPL") as (Hc & _ & _);
    [vm_compute; discriminate | reflexivity | discriminate | reflexivity | exact Hc].
Defined.

(** C7 as stated fails, in two ways.  A tweet that mentions the
    requested [AAPL], by an allow-listed author and four minutes old,
    is not emitted when the first symbol that matches is the empty
    string.  And a tweet whose timestamp the oracle read as displayed,
    [40m], has no age that could exceed 30 minutes: it is emitted,
    whatever the clock says. *)
Lemma empty_symbol_hides_the_match :
  (In "AAPL" [""; "AAPL"] /\
   mentions (text aapl_post) "AAPL" = true /\
   isNewsAccount (author aapl_post) = true /\
   tweetAge env_blind (minutes 4) aapl_post = Some (minutes 4) /\
   classify env_blind [""; "AAPL"] (minutes 4) aapl_post = None /\
   exists st st',
     checkBreakingNews env_three_posts ["AAPL"] fresh_agent =
       (Ret [mkNews "AAPL" "$AAPL halted pending news, more to follow" "FirstSquawk"
                    (Some 0%Z) true], st) /\
     checkBreakingNews env_three_posts [""; "AAPL"] fresh_agent = (Ret [], st')) /\
  (created_at stale_post = "40m" /\
   (forall now,
      classify env_relative_dates ["AAPL"] now stale_post =
        Some (mkNews "AAPL" "$AAPL halted pending news, more to follow" "FirstSquawk"
                     None false)) /\
   exists st',
     checkBreakingNews env_relative_dates ["AAPL"] fresh_agent =
       (Ret [mkNews "AAPL" "$AAPL halted pending news, more to follow" "FirstSquawk"
                    None false], st')).
Proof.
  split.
  - split; [simpl; auto|]. repeat (split; [reflexivity|]).
    eexists _, _. split; vm_compute; reflexivity.
  - split; [reflexivity|]. split; [intros now; reflexivity|].
    eexists. vm_compute. reflexivity.
Qed.

(** C8, on a run: screenshots were taken and unlinked. *)
Lemma screenshots_cleaned_on_every_exit_witness :
  agent_wf fresh_agent /\
  screenshotPaths (snd (searchTwitter env_three_posts "AAPL" 5 fresh_agent)) = [] /\
  files (snd (searchTwitter env_three_posts "AAPL" 5 fresh_agent)) = [].
Proof.
  split; [apply agent_wf_fresh|].
  eapply screenshots_cleaned_on_every_exit;
    [apply agent_wf_fresh | apply surjective_pairing].
Defined.

(** C9, on a run: four symbols asked, three searched. *)
Lemma checkBreakingNews_capped_witness :
  newsQuery (firstn 3 ["AAPL"; "TSLA"; "NVDA"; "MSFT"]) =
    "($AAPL OR $TSLA OR $NVDA) (from:FirstSquawk OR from:DeItaone OR from:Newsquawk) -is:retweet" /\
  exists news st',
    checkBreakingNews env_three_posts ["AAPL"; "TSLA"; "NVDA"; "MSFT"] fresh_agent =
      (Ret news, st') /\
    (List.length news <= 5)%nat /\
    map symbol news = ["AAPL"; "TSLA"].
Proof.
  split; [reflexivity|].
  assert (Hrun : exists news st',
             checkBreakingNews env_three_posts ["AAPL"; "TSLA"; "NVDA"; "MSFT"] fresh_agent =
               (Ret news, st') /\ map symbol news = ["AAPL"; "TSLA"])
    by (vm_compute; repeat eexists).
  destruct Hrun as (news & st' & Hrun & Hsym). exists news, st'.
  split; [exact Hrun|]. split; [|exact Hsym].
  destruct (checkBreakingNews_capped env_three_posts ["AAPL"; "TSLA"; "NVDA"; "MSFT"]
              fresh_agent) as (_ & _ & _ & _ & Hres).
  now destruct (Hres news st' Hrun).
Defined.

(** C10, on a run: [aapl] in lowercase finds nothing, [TSLA] does. *)
Lemma lowercase_symbol_never_emitted_witness :
  has_lowercase "aapl" = true /\
  exists news st',
    checkBreakingNews env_three_posts ["aapl"; "TSLA"] fresh_agent = (Ret news, st') /\
    map symbol news = ["TSLA"] /\
    forall item, In item news -> symbol item <> "aapl".
Proof.
  split; [reflexivity|].
  assert (Hrun : exists news st',
             checkBreakingNews env_three_posts ["aapl"; "TSLA"] fresh_agent =
               (Ret news, st') /\ map symbol news = ["TSLA"])
    by (vm_compute; repeat eexists).
  destruct Hrun as (news & st' & Hrun & Hsym). exists news, st'.
  split; [exact Hrun|]. split; [exact Hsym|].
  destruct (lowercase_symbol_never_emitted env_three_posts ["aapl"; "TSLA"] "aapl"
              eq_refl) as (_ & _ & Hnever).
  exact (Hnever fresh_agent news st' Hrun).
Defined.

(* ================================================================== *)
(** ** Further properties: the stall counters *)

Lemma in_step_tally n x ls : in_step ls -> in_step (tally n x ls).
Proof.
  intros [Hs Hl]. unfold tally.
  destruct (tweets_of x) as [[|c cs]|].
  - split; simpl; [|assumption]. rewrite Hl, Z.eqb_refl. now rewrite Hs.
  - cbv zeta.
    pose proof (count_merge_mono n (c :: cs) (session ls)) as Hmono.
    destruct (0 <? count (merge n (c :: cs) (session ls)) - count (session ls))%Z
      eqn:Hnew; split; cbn [session consecutiveEmptyScreenshots stuckCount lastTweetCount];
      try reflexivity.
    apply Z.ltb_ge in Hnew.
    assert (Heq : count (merge n (c :: cs) (session ls)) = lastTweetCount ls) by lia.
    rewrite Heq, Z.eqb_refl. now rewrite Hs.
  - split; simpl; [|assumption]. rewrite Hl, Z.eqb_refl. now rewrite Hs.
Qed.

Lemma stuck_tally n x ls : (stuckCount (tally n x ls) <= S (stuckCount ls))%nat.
Proof.
  unfold tally. destruct (tweets_of x) as [[|c cs]|]; cbv zeta;
    repeat match goal with
           | |- context [if ?b then _ else _] => destruct b
           end; simpl; lia.
Qed.

Lemma extract_step_in_step env n ls st ls1 st1 :
  extract_step env n ls st = (Ret ls1, st1) ->
  in_step ls -> in_step ls1 /\ (stuckCount ls1 <= S (stuckCount ls))%nat.
Proof.
  intros H Hin.
  destruct (extract_step_shape env n ls st) as (st' & [[x Hx]|Hx]);
    rewrite Hx in H; inversion H; subst.
  - split; [now apply in_step_tally | apply stuck_tally].
  - destruct Hin as [Hs Hl]. split; [split; simpl; congruence | simpl; lia].
Qed.

Lemma recover_in_step env ls st ls2 st2 :
  recover env ls st = (Ret ls2, st2) ->
  in_step ls -> in_step ls2 /\ (stuckCount ls2 <= 2)%nat.
Proof.
  intros H [Hs Hl]. unfold recover in H.
  destruct (needs_recovery ls) eqn:Hneed.
  - step_bind H. step_bind H. inversion H; subst.
    split; [split; simpl; auto | simpl; lia].
  - inversion H; subst. split; [now split|].
    unfold needs_recovery in Hneed. apply orb_false_iff in Hneed as [Hstuck _].
    apply Nat.leb_gt in Hstuck. lia.
Qed.

Lemma extraction_loop_in_step env n fuel :
  forall ls st ls' st',
    extraction_loop env n fuel ls st = (Ret ls', st') ->
    in_step ls -> (stuckCount ls <= 2)%nat ->
    in_step ls' /\ (stuckCount ls' <= 2)%nat.
Proof.
  induction fuel as [|fuel IH]; intros ls st ls' st' H Hin Hle; simpl in H.
  - inversion H; subst. now split.
  - destruct ((count (session ls) <? n)%Z && (scrollAttempts ls <? maxScrollAttempts)%nat);
      [|inversion H; subst; now split].
    step_bind H. destruct (extract_step_in_step env n ls st a st0 Hrun Hin) as [Hin1 _].
    step_bind H. destruct (recover_in_step env a st0 a0 st1 Hrun0 Hin1) as [Hin2 Hle2].
    destruct (count (session a0) <? n)%Z; [|inversion H; subst; now split].
    cbv zeta in H. step_bind H. step_bind H.
    eapply IH; [exact H | exact Hin2 | exact Hle2].
Qed.

(** X1.  In the extraction loop the two stall counters move together:
    [stuckCount] equals [consecutiveEmptyScreenshots] at the head of
    every round and at every recovery decision, where it is at most 3.
    So aggressive recovery fires exactly when [stuckCount] has reached
    3, the third round in a row without a new tweet, and the second
    threshold ([consecutiveEmptyScreenshots >= 5]) never decides. *)
Theorem stall_counters_in_step (env : Env) (n : Z) (ls : LoopState) (st : State) :
  in_step ls -> (stuckCount ls <= 2)%nat ->
  (forall ls1 st1,
     extract_step env n ls st = (Ret ls1, st1) ->
     stuckCount ls1 = consecutiveEmptyScreenshots ls1 /\
     (stuckCount ls1 <= 3)%nat /\
     (needs_recovery ls1 = true <-> stuckCount ls1 = 3) /\
     (forall ls2 st2, recover env ls1 st1 = (Ret ls2, st2) ->
        in_step ls2 /\ (stuckCount ls2 <= 2)%nat)) /\
  (forall fuel ls' st',
     extraction_loop env n fuel ls st = (Ret ls', st') ->
     in_step ls' /\ (stuckCount ls' <= 2)%nat).
Proof.
  intros Hin Hle. split.
  - intros ls1 st1 Hrun.
    destruct (extract_step_in_step env n ls st ls1 st1 Hrun Hin) as [[Hs Hl] Hle1].
    split; [exact Hs|]. split; [lia|]. split.
    + unfold needs_recovery, maxConsecutiveEmpty.
      rewrite orb_true_iff, !Nat.leb_le, <- Hs. lia.
    + intros ls2 st2 Hrec. apply (recover_in_step env ls1 st1 ls2 st2 Hrec).
      now split.
  - intros fuel ls' st' Hrun.
    exact (extraction_loop_in_step env n fuel ls st ls' st' Hrun Hin Hle).
Qed.

(** X1, on the first round of a blind oracle. *)
Lemma stall_counters_in_step_witness :
  in_step loop_start /\ (stuckCount loop_start <= 2)%nat /\
  exists ls' st',
    extraction_loop env_blind 5 maxScrollAttempts loop_start ready_agent = (Ret ls', st') /\
    stuckCount ls' = consecutiveEmptyScreenshots ls' /\ (stuckCount ls' <= 2)%nat.
Proof.
  assert (Hin : in_step loop_start) by (split; reflexivity).
  assert (Hle : (stuckCount loop_start <= 2)%nat) by (simpl; lia).
  split; [exact Hin|]. split; [exact Hle|].
  assert (Hrun : exists ls' st',
             extraction_loop env_blind 5 maxScrollAttempts loop_start ready_agent =
               (Ret ls', st')) by (vm_compute; repeat eexists).
  destruct Hrun as (ls' & st' & Hrun). exists ls', st'. split; [exact Hrun|].
  destruct (stall_counters_in_step env_blind 5 loop_start ready_agent Hin Hle)
    as [_ Hloop].
  destruct (Hloop _ _ _ Hrun) as [[Hs _] Hle']. now split.
Defined.

(* ================================================================== *)
(** ** Further properties: the end of the extraction loop *)

Lemma scrollAttempts_extract_step env n ls st ls1 st1 :
  extract_step env n ls st = (Ret ls1, st1) ->
  scrollAttempts ls1 = scrollAttempts ls.
Proof.
  intros H.
  destruct (extract_step_shape env n ls st) as (st' & [[x Hx]|Hx]);
    rewrite Hx in H; inversion H; subst; [apply scrollAttempts_tally | reflexivity].
Qed.

Lemma scrollAttempts_recover env ls st ls2 st2 :
  recover env ls st = (Ret ls2, st2) -> scrollAttempts ls2 = scrollAttempts ls.
Proof.
  intros H.
  destruct (recover_shape env ls st _ _ H ls2 eq_refl) as [->| ->]; reflexivity.
Qed.

(** When the loop stops, the target is met or the rounds are used up. *)
Lemma extraction_loop_exit env n fuel :
  forall ls st ls' st',
    extraction_loop env n fuel ls st = (Ret ls', st') ->
    scrollAttempts ls + fuel = maxScrollAttempts ->
    ((n <= count (session ls'))%Z \/ scrollAttempts ls' = maxScrollAttempts) /\
    (scrollAttempts ls' <= maxScrollAttempts)%nat.
Proof.
  induction fuel as [|fuel IH]; intros ls st ls' st' H Hsum; simpl in H.
  - inversion H; subst. split; [right|]; lia.
  - destruct (count (session ls) <? n)%Z eqn:Hlt; simpl in H.
    + destruct (scrollAttempts ls <? maxScrollAttempts)%nat eqn:Hsa;
        [|apply Nat.ltb_ge in Hsa; lia].
      step_bind H. apply scrollAttempts_extract_step in Hrun.
      step_bind H. apply scrollAttempts_recover in Hrun0.
      destruct (count (session a0) <? n)%Z eqn:Hlt2.
      * cbv zeta in H. step_bind H. step_bind H.
        eapply IH; [exact H|]. simpl. lia.
      * inversion H; subst. apply Z.ltb_ge in Hlt2. split; [now left | lia].
    + inversion H; subst. apply Z.ltb_ge in Hlt. split; [now left | lia].
Qed.

Lemma rescan_skipped env n ls st :
  (n <= count (session ls))%Z \/ scrollAttempts ls = maxScrollAttempts ->
  rescan env n ls st = (Ret ls, st).
Proof.
  intros H. unfold rescan.
  assert (Hcond : (count (session ls) <? n)%Z &&
                  (scrollAttempts ls <? maxScrollAttempts)%nat = false).
  { apply andb_false_iff. destruct H as [H|H].
    - left. now apply Z.ltb_ge.
    - right. apply Nat.ltb_ge. lia. }
  now rewrite Hcond.
Qed.

(** X2.  The re-scan block after the extraction loop (lines 311-340)
    never runs: the loop of a search ends only when the target is met
    or the 50 scroll attempts are used up, and in both cases the guard
    of the re-scan is false, so it hands the loop's state on without a
    single collaborator call. *)
Theorem rescan_never_runs (env : Env) (n : Z) (st : State) (ls' : LoopState) (st' : State) :
  extraction_loop env n maxScrollAttempts loop_start st = (Ret ls', st') ->
  ((n <= count (session ls'))%Z \/ scrollAttempts ls' = maxScrollAttempts) /\
  (scrollAttempts ls' <= maxScrollAttempts)%nat /\
  rescan env n ls' st' = (Ret ls', st').
Proof.
  intros H.
  destruct (extraction_loop_exit env n maxScrollAttempts loop_start st ls' st' H eq_refl)
    as [Hexit Hle].
  split; [exact Hexit|]. split; [exact Hle|]. now apply rescan_skipped.
Qed.

(** X2, on a run that never finds a tweet: all 50 attempts are used. *)
Lemma rescan_never_runs_witness :
  exists ls' st',
    extraction_loop env_blind 5 maxScrollAttempts loop_start ready_agent = (Ret ls', st') /\
    scrollAttempts ls' = 50 /\
    rescan env_blind 5 ls' st' = (Ret ls', st').
Proof.
  assert (Hrun : exists ls' st',
             extraction_loop env_blind 5 maxScrollAttempts loop_start ready_agent =
               (Ret ls', st') /\ scrollAttempts ls' = 50)
    by (vm_compute; repeat eexists).
  destruct Hrun as (ls' & st' & Hrun & Hsa). exists ls', st'.
  split; [exact Hrun|]. split; [exact Hsa|].
  now destruct (rescan_never_runs env_blind 5 ready_agent ls' st' Hrun) as (_ & _ & Hre).
Defined.

(* ================================================================== *)
(** ** Further properties: the cost of a search *)

Section Cost.

Context {A B : Type}.
Variable w : Work.

Lemma adds_ret (k : nat) (a : A) : adds w k (ret a).
Proof. intros st. simpl. lia. Qed.

Lemma adds_raise (k : nat) (e : Error) : adds w k (@raise A e).
Proof. intros st. simpl. lia. Qed.

Lemma adds_weaken (k k' : nat) (m : M A) :
  adds w k m -> (k <= k')%nat -> adds w k' m.
Proof. intros H Hle st. specialize (H st). lia. Qed.

Lemma adds_bind (k1 k : nat) (m : M A) (f : A -> M B) :
  adds w k1 m -> (k1 <= k)%nat -> (forall a, adds w (k - k1) (f a)) ->
  adds w k (bind m f).
Proof.
  intros Hm Hle Hf st. unfold bind. specialize (Hm st).
  destruct (m st) as [[a|e] st1]; simpl in *; [|lia].
  specialize (Hf a st1). lia.
Qed.

Lemma adds_try (k1 k : nat) (m : M A) (h : Error -> M A) :
  adds w k1 m -> (k1 <= k)%nat -> (forall e, adds w (k - k1) (h e)) ->
  adds w k (try_catch m h).
Proof.
  intros Hm Hle Hh st. unfold try_catch. specialize (Hm st).
  destruct (m st) as [[a|e] st1]; simpl in *; [lia|].
  specialize (Hh e st1). lia.
Qed.

Lemma adds_ask (ev : Event) (f : nat -> A) :
  adds w (Nat.b2n (is_work w ev)) (ask ev f).
Proof.
  intros st. unfold ask, work_done. simpl.
  destruct (is_work w ev); simpl; lia.
Qed.

Lemma adds_call (ev : Event) (f : nat -> option A) (e : Error) :
  adds w (Nat.b2n (is_work w ev)) (call ev f e).
Proof.
  intros st. unfold call, work_done.
  destruct (f (calls st)); simpl; destruct (is_work w ev); simpl; lia.
Qed.

End Cost.

Lemma adds_get w : adds w 0 get.
Proof. intros st. simpl. lia. Qed.

Lemma adds_set_files w l : adds w 0 (set_files l).
Proof. intros st. unfold work_done. simpl. lia. Qed.

Lemma adds_set_screenshotPaths w l : adds w 0 (set_screenshotPaths l).
Proof. intros st. unfold work_done. simpl. lia. Qed.

Lemma adds_set_initialized w b : adds w 0 (set_initialized b).
Proof. intros st. unfold work_done. simpl. lia. Qed.

Lemma adds_repeatM w (m : M unit) (n : nat) : adds w 0 m -> adds w 0 (repeatM n m).
Proof.
  intros Hm. induction n as [|n IH]; simpl; [apply adds_ret|].
  eapply adds_bind; [exact Hm | lia | intros _; exact IH].
Qed.

Create HintDb cost.

#[local] Hint Resolve adds_get adds_set_files adds_set_screenshotPaths
  adds_set_initialized adds_ask adds_call : cost.

(** Check a bound along a computation: the first step of every [bind]
    is looked up in the hint database. *)
Ltac cost_walk :=
  repeat first
    [ apply adds_ret
    | apply adds_raise
    | progress cbv zeta
    | solve [eapply adds_weaken; [solve [eauto with cost] | simpl; lia]]
    | eapply adds_bind; [solve [eauto with cost] | simpl; lia | intro]
    | eapply adds_try; [solve [eauto with cost] | simpl; lia | intro]
    | match goal with
      | |- adds _ ?k (try_catch _ _) =>
          eapply adds_try with (k1 := k);
          [solve [cost_walk] | lia | intro; rewrite Nat.sub_diag]
      | |- adds _ _ (bind (match ?b with _ => _ end) _) =>
          eapply adds_bind with (k1 := 0);
          [destruct b; solve [cost_walk] | simpl; lia | intro]
      | |- adds _ _ (if ?b then _ else _) => destruct b
      | |- adds _ _ (match ?x with _ => _ end) => destruct x
      end ].

Ltac cost_of_calls :=
  intros; match goal with w : Work |- _ => destruct w end; simpl;
  first [ apply adds_ask | apply adds_call ].

Section CostOfSteps.

Variable env : Env.

Lemma cost_delay w ms : adds w 0 (delay ms).
Proof. unfold delay. cost_of_calls. Qed.

Lemma cost_random_delay w : adds w 0 random_delay.
Proof. unfold random_delay. cost_of_calls. Qed.

Lemma cost_Date_now w : adds w 0 (Date_now env).
Proof. unfold Date_now. cost_of_calls. Qed.

Lemma cost_isConnected w : adds w 0 (browser_isConnected env).
Proof. unfold browser_isConnected. cost_of_calls. Qed.

Lemma cost_listTabs w : adds w 0 (browser_listTabs env).
Proof. unfold browser_listTabs. cost_of_calls. Qed.

Lemma cost_switchTab w tabId : adds w 0 (browser_switchTab env tabId).
Proof. unfold browser_switchTab. cost_of_calls. Qed.

Lemma cost_getCurrentUrl w : adds w 0 (browser_getCurrentUrl env).
Proof. unfold browser_getCurrentUrl. cost_of_calls. Qed.

Lemma cost_open w url : adds w 0 (browser_open env url).
Proof. unfold browser_open. cost_of_calls. Qed.

Lemma cost_setViewportHeight w h : adds w 0 (browser_setViewportHeight h).
Proof. unfold browser_setViewportHeight. cost_of_calls. Qed.

Lemma cost_scroll w d px : adds w 0 (browser_scroll env d px).
Proof. unfold browser_scroll. cost_of_calls. Qed.

Lemma cost_snapshot w : adds w 0 (browser_snapshot env).
Proof. unfold browser_snapshot. cost_of_calls. Qed.

Lemma cost_checkAuthentication w : adds w 0 (llm_checkAuthentication env).
Proof. unfold llm_checkAuthentication. cost_of_calls. Qed.

Lemma cost_unlink_event w path : adds w 0 (ask (EvUnlink path) (fun _ => tt)).
Proof. cost_of_calls. Qed.

Lemma cost_readdir w : adds w 0 (ask EvBrowserCleanup (readdir_at env)).
Proof. cost_of_calls. Qed.

Lemma cost_verifySearchResults w :
  adds w (verify_cost w) (llm_verifySearchResults env).
Proof. unfold llm_verifySearchResults. destruct w; simpl; apply adds_ask. Qed.

Lemma cost_extractTweets w n :
  adds w (extract_cost w) (llm_extractTweetsFromScreenshot env n).
Proof. unfold llm_extractTweetsFromScreenshot. destruct w; simpl; apply adds_ask. Qed.

Lemma cost_screenshot_call w :
  adds w (screenshot_cost w) (call EvScreenshot (screenshot_at env) ScreenshotFailed).
Proof. destruct w; simpl; apply adds_call. Qed.

Hint Resolve cost_delay cost_random_delay cost_Date_now cost_isConnected
  cost_listTabs cost_switchTab cost_getCurrentUrl cost_open
  cost_setViewportHeight cost_scroll cost_snapshot cost_checkAuthentication
  cost_unlink_event cost_readdir cost_verifySearchResults cost_extractTweets
  cost_screenshot_call : cost.

Lemma cost_browser_screenshot w :
  adds w (screenshot_cost w) (browser_screenshot env).
Proof. unfold browser_screenshot. cost_walk. Qed.

Hint Resolve cost_browser_screenshot : cost.

Lemma cost_tracked_screenshot w :
  adds w (screenshot_cost w) (tracked_screenshot env).
Proof. unfold tracked_screenshot. cost_walk. Qed.

Lemma cost_unlink w path : adds w 0 (unlink path).
Proof. unfold unlink. cost_walk. Qed.

Hint Resolve cost_tracked_screenshot cost_unlink : cost.

Lemma cost_unlink_each w paths : adds w 0 (unlink_each paths).
Proof.
  induction paths as [|p ps IH]; simpl; [apply adds_ret|].
  eapply adds_bind with (k1 := 0); [|lia|intros _; exact IH].
  destruct (Js.truthy p); cost_walk.
Qed.

Hint Resolve cost_unlink_each : cost.

Lemma cost_cleanupScreenshots w : adds w 0 (cleanupScreenshots env).
Proof. unfold cleanupScreenshots, browser_cleanupScreenshots. cost_walk. Qed.

Hint Resolve cost_cleanupScreenshots : cost.

Lemma cost_init w : adds w (screenshot_cost w) (init env).
Proof.
  unfold init.
  eapply adds_bind with (k1 := 0); [apply adds_get | lia | intros st0].
  destruct (initialized st0); [apply adds_ret|].
  eapply adds_bind with (k1 := 0); [apply cost_isConnected | lia | intros connected].
  destruct (negb connected); [apply adds_raise|].
  eapply adds_bind with (k1 := 0); [|lia|intros _].
  - cost_walk.
  - rewrite Nat.sub_0_r. destruct w; simpl; cost_walk.
Qed.

Lemma cost_verify_loop w remaining :
  adds w (remaining * verify_cost w + pred remaining * screenshot_cost w)
       (verify_loop env remaining).
Proof.
  induction remaining as [|r IH]; simpl; [apply adds_ret|].
  eapply adds_bind; [apply cost_verifySearchResults | lia | intros verify].
  destruct (loaded verify); [apply adds_ret|].
  eapply adds_bind with (k1 := if (0 <? r)%nat then screenshot_cost w else 0).
  - destruct (0 <? r)%nat; [|apply adds_ret].
    destruct w; simpl; cost_walk.
  - destruct r; simpl; destruct w; simpl; lia.
  - intros _. eapply adds_weaken; [exact IH|].
    destruct r; simpl; destruct w; simpl; lia.
Qed.

Lemma cost_scroll_delay w d px ms :
  adds w 0 (bind (browser_scroll env d px) (fun _ => delay ms)).
Proof. cost_walk. Qed.

Lemma cost_repeat_scroll w k d px ms :
  adds w 0 (repeatM k (bind (browser_scroll env d px) (fun _ => delay ms))).
Proof. apply adds_repeatM, cost_scroll_delay. Qed.

Hint Resolve cost_scroll_delay cost_repeat_scroll : cost.

Hint Resolve cost_init cost_verify_loop : cost.

Lemma cost_settle w n : adds w (settle_cost w) (settle env n).
Proof.
  unfold settle, settle_cost. destruct w; cost_walk.
Qed.

Hint Resolve cost_settle : cost.

Lemma cost_prepare w q n : adds w (settle_cost w) (prepare env q n).
Proof. unfold prepare. cost_walk. Qed.

Lemma cost_extract_step w n ls : adds w (round_cost w) (extract_step env n ls).
Proof. unfold extract_step, round_cost. cost_walk. Qed.

Lemma cost_recover w ls : adds w 0 (recover env ls).
Proof. unfold recover. cost_walk. Qed.

Hint Resolve cost_prepare cost_extract_step cost_recover : cost.

Lemma cost_extraction_loop w n fuel :
  forall ls, adds w (fuel * round_cost w) (extraction_loop env n fuel ls).
Proof.
  induction fuel as [|fuel IH]; intros ls; [apply adds_ret|].
  cbn [extraction_loop Nat.mul].
  destruct ((count (session ls) <? n)%Z && (scrollAttempts ls <? maxScrollAttempts)%nat);
    [|apply adds_ret].
  eapply adds_bind; [apply cost_extract_step | lia | intros ls1].
  eapply adds_bind with (k1 := 0); [apply cost_recover | lia | intros ls2].
  destruct (count (session ls2) <? n)%Z; [|apply adds_ret].
  cbv zeta.
  eapply adds_bind with (k1 := 0); [apply cost_scroll | lia | intros ?].
  eapply adds_bind with (k1 := 0); [apply cost_delay | lia | intros ?].
  eapply adds_weaken; [apply IH | lia].
Qed.

(** The loop of a search, with the re-scan that never runs. *)
Lemma cost_loop_and_rescan w n :
  adds w (maxScrollAttempts * round_cost w)
       (bind (extraction_loop env n maxScrollAttempts loop_start)
             (fun ls => rescan env n ls)).
Proof.
  intros st. pose proof (cost_extraction_loop w n maxScrollAttempts loop_start st) as Hloop.
  unfold bind.
  destruct (extraction_loop env n maxScrollAttempts loop_start st) as [[ls'|e] st'] eqn:Hrun;
    [|exact Hloop].
  destruct (extraction_loop_exit env n maxScrollAttempts loop_start st ls' st' Hrun eq_refl)
    as [Hexit _].
  rewrite (rescan_skipped env n ls' st' Hexit). exact Hloop.
Qed.

Hint Resolve cost_loop_and_rescan : cost.

Lemma cost_collect w q n :
  adds w (settle_cost w + maxScrollAttempts * round_cost w) (collect env q n).
Proof. unfold collect. cost_walk. Qed.

Lemma cost_iso_now w : adds w 0 (iso_now env).
Proof. unfold iso_now. cost_walk. Qed.

Hint Resolve cost_collect cost_iso_now : cost.

Lemma cost_to_tweet w i c : adds w 0 (to_tweet env i c).
Proof. unfold to_tweet. cost_walk. Qed.

Lemma cost_fallback_tweet w i el : adds w 0 (fallback_tweet env i el).
Proof. unfold fallback_tweet. cost_walk. Qed.

Lemma cost_map_indexed {X Y} w (f : nat -> X -> M Y) (l : list X) :
  (forall i x, adds w 0 (f i x)) -> forall i, adds w 0 (map_indexed f i l).
Proof.
  intros Hf. induction l as [|x l IH]; intros i; simpl; [apply adds_ret|].
  eapply adds_bind with (k1 := 0); [apply Hf | lia | intros b].
  eapply adds_bind with (k1 := 0); [apply IH | lia | intros bs]. apply adds_ret.
Qed.

Lemma cost_map_to_tweet w i l : adds w 0 (map_indexed (to_tweet env) i l).
Proof. apply cost_map_indexed. intros. apply cost_to_tweet. Qed.

Lemma cost_map_fallback_tweet w i l : adds w 0 (map_indexed (fallback_tweet env) i l).
Proof. apply cost_map_indexed. intros. apply cost_fallback_tweet. Qed.

Hint Resolve cost_map_to_tweet cost_map_fallback_tweet : cost.

Lemma cost_extractTweetsFallback w n : adds w 0 (extractTweetsFallback env n).
Proof. unfold extractTweetsFallback. cost_walk. Qed.

Hint Resolve cost_extractTweetsFallback : cost.

Lemma cost_finalize w n ls : adds w (round_cost w) (finalize env n ls).
Proof. unfold finalize, round_cost. cost_walk. Qed.

Lemma cost_on_search_error w n : adds w 0 (on_search_error env n).
Proof.
  unfold on_search_error.
  eapply adds_bind with (k1 := 0); [cost_walk | lia | intros ?]. cost_walk.
Qed.

Lemma cost_ensure_init w : adds w (screenshot_cost w) (ensure_init env).
Proof. unfold ensure_init. cost_walk. Qed.

Hint Resolve cost_finalize cost_on_search_error cost_ensure_init : cost.

Lemma cost_searchTwitter w q n : adds w (search_budget w) (searchTwitter env q n).
Proof.
  unfold searchTwitter.
  eapply adds_bind; [apply cost_ensure_init | destruct w; simpl; lia | intros ?].
  eapply adds_try with (k1 := settle_cost w + maxScrollAttempts * round_cost w + round_cost w).
  - eapply adds_bind; [apply cost_collect | lia | intros ls].
    eapply adds_weaken; [apply cost_finalize | lia].
  - destruct w; vm_compute; lia.
  - intros e. eapply adds_weaken; [apply cost_on_search_error | lia].
Qed.

Lemma cost_classify_each w toCheck tweets :
  forall results, adds w 0 (classify_each env toCheck tweets results).
Proof.
  induction tweets as [|t ts IH]; intros results; simpl; [apply adds_ret|].
  eapply adds_bind with (k1 := 0); [apply cost_Date_now | lia | intros now].
  destruct (classify env toCheck now t); apply IH.
Qed.

Lemma cost_checkBreakingNews w symbols :
  adds w (search_budget w) (checkBreakingNews env symbols).
Proof.
  unfold checkBreakingNews. destruct symbols as [|s0 rest]; [apply adds_ret|].
  cbv zeta.
  eapply adds_bind; [apply cost_searchTwitter | lia | intros tweets].
  eapply adds_weaken; [apply cost_classify_each | lia].
Qed.

End CostOfSteps.

(** X3.  One [searchTwitter], however it ends, takes at most 62
    screenshots, asks the oracle for at most 51 extractions (50 rounds
    of the loop and the final one) and for at most 10 verifications;
    the same holds of [checkBreakingNews], which searches once.  The
    three bounds are reached together: on a fresh agent, when the page
    never looks loaded and the oracle never sees a tweet. *)
Theorem search_work_is_bounded :
  (forall env w query maxResults st,
     (work_done w (snd (searchTwitter env query maxResults st)) <=
      work_done w st + search_budget w)%nat) /\
  (forall env w symbols st,
     (work_done w (snd (checkBreakingNews env symbols st)) <=
      work_done w st + search_budget w)%nat) /\
  (forall w,
     work_done w (snd (searchTwitter env_never_loaded "AAPL" 5 fresh_agent)) =
     search_budget w).
Proof.
  split; [|split].
  - intros env w query maxResults st. apply cost_searchTwitter.
  - intros env w symbols st. apply cost_checkBreakingNews.
  - intros w. destruct w; vm_compute; reflexivity.
Qed.



(* ================================================================== *)
(** ** Further properties: the ids and the shape of a result *)

(** Decimal numerals: no character outside the digits (and the sign),
    and different integers print differently. *)
Lemma uint_chars (p : ascii -> bool) (d : Decimal.uint) :
  p "0"%char = false -> p "1"%char = false -> p "2"%char = false ->
  p "3"%char = false -> p "4"%char = false -> p "5"%char = false ->
  p "6"%char = false -> p "7"%char = false -> p "8"%char = false ->
  p "9"%char = false ->
  has_char p (NilEmpty.string_of_uint d) = false.
Proof.
  intros H0 H1 H2 H3 H4 H5 H6 H7 H8 H9.
  induction d; simpl; rewrite ?H0, ?H1, ?H2, ?H3, ?H4, ?H5, ?H6, ?H7, ?H8, ?H9;
    auto.
Qed.

Lemma show_Z_chars (p : ascii -> bool) (z : Z) :
  p "-"%char = false ->
  p "0"%char = false -> p "1"%char = false -> p "2"%char = false ->
  p "3"%char = false -> p "4"%char = false -> p "5"%char = false ->
  p "6"%char = false -> p "7"%char = false -> p "8"%char = false ->
  p "9"%char = false ->
  has_char p (Js.show_Z z) = false.
Proof.
  intros Hm H0 H1 H2 H3 H4 H5 H6 H7 H8 H9.
  assert (Hu : forall d, has_char p (NilZero.string_of_uint d) = false).
  { intros d. unfold NilZero.string_of_uint.
    destruct d; try (now apply uint_chars). simpl. now rewrite H0. }
  unfold Js.show_Z. destruct z as [|q|q]; simpl.
  - now rewrite H0.
  - apply Hu.
  - rewrite Hm. apply Hu.
Qed.

Lemma show_Z_free_of_underscore (z : Z) : free_of "_" (Js.show_Z z).
Proof. apply show_Z_chars; reflexivity. Qed.

Lemma show_Z_free_of_colon (z : Z) : free_of ":" (Js.show_Z z).
Proof. apply show_Z_chars; reflexivity. Qed.

Lemma show_Z_read_back (z : Z) :
  NilZero.int_of_string (Js.show_Z z) = Some (Z.to_int z).
Proof.
  unfold Js.show_Z. apply NilZero.isi.
  - destruct z as [|q|q]; simpl; try discriminate.
    intros H. inversion H as [Hq]. now apply DecimalPos.Unsigned.to_uint_nonnil in Hq.
  - destruct z as [|q|q]; simpl; try discriminate.
    intros H. inversion H as [Hq]. now apply DecimalPos.Unsigned.to_uint_nonnil in Hq.
Qed.

Lemma show_Z_inj (a b : Z) : Js.show_Z a = Js.show_Z b -> a = b.
Proof.
  intros H. apply DecimalZ.to_int_inj.
  pose proof (show_Z_read_back a) as Ha. rewrite H, show_Z_read_back in Ha.
  congruence.
Qed.

Lemma show_nat_inj (i j : nat) : Js.show_nat i = Js.show_nat j -> i = j.
Proof. unfold Js.show_nat. intros H. apply show_Z_inj in H. lia. Qed.

(** Two texts [a_x] and [b_y] with no underscore in [a] and [b] are
    equal only part by part. *)
Lemma split_at_underscore (a b x y : string) :
  free_of "_" a -> free_of "_" b ->
  (a ++ "_" ++ x = b ++ "_" ++ y)%string -> a = b /\ x = y.
Proof.
  unfold free_of. revert b. induction a as [|c a IH]; intros [|d b] Ha Hb H; simpl in *.
  - inversion H. auto.
  - inversion H; subst. simpl in Hb. discriminate.
  - inversion H; subst. simpl in Ha. discriminate.
  - inversion H; subst.
    apply orb_false_iff in Ha as [_ Ha]. apply orb_false_iff in Hb as [_ Hb].
    destruct (IH b Ha Hb) as [-> ->]; auto.
Qed.

Lemma app_inv_prefix (p a b : string) : (p ++ a = p ++ b)%string -> a = b.
Proof. induction p as [|c p IH]; simpl; intros H; [exact H | inversion H; auto]. Qed.

Lemma ids_from_index (prefix : string) (ids : list string) :
  forall i id, ids_from prefix i ids -> In id ids ->
    exists now j, (i <= j)%nat /\
      id = (prefix ++ Js.show_Z now ++ "_" ++ Js.show_nat j)%string.
Proof.
  induction ids as [|x ids IH]; intros i id Hids Hin; [destruct Hin|].
  destruct Hids as [[now Hx] Hrest]. destruct Hin as [<-|Hin].
  - exists now, i. auto.
  - destruct (IH (S i) id Hrest Hin) as (now' & j & Hj & Hid).
    exists now', j. split; [lia | exact Hid].
Qed.

(** Ids that carry their position are pairwise distinct, whatever the
    clock said. *)
Lemma ids_from_NoDup (prefix : string) (ids : list string) :
  forall i, ids_from prefix i ids -> NoDup ids.
Proof.
  induction ids as [|x ids IH]; intros i Hids; [constructor|].
  destruct Hids as [[now Hx] Hrest]. constructor; [|eapply IH; eassumption].
  intros Hin. destruct (ids_from_index prefix ids (S i) x Hrest Hin)
    as (now' & j & Hj & Hid).
  rewrite Hx in Hid. apply app_inv_prefix in Hid.
  apply split_at_underscore in Hid; try apply show_Z_free_of_underscore.
  destruct Hid as [_ Hid]. apply show_nat_inj in Hid. lia.
Qed.

Lemma author_of_nonempty (c : Candidate) : author_of c <> "".
Proof.
  unfold author_of. destruct (c_author c) as [a|]; [|discriminate].
  cbv zeta. destruct (Js.remove_first "@" a) eqn:E; simpl; discriminate.
Qed.

Lemma to_tweet_shape env i c st t st' :
  to_tweet env i c st = (Ret t, st') ->
  (exists now, tweet_id t = ("browser_" ++ Js.show_Z now ++ "_" ++ Js.show_nat i)%string) /\
  shaped t.
Proof.
  unfold to_tweet, bind, Date_now, iso_now, bind, ask, ret.
  destruct (c_created_at c) as [s|]; [destruct (Js.truthy s)|];
    simpl; intros H; inversion H; subst; simpl;
    (split; [eexists; reflexivity | split; [apply author_of_nonempty | reflexivity]]).
Qed.

Lemma fallback_tweet_shape env i el st t st' :
  fallback_tweet env i el st = (Ret t, st') ->
  (exists now, tweet_id t = ("fallback_" ++ Js.show_Z now ++ "_" ++ Js.show_nat i)%string) /\
  text t = or_empty (el_text el) /\
  placeholder t.
Proof.
  unfold fallback_tweet, bind, Date_now, iso_now, bind, ask, ret. simpl.
  intros H; inversion H; subst; simpl.
  split; [eexists; reflexivity|]. split; [reflexivity|]. repeat split.
Qed.

Lemma placeholder_shaped (t : Tweet) : placeholder t -> shaped t.
Proof. intros (Ha & Hf & _). split; [rewrite Ha; discriminate | exact Hf]. Qed.

Lemma map_indexed_to_tweet_shape env (l : list Candidate) :
  forall i st tweets st',
    map_indexed (to_tweet env) i l st = (Ret tweets, st') ->
    ids_from "browser_" i (map tweet_id tweets) /\ Forall shaped tweets.
Proof.
  induction l as [|c l IH]; intros i st tweets st' H; simpl in H.
  - inversion H. simpl. auto.
  - step_bind H. step_bind H. inversion H; subst. simpl.
    apply to_tweet_shape in Hrun as [Hid Hs].
    apply IH in Hrun0 as [Hids Hall]. auto.
Qed.

Lemma map_indexed_fallback_shape env (l : list SnapshotElement) :
  forall i st tweets st',
    map_indexed (fallback_tweet env) i l st = (Ret tweets, st') ->
    ids_from "fallback_" i (map tweet_id tweets) /\
    map text tweets = map (fun el => or_empty (el_text el)) l /\
    Forall placeholder tweets.
Proof.
  induction l as [|el l IH]; intros i st tweets st' H; simpl in H.
  - inversion H. simpl. auto.
  - step_bind H. step_bind H. inversion H; subst. simpl.
    apply fallback_tweet_shape in Hrun as (Hid & Ht & Hp).
    apply IH in Hrun0 as (Hids & Hts & Hall).
    rewrite Ht, Hts. auto.
Qed.

Lemma result_shape_nil : result_shape [].
Proof. split; [left; exact I | constructor]. Qed.

Lemma result_shape_browser tweets :
  ids_from "browser_" 0 (map tweet_id tweets) /\ Forall shaped tweets ->
  result_shape tweets.
Proof. intros [Hids Hall]. split; auto. Qed.

Lemma result_shape_fallback tweets :
  ids_from "fallback_" 0 (map tweet_id tweets) -> Forall placeholder tweets ->
  result_shape tweets.
Proof.
  intros Hids Hall. split; [right; auto|].
  eapply Forall_impl; [apply placeholder_shaped | exact Hall].
Qed.

Lemma extractTweetsFallback_yields env n :
  yields (extractTweetsFallback env n) result_shape.
Proof.
  intros st r st' H. unfold extractTweetsFallback, try_catch in H.
  match type of H with
  | context [bind ?m ?k st] => destruct (bind m k st) as [[bs|e] st1] eqn:Hrun
  end.
  - inversion H; subst. step_bind Hrun. cbv zeta in Hrun.
    apply map_indexed_fallback_shape in Hrun as (Hids & _ & Hall).
    now apply result_shape_fallback.
  - inversion H; subst. apply result_shape_nil.
Qed.

Lemma on_search_error_yields env n :
  yields (on_search_error env n) result_shape.
Proof.
  intros st r st' H. unfold on_search_error in H. step_bind H.
  unfold try_catch in H.
  destruct (extractTweetsFallback env n st0) as [[bs|e0] st1] eqn:Hfb.
  - inversion H; subst. eapply extractTweetsFallback_yields; eassumption.
  - inversion H; subst. apply result_shape_nil.
Qed.

Lemma finalize_yields env n ls : yields (finalize env n ls) result_shape.
Proof.
  intros st tweets st' H. unfold finalize in H. cbv zeta in H. step_bind H.
  destruct (Js.slice0 n (allTweets (session ls))) as [|u us] eqn:Hs.
  - step_bind H. step_bind H.
    destruct (tweets_of a1) as [[|c cs]|].
    + step_bind H. step_bind H.
      apply extractTweetsFallback_yields in Hrun2.
      destruct a2; inversion H; subst; assumption.
    + step_bind H. step_bind H. step_bind H. inversion H; subst.
      apply result_shape_browser. eapply map_indexed_to_tweet_shape; eassumption.
    + step_bind H. step_bind H.
      apply extractTweetsFallback_yields in Hrun2.
      destruct a2; inversion H; subst; assumption.
  - step_bind H. step_bind H. step_bind H. inversion H; subst.
    apply result_shape_browser. eapply map_indexed_to_tweet_shape; eassumption.
Qed.

Lemma searchTwitter_yields env q n : yields (searchTwitter env q n) result_shape.
Proof.
  intros st tweets st' H. unfold searchTwitter in H. step_bind H.
  unfold try_catch in H.
  match type of H with
  | context [bind ?m ?k st0] => destruct (bind m k st0) as [[ts|e] st1] eqn:Hbody
  end.
  - inversion H; subst. step_bind Hbody. eapply finalize_yields; eassumption.
  - eapply on_search_error_yields; eassumption.
Qed.

(** X4.  Whatever [searchTwitter] returns, for any query and target and
    whatever the collaborators answer: the ids of the tweets are
    pairwise distinct (each is [browser_<now>_<index>], or each is
    [fallback_<now>_<index>], with the position in the result as
    index, so that equal clock readings do no harm), every tweet has a
    non-empty author and 0 followers, and tweets under [fallback_]
    have the author [unknown] and no likes or retweets. *)
Theorem searchTwitter_result_ids_distinct
        (env : Env) (query : string) (maxResults : Z) (st : State)
        (tweets : list Tweet) (st' : State) :
  searchTwitter env query maxResults st = (Ret tweets, st') ->
  NoDup (map tweet_id tweets) /\
  Forall shaped tweets /\
  (ids_from "browser_" 0 (map tweet_id tweets) \/
   ids_from "fallback_" 0 (map tweet_id tweets) /\ Forall placeholder tweets).
Proof.
  intros Hrun. destruct (searchTwitter_yields env query maxResults st tweets st' Hrun)
    as [Hids Hall].
  split; [|split; assumption].
  destruct Hids as [Hids | [Hids _]]; eapply ids_from_NoDup; eassumption.
Qed.

Lemma searchTwitter_result_ids_distinct_witness :
  exists tweets st',
    searchTwitter env_three_posts "AAPL" 5 fresh_agent = (Ret tweets, st') /\
    List.length tweets = 2%nat /\
    NoDup (map tweet_id tweets).
Proof.
  assert (Hrun : exists tweets st',
             searchTwitter env_three_posts "AAPL" 5 fresh_agent = (Ret tweets, st') /\
             List.length tweets = 2%nat)
    by (vm_compute; repeat eexists).
  destruct Hrun as (tweets & st' & Hrun & Hlen). exists tweets, st'.
  split; [exact Hrun|]. split; [exact Hlen|].
  exact (proj1 (searchTwitter_result_ids_distinct env_three_posts "AAPL" 5 fresh_agent
                  tweets st' Hrun)).
Defined.

(* ================================================================== *)
(** ** Further properties: the snapshot fallback *)

Lemma firstn_min_length {X} (n : Z) (l : list X) :
  firstn (Z.to_nat (Z.min (Z.of_nat (List.length l)) n)) l = firstn (Z.to_nat n) l.
Proof.
  destruct (Z.le_gt_cases n (Z.of_nat (List.length l))) as [H|H].
  - now rewrite Z.min_r.
  - rewrite Z.min_l by lia. rewrite Nat2Z.id, firstn_all.
    symmetry. apply firstn_all2. lia.
Qed.

Lemma fallback_tweet_run env i el st :
  exists t st',
    fallback_tweet env i el st = (Ret t, st') /\
    files st' = files st /\
    screenshotPaths st' = screenshotPaths st /\
    initialized st' = initialized st.
Proof.
  unfold fallback_tweet, bind, Date_now, iso_now, bind, ask, ret. simpl.
  eexists _, _. repeat split.
Qed.

Lemma map_indexed_fallback_run env (l : list SnapshotElement) :
  forall i st, exists tweets st',
    map_indexed (fallback_tweet env) i l st = (Ret tweets, st') /\
    files st' = files st /\
    screenshotPaths st' = screenshotPaths st /\
    initialized st' = initialized st.
Proof.
  induction l as [|el l IH]; intros i st; simpl.
  - eexists _, _. repeat split.
  - unfold bind at 1.
    destruct (fallback_tweet_run env i el st) as (t & st1 & -> & Hf1 & Hp1 & Hi1).
    unfold bind at 1.
    destruct (IH (S i) st1) as (ts & st2 & -> & Hf & Hp & Hi).
    eexists _, _. split; [reflexivity|]. repeat split; congruence.
Qed.

(** X5.  [extractTweetsFallback] never throws and touches neither the
    screenshot files nor the agent's fields.  When the snapshot cannot be
    taken the result is empty; otherwise it has one tweet for each of
    the first [maxResults] elements of the snapshot that are an
    [article] or carry the test id [tweet], in page order, with the
    element's text (or the empty text), the author [unknown] and no
    followers, likes or retweets. *)
Theorem extractTweetsFallback_reads_snapshot (env : Env) (maxResults : Z) (st : State) :
  exists tweets st',
    extractTweetsFallback env maxResults st = (Ret tweets, st') /\
    match snapshot_at env (calls st) with
    | None => tweets = []
    | Some elements =>
        map text tweets =
          map (fun el => or_empty (el_text el))
              (firstn (Z.to_nat maxResults) (filter is_tweet_element elements))
    end /\
    Forall placeholder tweets /\
    files st' = files st /\
    screenshotPaths st' = screenshotPaths st /\
    initialized st' = initialized st.
Proof.
  unfold extractTweetsFallback, try_catch, bind at 1, browser_snapshot, call.
  destruct (snapshot_at env (calls st)) as [elements|].
  - cbv zeta. rewrite firstn_min_length.
    destruct (map_indexed_fallback_run env
                (firstn (Z.to_nat maxResults) (filter is_tweet_element elements))
                0 (record EvSnapshot st)) as (tweets & st' & Hrun & Hf & Hp & Hi).
    rewrite Hrun. exists tweets, st'. split; [reflexivity|].
    apply map_indexed_fallback_shape in Hrun as (_ & Htext & Hall).
    repeat split; assumption.
  - eexists _, _. split; [reflexivity|]. repeat split. constructor.
Qed.

(* ================================================================== *)
(** ** Further properties: the agent between calls *)

Lemma stable_ready : stable ready.
Proof. intros ev st H. exact H. Qed.

Lemma ready_set_files l : keeps ready (set_files l).
Proof. intros st H. exact H. Qed.

Lemma ready_set_screenshotPaths l : keeps ready (set_screenshotPaths l).
Proof. intros st H. exact H. Qed.

#[local] Hint Resolve stable_ready ready_set_files ready_set_screenshotPaths : agent.

Lemma ready_tracked_screenshot env : keeps ready (tracked_screenshot env).
Proof. unfold tracked_screenshot, browser_screenshot. keeps_walk. Qed.

Lemma ready_unlink_each paths : keeps ready (unlink_each paths).
Proof. induction paths as [|p ps IH]; simpl; unfold unlink; keeps_walk. Qed.

#[local] Hint Resolve ready_unlink_each : agent.

Lemma ready_cleanupScreenshots env : keeps ready (cleanupScreenshots env).
Proof. unfold cleanupScreenshots, browser_cleanupScreenshots. keeps_walk. Qed.

(** Once initialised, the agent stays initialised through a search,
    however the search ends. *)
Lemma ready_search_body env q n :
  keeps ready (try_catch (bind (collect env q n) (fun ls => finalize env n ls))
                         (fun _ => on_search_error env n)).
Proof.
  apply keeps_try; [apply keeps_bind; [|intro]|intro].
  - apply keeps_collect; [apply stable_ready | apply ready_tracked_screenshot].
  - apply keeps_finalize;
      [apply stable_ready | apply ready_tracked_screenshot | apply ready_cleanupScreenshots].
  - apply keeps_on_search_error; [apply stable_ready | apply ready_cleanupScreenshots].
Qed.

Lemma searchTwitter_ends_ready env q n st r st' :
  searchTwitter env q n st = (Ret r, st') -> ready st'.
Proof.
  intros H. unfold searchTwitter in H. step_bind H.
  rewrite ensure_init_is_init in Hrun. apply init_ret_initialized in Hrun.
  pose proof (ready_search_body env q n _ Hrun) as Hbody.
  rewrite H in Hbody. exact Hbody.
Qed.

Lemma ready_searchTwitter env q n : keeps ready (searchTwitter env q n).
Proof.
  intros st H. unfold searchTwitter, bind at 1.
  rewrite ensure_init_is_init, (init_when_initialized env st H).
  exact (ready_search_body env q n st H).
Qed.

Lemma ready_checkBreakingNews env symbols : keeps ready (checkBreakingNews env symbols).
Proof.
  unfold checkBreakingNews. destruct symbols as [|s0 rest]; [apply keeps_ret|].
  cbv zeta. apply keeps_bind; [apply ready_searchTwitter | intros tweets].
  apply keeps_classify_each. apply stable_ready.
Qed.

Lemma checkBreakingNews_ends_ready env s rest st r st' :
  checkBreakingNews env (s :: rest) st = (Ret r, st') -> ready st'.
Proof.
  intros H. unfold checkBreakingNews in H. cbv zeta in H. step_bind H.
  apply searchTwitter_ends_ready in Hrun.
  pose proof (keeps_classify_each env ready stable_ready (firstn 3 (s :: rest)) a []
                _ Hrun) as Hk.
  rewrite H in Hk. exact Hk.
Qed.

(** What [init] leaves behind when it throws, and how many files it
    can add. *)
Lemma init_raise_not_ready (env : Env) (st st' : State) (e : Error) :
  init env st = (Raise e, st') -> initialized st' = false.
Proof.
  intros H. unfold_init H. split_run H.
  all: try discriminate.
  all: inversion H; subst; clear H; simpl; auto.
Qed.

Lemma init_adds_one_file (env : Env) (st : State) :
  (List.length (files (snd (init env st))) <= S (List.length (files st)))%nat.
Proof.
  destruct (init env st) as [r st'] eqn:H. unfold_init H. split_run H.
  all: inversion H; subst; clear H; simpl; lia.
Qed.

Lemma healthCheck_run (env : Env) (st : State) :
  healthCheck env st =
    if isConnected_at env (calls st)
    then match init env (record EvIsConnected st) with
         | (Ret _, st1) => (Ret (mkHealth true (Text "Agent is ready")), st1)
         | (Raise e, st1) => (Ret (mkHealth false (OfError e)), st1)
         end
    else (Ret (mkHealth false (Text "Chrome not connected")), record EvIsConnected st).
Proof.
  unfold healthCheck, try_catch, bind at 1, browser_isConnected, ask.
  destruct (isConnected_at env (calls st)); [|reflexivity].
  cbv beta iota. unfold negb at 1. cbv iota.
  unfold bind at 1, get. cbv beta iota.
  pose proof (ensure_init_is_init env (record EvIsConnected st)) as Hi.
  unfold ensure_init, bind, get in Hi. unfold bind at 1.
  rewrite Hi. destruct (init env (record EvIsConnected st)) as [[[]|e] st1]; reflexivity.
Qed.

(** X6.  [healthCheck] never throws, and the [/health] route answers
    200 with the report when it is healthy, 503 with it otherwise (the
    route's own [catch] never runs).  The agent is reported healthy
    exactly when Chrome answers the connectivity check and [init]
    returns, and it is initialised then.  When Chrome does not answer,
    the message is [Chrome not connected] and nothing else was called;
    on an initialised agent a positive connectivity check is all it
    takes, the page is not looked at.  An unhealthy report on a
    connected Chrome carries the error [init] threw, and the agent is
    still not initialised. *)
Theorem healthCheck_report (env : Env) (st : State) :
  exists h st',
    healthCheck env st = (Ret h, st') /\
    health_route env st =
      (Ret (mkHealthResponse (if healthy h then 200 else 503) h), st') /\
    (healthy h = true ->
       ready st' /\ message h = Text "Agent is ready" /\
       isConnected_at env (calls st) = true) /\
    (isConnected_at env (calls st) = false ->
       h = mkHealth false (Text "Chrome not connected") /\
       st' = record EvIsConnected st) /\
    (isConnected_at env (calls st) = true -> ready st ->
       h = mkHealth true (Text "Agent is ready") /\
       st' = record EvIsConnected st) /\
    (isConnected_at env (calls st) = true -> healthy h = false ->
       exists e,
         message h = OfError e /\
         init env (record EvIsConnected st) = (Raise e, st') /\
         initialized st = false /\ initialized st' = false).
Proof.
  assert (Hroute : forall h st',
             healthCheck env st = (Ret h, st') ->
             health_route env st =
               (Ret (mkHealthResponse (if healthy h then 200 else 503) h), st')).
  { intros h st' Hh. unfold health_route, try_catch, bind. now rewrite Hh. }
  pose proof (healthCheck_run env st) as Hrun.
  destruct (isConnected_at env (calls st)) eqn:Hc.
  - destruct (init env (record EvIsConnected st)) as [[u|e] st1] eqn:Hinit.
    + eexists _, _. split; [exact Hrun|]. split; [now apply Hroute|].
      split; [intros _; split; [exact (init_ret_initialized _ _ _ _ Hinit) | auto]|].
      split; [discriminate|]. split.
      * intros _ Hready. split; [reflexivity|].
        rewrite init_when_initialized in Hinit by exact Hready. congruence.
      * simpl. discriminate.
    + eexists _, _. split; [exact Hrun|]. split; [now apply Hroute|].
      split; [simpl; discriminate|]. split; [discriminate|]. split.
      * intros _ Hready.
        rewrite init_when_initialized in Hinit by exact Hready. discriminate.
      * intros _ _. exists e. split; [reflexivity|]. split; [reflexivity|].
        split; [exact (proj1 (init_raise _ _ _ _ Hinit))
               | exact (init_raise_not_ready _ _ _ _ Hinit)].
  - eexists _, _. split; [exact Hrun|]. split; [now apply Hroute|].
    split; [simpl; discriminate|]. split; [auto|]. split; discriminate.
Qed.

(* ================================================================== *)
(** ** Further properties: the routes of the server *)

(** What gets past the validation of [maxResults] stands for a number
    between 0 and 50. *)
Lemma validated_number (v : JsValue) :
  js_truthy v && out_of_range v = false -> (0 <= to_number v <= 50)%Z.
Proof.
  destruct v as [|[|]|n|s| |]; simpl; intros H; first [lia | discriminate].
Qed.

Lemma total_classify_each env toCheck tweets :
  forall results, total (classify_each env toCheck tweets results).
Proof.
  induction tweets as [|t ts IH]; intros results; simpl; [apply total_ret|].
  apply total_bind; [unfold Date_now; apply total_ask | intros now].
  destruct (classify env toCheck now t); apply IH.
Qed.

(** X7.  [POST /twitter/search] always answers, for a request whose
    [maxResults], when it is a number, is an integer.  A request
    without a body is answered 500 at once, whatever the state of the
    agent, and a 400 is given before anything is done: in both cases
    the agent and the browser are untouched.  A non-empty query with
    no [maxResults] or one between 1 and 50 is never refused.  A 200
    carries [count] equal to the number of tweets, which is at most
    50, at most [maxResults] when that is a number and at most 10 when
    it is absent, and leaves the agent initialised.  Any other 500 is
    given only when [init] threw on an agent that was, and stays,
    uninitialised; it carries that error. *)
Theorem search_request_answers
        (env : Env) (req_body : option SearchBody) (st : State) :
  exists answer st',
    search_request env req_body st = (Ret answer, st') /\
    match answer with
    | Answered500 cause => req_body = None /\ cause = BodyUndefined /\ st' = st
    | Answered (Json400 _) => req_body <> None /\ st' = st
    | Answered (Json200 tweets k) =>
        k = List.length tweets /\ (k <= 50)%nat /\ ready st' /\
        exists body,
          req_body = Some body /\
          (forall n, body_maxResults body = Some (JNum n) -> (Z.of_nat k <= n)%Z) /\
          (body_maxResults body = None -> (k <= 10)%nat)
    | Answered (Json500 e) =>
        req_body <> None /\
        initialized st = false /\ initialized st' = false /\
        init env st = (Raise e, st')
    end /\
    (forall body c q,
       req_body = Some body ->
       body_query body = Some (JStr (String c q)) ->
       body_maxResults body = None \/
       (exists n, body_maxResults body = Some (JNum n) /\ (1 <= n <= 50)%Z) ->
       forall msg, answer <> Answered (Json400 msg)).
Proof.
  destruct req_body as [body|]; simpl search_request;
    [|eexists _, _; split; [reflexivity|]; split; [auto | discriminate]].
  assert (Hroute : exists resp st',
    search_route env body st = (Ret resp, st') /\
    match resp with
    | Json400 _ => st' = st
    | Json200 tweets k =>
        k = List.length tweets /\ (k <= 50)%nat /\ ready st' /\
        (forall n, body_maxResults body = Some (JNum n) -> (Z.of_nat k <= n)%Z) /\
        (body_maxResults body = None -> (k <= 10)%nat)
    | Json500 e =>
        initialized st = false /\ initialized st' = false /\
        init env st = (Raise e, st')
    end /\
    (forall c q,
       body_query body = Some (JStr (String c q)) ->
       body_maxResults body = None \/
       (exists n, body_maxResults body = Some (JNum n) /\ (1 <= n <= 50)%Z) ->
       forall msg, resp <> Json400 msg)).
  { unfold search_route. cbv zeta.
    destruct (body_query body) as [[| | |[|c q]| |]|] eqn:Hq;
      try (eexists _, _; split; [reflexivity|]; split; [reflexivity|];
           intros; discriminate).
    set (v := match body_maxResults body with Some v => v | None => JNum 10 end).
    destruct (js_truthy v && out_of_range v) eqn:Hv.
    - eexists _, _. split; [reflexivity|]. split; [reflexivity|].
      intros c' q' _ Hm msg _. subst v.
      destruct Hm as [Hm|(n & Hm & Hn)]; rewrite Hm in Hv; simpl in Hv;
        [discriminate | lia].
    - apply validated_number in Hv. unfold try_catch, bind.
      destruct (searchTwitter env (String c q) (to_number v) st)
        as [[tweets|e] st1] eqn:Hrun.
      + eexists _, _. split; [reflexivity|]. split; [|discriminate].
        pose proof (searchTwitter_length env _ _ _ _ _ (proj1 Hv) Hrun) as Hlen.
        split; [reflexivity|]. split; [lia|].
        split; [exact (searchTwitter_ends_ready _ _ _ _ _ _ Hrun)|].
        subst v. split.
        * intros n Hn. rewrite Hn in Hlen. exact Hlen.
        * intros Hn. rewrite Hn in Hlen. simpl in Hlen. lia.
      + eexists _, _. split; [reflexivity|]. split; [|discriminate].
        apply searchTwitter_raise in Hrun.
        split; [exact (proj1 (init_raise _ _ _ _ Hrun))|].
        split; [exact (init_raise_not_ready _ _ _ _ Hrun) | exact Hrun]. }
  destruct Hroute as (resp & st' & Hrun & Hshape & Hvalid).
  exists (Answered resp), st'. unfold bind. rewrite Hrun.
  split; [reflexivity|]. split.
  - destruct resp as [tweets k|msg|e].
    + destruct Hshape as (Hk & H50 & Hready & Hn & Hdef).
      split; [exact Hk|]. split; [exact H50|]. split; [exact Hready|].
      exists body. auto.
    + split; [discriminate | exact Hshape].
    + split; [discriminate | exact Hshape].
  - intros body' c q Hbody Hq Hm msg Heq. inversion Hbody; subst body'.
    inversion Heq as [Hresp]. exact (Hvalid c q Hq Hm msg Hresp).
Qed.

(** X8.  [POST /twitter/breaking-news] always answers, for a request
    whose [symbols], when it is an array, is one of strings.  A request
    without a body is answered 500 at once, whatever the state of the
    agent; a request with a body is answered 400 exactly when [symbols]
    is not an array or is empty; in both cases the agent and the
    browser are untouched.  A 200 carries [count] equal to the number
    of news items, at most 5, and leaves the agent initialised.  Any
    other 500 is given only when [init] threw on an uninitialised
    agent; it carries that error. *)
Theorem breaking_news_route_answers
        (env : Env) (req_body : option SymbolsField) (st : State) :
  exists resp st',
    breaking_news_route env req_body st = (Ret resp, st') /\
    match resp with
    | News400 _ =>
        st' = st /\
        (req_body = Some NotAnArray \/ req_body = Some (SymbolArray []))
    | News200 news k =>
        k = List.length news /\ (k <= 5)%nat /\ ready st' /\
        exists s rest, req_body = Some (SymbolArray (s :: rest))
    | News500 BodyUndefined => req_body = None /\ st' = st
    | News500 (AgentThrew e) =>
        (exists s rest, req_body = Some (SymbolArray (s :: rest))) /\
        initialized st = false /\ initialized st' = false /\
        init env st = (Raise e, st')
    end.
Proof.
  destruct req_body as [[|[|s rest]]|]; unfold breaking_news_route.
  - eexists _, _. split; [reflexivity|]. simpl. auto.
  - eexists _, _. split; [reflexivity|]. simpl. auto.
  - unfold try_catch, bind at 1.
    destruct (checkBreakingNews env (s :: rest) st) as [[news|e] st1] eqn:Hrun.
    + eexists _, _. split; [reflexivity|].
      split; [reflexivity|].
      split; [exact (proj1 (checkBreakingNews_spec _ _ _ _ _ Hrun))|].
      split; [exact (checkBreakingNews_ends_ready _ _ _ _ _ _ Hrun) | eauto].
    + eexists _, _. split; [reflexivity|].
      unfold checkBreakingNews in Hrun. cbv zeta in Hrun. unfold bind at 1 in Hrun.
      destruct (searchTwitter env (newsQuery (firstn 3 (s :: rest))) 5 st)
        as [[tweets|e1] st2] eqn:Hsearch.
      * exfalso.
        destruct (total_classify_each env (firstn 3 (s :: rest)) tweets [] st2)
          as (r & st3 & Heq).
        rewrite Heq in Hrun. discriminate.
      * inversion Hrun; subst. apply searchTwitter_raise in Hsearch.
        split; [eauto|].
        split; [exact (proj1 (init_raise _ _ _ _ Hsearch))|].
        split; [exact (init_raise_not_ready _ _ _ _ Hsearch) | exact Hsearch].
  - eexists _, _. split; [reflexivity|]. simpl. auto.
Qed.

(* ================================================================== *)
(** ** Further properties: any history of calls *)

Lemma at_rest_fresh : at_rest fresh_agent.
Proof. split; [apply agent_wf_fresh | simpl; lia]. Qed.

Lemma at_rest_clean st : clean st -> at_rest st.
Proof.
  intros Hc. split; [now apply agent_wf_clean|].
  destruct Hc as [_ Hf]. rewrite Hf. simpl. lia.
Qed.

Lemma agent_wf_no_files st : agent_wf st -> initialized st = false -> files st = [].
Proof.
  intros [Htr Hfresh] Hi. specialize (Hfresh Hi).
  destruct (files st) as [|f fs] eqn:Hf; [reflexivity|].
  destruct (Htr f) as [_ Hin]; [rewrite Hf; now left|].
  rewrite Hfresh in Hin. destruct Hin.
Qed.

Lemma at_rest_init env st : at_rest st -> at_rest (snd (init env st)).
Proof.
  intros [Hwf Hlen]. split.
  - pose proof (agent_wf_init env st Hwf) as H.
    destruct (init env st) as [[u|e] st1]; exact H.
  - destruct (initialized st) eqn:Hi.
    + now rewrite init_when_initialized.
    + pose proof (init_adds_one_file env st) as H.
      rewrite (agent_wf_no_files st Hwf Hi) in H. exact H.
Qed.

Lemma at_rest_searchTwitter env q n st :
  at_rest st -> at_rest (snd (searchTwitter env q n st)).
Proof.
  intros [Hwf _]. apply at_rest_clean.
  pose proof (searchTwitter_cleans env q n st Hwf) as H.
  destruct (searchTwitter env q n st) as [[u|e] st1]; exact H.
Qed.

Lemma at_rest_checkBreakingNews env symbols st :
  at_rest st -> at_rest (snd (checkBreakingNews env symbols st)).
Proof.
  intros Hrest. unfold checkBreakingNews.
  destruct symbols as [|s rest]; [exact Hrest|]. cbv zeta. unfold bind at 1.
  pose proof (at_rest_searchTwitter env (newsQuery (firstn 3 (s :: rest))) 5 st Hrest) as H.
  destruct (searchTwitter env (newsQuery (firstn 3 (s :: rest))) 5 st)
    as [[tweets|e] st1]; [|exact H].
  pose proof (keeps_classify_each env at_rest (fun ev s0 Hs => Hs)
                (firstn 3 (s :: rest)) tweets [] st1 H) as Hk.
  destruct (classify_each env (firstn 3 (s :: rest)) tweets [] st1) as [[r|e] st2];
    exact Hk.
Qed.

Lemma at_rest_healthCheck env st :
  at_rest st -> at_rest (snd (healthCheck env st)).
Proof.
  intros Hrest. rewrite healthCheck_run.
  destruct (isConnected_at env (calls st)); [|exact Hrest].
  pose proof (at_rest_init env (record EvIsConnected st) Hrest) as H.
  destruct (init env (record EvIsConnected st)) as [[u|e] st1]; exact H.
Qed.

Lemma at_rest_after_call env st c : at_rest st -> at_rest (after_call env st c).
Proof.
  destruct c; simpl.
  - apply at_rest_init.
  - apply at_rest_searchTwitter.
  - apply at_rest_checkBreakingNews.
  - apply at_rest_healthCheck.
Qed.

Lemma ready_after_call env st c : ready st -> ready (after_call env st c).
Proof.
  intros Hr. destruct c; unfold after_call.
  - now rewrite init_when_initialized.
  - pose proof (ready_searchTwitter env query maxResults st Hr) as H.
    destruct (searchTwitter env query maxResults st) as [[u|e] st1]; exact H.
  - pose proof (ready_checkBreakingNews env symbols st Hr) as H.
    destruct (checkBreakingNews env symbols st) as [[u|e] st1]; exact H.
  - rewrite healthCheck_run.
    destruct (isConnected_at env (calls st)); [|exact Hr].
    rewrite init_when_initialized by exact Hr. exact Hr.
Qed.

(** X9.  Whatever calls of [init], [searchTwitter], [checkBreakingNews]
    and [healthCheck] were made on a new agent, one after the other,
    with whatever arguments, outcomes and collaborator answers: every
    screenshot file on disk is tracked by the agent, an agent that is
    not initialised tracks none, and at most one screenshot file is on
    disk.  One can be: [init] leaves the screenshot of its
    authentication check behind.  An initialised agent is never
    un-initialised by a call. *)
Theorem agent_at_rest_between_calls (env : Env) (history : list AgentCall) :
  at_rest (after_calls env history fresh_agent) /\
  (forall st c, at_rest st -> at_rest (after_call env st c)) /\
  (forall st c, ready st -> ready (after_call env st c)) /\
  files (after_calls env_blind [CallInit] fresh_agent) = ["twitter-screenshot-1.png"].
Proof.
  split; [|split; [intros st c; apply at_rest_after_call|
                   split; [intros st c; apply ready_after_call | reflexivity]]].
  unfold after_calls. generalize at_rest_fresh. generalize fresh_agent.
  induction history as [|c cs IH]; intros st Hst; simpl; [exact Hst|].
  apply IH. now apply at_rest_after_call.
Qed.

(* ================================================================== *)
(** ** Further properties: looking at the same view again *)

Lemma blocked_merge (n : Z) (cs : list Candidate) (s : Session) (k : string) :
  blocked s k -> blocked (merge n cs s) k.
Proof.
  intros [H|H]; [now left | right].
  destruct (merge_extends n cs s) as (added & _ & Hs & _).
  rewrite Hs. apply in_or_app. now left.
Qed.

Lemma merge_all_blocked (n : Z) (cs : list Candidate) (s : Session) :
  Forall (fun c => blocked s (dedupKey c)) cs -> merge n cs s = s.
Proof.
  induction 1 as [|c cs Hc _ IH]; simpl; [reflexivity|].
  now rewrite (acceptable_blocked s c Hc).
Qed.

(** A merge that ends below the target has looked at every candidate:
    each is in, or was refused, and is refused from then on. *)
Lemma merge_blocks_batch (n : Z) (cs : list Candidate) :
  forall s, (count (merge n cs s) < n)%Z ->
    Forall (fun c => blocked (merge n cs s) (dedupKey c)) cs.
Proof.
  induction cs as [|c cs IH]; intros s Hlt; [constructor|].
  pose proof (blocked_after_accept s c) as Hb. unfold accept in Hb.
  simpl in *. destruct (acceptable (seen s) c).
  - destruct (n <=? count (add_item c s))%Z eqn:Hfull;
      [apply Z.leb_le in Hfull; lia|].
    constructor; [now apply blocked_merge | now apply IH].
  - constructor; [now apply blocked_merge | now apply IH].
Qed.

Lemma merge_again (n : Z) (cs : list Candidate) (s : Session) :
  (count (merge n cs s) < n)%Z -> merge n cs (merge n cs s) = merge n cs s.
Proof. intros Hlt. apply merge_all_blocked. now apply merge_blocks_batch. Qed.

(** The batch an oracle answer contributes ([None]: no usable
    answer, or an empty one). *)
Lemma session_tally (n : Z) (x : VisionAnalysisResult ExtractData) (ls : LoopState) :
  session (tally n x ls) =
    match tweets_of x with
    | Some (c :: cs) => merge n (c :: cs) (session ls)
    | _ => session ls
    end.
Proof.
  unfold tally. destruct (tweets_of x) as [[|c cs]|]; try reflexivity.
  cbv zeta.
  match goal with |- session (if ?b then _ else _) = _ => destruct b end; reflexivity.
Qed.

Lemma lastTweetCount_tally (n : Z) (x : VisionAnalysisResult ExtractData) (ls : LoopState) :
  lastTweetCount (tally n x ls) =
    match tweets_of x with
    | Some (c :: cs) => count (session (tally n x ls))
    | _ => lastTweetCount ls
    end.
Proof.
  unfold tally. destruct (tweets_of x) as [[|c cs]|]; try reflexivity.
  cbv zeta.
  match goal with |- context [if ?b then _ else _] => destruct b end; reflexivity.
Qed.

(** An answer whose batch changes nothing counts as an empty
    screenshot. *)
Lemma tally_no_gain (n : Z) (x : VisionAnalysisResult ExtractData) (ls : LoopState) :
  session (tally n x ls) = session ls ->
  consecutiveEmptyScreenshots (tally n x ls) = S (consecutiveEmptyScreenshots ls).
Proof.
  rewrite session_tally. unfold tally.
  destruct (tweets_of x) as [[|c cs]|]; try reflexivity.
  intros ->. cbv zeta. rewrite Z.sub_diag. reflexivity.
Qed.

(** X10.  When an oracle answer left the harvest below the target, the
    same answer again (the view did not move) changes nothing in what
    was accumulated, and counts as an empty screenshot: the accepted
    candidates are refused as seen, the refused ones stay refused.
    Below the target is needed: a merge that stopped at the target has
    not looked at the rest of the batch. *)
Theorem same_view_adds_nothing
        (maxResults : Z) (extraction : VisionAnalysisResult ExtractData)
        (ls : LoopState) :
  (count (session (tally maxResults extraction ls)) < maxResults)%Z ->
  let ls1 := tally maxResults extraction ls in
  let ls2 := tally maxResults extraction ls1 in
  session ls2 = session ls1 /\
  consecutiveEmptyScreenshots ls2 = S (consecutiveEmptyScreenshots ls1) /\
  lastTweetCount ls2 = lastTweetCount ls1 /\
  (forall batch s,
     (count (merge maxResults batch s) < maxResults)%Z ->
     merge maxResults batch (merge maxResults batch s) = merge maxResults batch s).
Proof.
  intros Hlt. cbv zeta.
  assert (Hsame : session (tally maxResults extraction (tally maxResults extraction ls)) =
                  session (tally maxResults extraction ls)).
  { rewrite (session_tally maxResults extraction (tally maxResults extraction ls)).
    destruct (tweets_of extraction) as [[|c cs]|] eqn:Hx; try reflexivity.
    rewrite session_tally, Hx in Hlt |- *. now apply merge_again. }
  split; [exact Hsame|]. split; [now apply tally_no_gain|].
  split; [|intros batch s; apply merge_again].
  rewrite (lastTweetCount_tally maxResults extraction (tally maxResults extraction ls)).
  rewrite Hsame.
  rewrite (lastTweetCount_tally maxResults extraction ls).
  destruct (tweets_of extraction) as [[|c cs]|]; reflexivity.
Qed.

Lemma same_view_adds_nothing_witness :
  (count (session (tally 5 mixed_view loop_start)) < 5)%Z /\
  session (tally 5 mixed_view (tally 5 mixed_view loop_start)) =
    session (tally 5 mixed_view loop_start) /\
  consecutiveEmptyScreenshots (tally 5 mixed_view (tally 5 mixed_view loop_start)) = 1%nat.
Proof.
  assert (Hlt : (count (session (tally 5 mixed_view loop_start)) < 5)%Z)
    by (vm_compute; reflexivity).
  split; [exact Hlt|].
  destruct (same_view_adds_nothing 5 mixed_view loop_start Hlt) as (Hs & He & _).
  split; [exact Hs | exact He].
Defined.

(* ================================================================== *)
(** ** Further properties: what a news item guarantees *)

Lemma classify_sound env toCheck now tweet item :
  classify env toCheck now tweet = Some item ->
  symbol item <> "" /\
  (String.length (headline item) <= 200)%nat /\
  news_author item = author tweet /\
  isNewsAccount (news_author item) = true /\
  (forall m, age_minutes item = Some m -> (m <= 30)%Z) /\
  (is_breaking item = true ->
     exists m, age_minutes item = Some m /\ (m <= 10)%Z) /\
  (age_minutes item = None ->
     Date_parse env (created_at tweet) = None /\ is_breaking item = false).
Proof.
  unfold classify, tweetAge. cbv zeta.
  destruct (Date_parse env (created_at tweet)) as [t|]; simpl.
  - destruct (MAX_NEWS_AGE_MS <? now - t)%Z eqn:Hold; [discriminate|].
    destruct (find (mentions (text tweet)) toCheck) as [s|]; [|discriminate].
    destruct s as [|c s]; [discriminate|]. simpl.
    destruct (isNewsAccount (author tweet)) eqn:Hnews; [|discriminate].
    intros H. inversion H; subst; simpl. clear H.
    apply Z.ltb_ge in Hold. unfold MAX_NEWS_AGE_MS in Hold.
    split; [discriminate|]. split; [apply take_length|]. split; [reflexivity|].
    split; [exact Hnews|]. split; [|split; [|discriminate]].
    + intros m Hm. inversion Hm; subst. unfold round_minutes.
      apply Z.lt_succ_r. apply Z.div_lt_upper_bound; lia.
    + intros Hb. apply Z.ltb_lt in Hb. unfold BREAKING_THRESHOLD_MS in Hb.
      eexists. split; [reflexivity|]. unfold round_minutes.
      apply Z.lt_succ_r. apply Z.div_lt_upper_bound; lia.
  - destruct (find (mentions (text tweet)) toCheck) as [s|]; [|discriminate].
    destruct s as [|c s]; [discriminate|]. simpl.
    destruct (isNewsAccount (author tweet)) eqn:Hnews; [|discriminate].
    intros H. inversion H; subst; simpl. clear H.
    split; [discriminate|]. split; [apply take_length|]. split; [reflexivity|].
    split; [exact Hnews|]. split; [discriminate|]. split; [discriminate | auto].
Qed.

Lemma not_a_news_account : isNewsAccount "unknown" = false.
Proof. reflexivity. Qed.

(** X11.  Every news item that [checkBreakingNews] returns has a
    non-empty symbol, a headline of at most 200 characters and an
    author that passes the allow-list test, never the [unknown] of the
    snapshot fallback.  Its age, when the tweet's date could be read,
    is at most 30 minutes, and an item flagged as breaking has a known
    age of at most 10 (rounded) minutes.  An item whose date could not
    be read is still returned, with no age and not flagged. *)
Theorem news_items_are_sound
        (env : Env) (symbols : list string) (st : State)
        (news : list BreakingNewsItem) (st' : State) :
  checkBreakingNews env symbols st = (Ret news, st') ->
  Forall (fun item =>
            symbol item <> "" /\
            (String.length (headline item) <= 200)%nat /\
            isNewsAccount (news_author item) = true /\
            news_author item <> "unknown" /\
            (forall m, age_minutes item = Some m -> (m <= 30)%Z) /\
            (is_breaking item = true ->
               exists m, age_minutes item = Some m /\ (m <= 10)%Z) /\
            (age_minutes item = None -> is_breaking item = false))
         news.
Proof.
  intros Hrun. apply Forall_forall. intros item Hin.
  destruct (checkBreakingNews_spec env symbols st news st' Hrun) as [_ Hitems].
  destruct (Hitems item Hin) as (now & tweet & Hc).
  apply classify_sound in Hc as (Hs & Hh & _ & Ha & Hage & Hb & Hnan).
  split; [exact Hs|]. split; [exact Hh|]. split; [exact Ha|].
  split; [intros Heq; rewrite Heq, not_a_news_account in Ha; discriminate|].
  split; [exact Hage|]. split; [exact Hb | intros Hn; now apply Hnan].
Qed.

Lemma news_items_are_sound_witness :
  exists news st',
    checkBreakingNews env_three_posts ["AAPL"; "TSLA"] fresh_agent = (Ret news, st') /\
    List.length news = 2%nat /\
    Forall (fun item => (String.length (headline item) <= 200)%nat /\
                        isNewsAccount (news_author item) = true) news.
Proof.
  assert (Hrun : exists news st',
             checkBreakingNews env_three_posts ["AAPL"; "TSLA"] fresh_agent =
               (Ret news, st') /\ List.length news = 2%nat)
    by (vm_compute; repeat eexists).
  destruct Hrun as (news & st' & Hrun & Hlen). exists news, st'.
  split; [exact Hrun|]. split; [exact Hlen|].
  eapply Forall_impl;
    [|exact (news_items_are_sound env_three_posts ["AAPL"; "TSLA"] fresh_agent
               news st' Hrun)].
  intros item (_ & Hh & Ha & _). split; [exact Hh | exact Ha].
Defined.

(* ================================================================== *)
(** ** Further properties: what the dedup key cannot tell apart *)

Lemma map_chars_length (f : ascii -> ascii) (s : string) :
  String.length (Js.map_chars f s) = String.length s.
Proof. induction s as [|c s IH]; simpl; congruence. Qed.

Lemma trimStart_length (s : string) :
  (String.length (Js.trimStart s) <= String.length s)%nat.
Proof.
  induction s as [|c s IH]; simpl; [lia|].
  destruct (Js.is_space c); simpl; lia.
Qed.

Lemma trimEnd_length (s : string) :
  (String.length (Js.trimEnd s) <= String.length s)%nat.
Proof.
  induction s as [|c s IH]; simpl; [lia|].
  destruct (Js.trimEnd s) as [|d r]; [destruct (Js.is_space c)|]; simpl in *; lia.
Qed.

Lemma trim_length (s : string) :
  (String.length (Js.trim s) <= String.length s)%nat.
Proof.
  unfold Js.trim. pose proof (trimEnd_length (Js.trimStart s)).
  pose proof (trimStart_length s). lia.
Qed.

Lemma lower_lower_char (c : ascii) :
  Js.lower_char (Js.lower_char c) = Js.lower_char c.
Proof. destruct c as [[] [] [] [] [] [] [] []]; reflexivity. Qed.

Lemma take_app (n : nat) (t u : string) :
  (n <= String.length t)%nat -> Js.take n (t ++ u) = Js.take n t.
Proof.
  unfold Js.take. revert t.
  induction n as [|n IH]; intros [|c t] H; simpl in *; try reflexivity; try lia.
  - now destruct u.
  - rewrite IH by lia. reflexivity.
Qed.

Lemma dedupKeyOf_lower (t : string) : dedupKeyOf (Js.toLowerCase t) = dedupKeyOf t.
Proof.
  unfold dedupKeyOf, Js.toLowerCase.
  rewrite take_map_chars.
  now rewrite (map_chars_compose _ _ Js.lower_char _ lower_lower_char).
Qed.

(** X12.  On ASCII text the dedup key has at most 150 characters, does
    not see the case of letters, and does not see the text past its
    first 150 characters.  So a candidate whose text is that of an
    earlier candidate of the batch in capitals, or with another ending
    after 150 characters, can be struck from the batch without any
    change to what the merge loop accumulates. *)
Theorem dedup_key_blind_spots (t : string) :
  is_ascii t = true ->
  (String.length (dedupKeyOf t) <= 150)%nat /\
  dedupKeyOf (Js.toUpperCase t) = dedupKeyOf t /\
  dedupKeyOf (Js.toLowerCase t) = dedupKeyOf t /\
  (forall u, is_ascii u = true -> (150 <= String.length t)%nat ->
             dedupKeyOf (t ++ u) = dedupKeyOf t) /\
  (forall n pre c mid later post s,
     text_of c = t ->
     text_of later = Js.toUpperCase t \/
     (exists u, is_ascii u = true /\ (150 <= String.length t)%nat /\
                text_of later = (t ++ u)%string) ->
     merge n (pre ++ c :: mid ++ later :: post) s =
     merge n (pre ++ c :: mid ++ post) s).
Proof.
  intros _.
  split; [|split; [apply dedupKeyOf_upper | split; [apply dedupKeyOf_lower|]]].
  - unfold dedupKeyOf.
    pose proof (trim_length (Js.toLowerCase (Js.take 150 t))) as H.
    unfold Js.toLowerCase in H at 2. rewrite map_chars_length in H.
    pose proof (take_length 150 t). lia.
  - assert (Htail : forall u, (150 <= String.length t)%nat ->
                              dedupKeyOf (t ++ u) = dedupKeyOf t).
    { intros u Hlen. unfold dedupKeyOf. now rewrite take_app. }
    split; [intros u _; exact (Htail u)|].
    intros n pre c mid later post s Hc Hlater.
    assert (Hkey : dedupKey later = dedupKey c).
    { unfold dedupKey. fold (text_of c) (text_of later). rewrite Hc.
      destruct Hlater as [->|(u & _ & Hlen & ->)];
        [apply dedupKeyOf_upper | now apply Htail]. }
    rewrite (app_comm_cons mid (later :: post) c), (app_comm_cons mid post c).
    rewrite !app_assoc. apply merge_drops_repeat.
    exists c. split; [|now symmetry].
    apply in_or_app. right. now left.
Qed.

(** X12, on a text: the headline in capitals has the key of the
    headline. *)
Lemma dedup_key_blind_spots_witness :
  is_ascii "$AAPL halted pending news, more to follow" = true /\
  dedupKeyOf "$AAPL HALTED PENDING NEWS, MORE TO FOLLOW" =
    dedupKeyOf "$AAPL halted pending news, more to follow" /\
  dedupKeyOf "$AAPL halted pending news, more to follow" =
    "$aapl halted pending news, more to follow".
Proof.
  split; [reflexivity|]. split; [|reflexivity].
  exact (proj1 (proj2 (dedup_key_blind_spots
                         "$AAPL halted pending news, more to follow" eq_refl))).
Defined.

(* ================================================================== *)
(** ** Further properties: splitting and joining *)

Lemma split_on_nonempty (sep : ascii) (s : string) : split_on sep s <> [].
Proof.
  destruct s as [|c r]; simpl; [discriminate|].
  destruct (Ascii.eqb c sep); [discriminate|].
  destruct (split_on sep r); discriminate.
Qed.

Lemma free_of_cons (sep c : ascii) (r : string) :
  free_of sep (String c r) <-> Ascii.eqb c sep = false /\ free_of sep r.
Proof.
  unfold free_of. simpl. rewrite orb_false_iff, (Ascii.eqb_sym sep c). tauto.
Qed.

(** A text without the separator is one part. *)
Lemma split_on_free (sep : ascii) (s : string) :
  free_of sep s -> split_on sep s = [s].
Proof.
  induction s as [|c r IH]; intros H; simpl; [reflexivity|].
  apply free_of_cons in H as [Hc Hr]. now rewrite Hc, (IH Hr).
Qed.

(** The first part ends at the first separator. *)
Lemma split_on_app (sep : ascii) (a b : string) :
  free_of sep a ->
  split_on sep (a ++ String sep b) = a :: split_on sep b.
Proof.
  induction a as [|c r IH]; intros H; simpl.
  - now rewrite Ascii.eqb_refl.
  - apply free_of_cons in H as [Hc Hr]. now rewrite Hc, (IH Hr).
Qed.

Lemma split_on_parts_free (sep : ascii) (s : string) :
  Forall (free_of sep) (split_on sep s).
Proof.
  induction s as [|c r IH]; simpl; [repeat constructor|].
  destruct (Ascii.eqb c sep) eqn:Hc; [constructor; [reflexivity | exact IH]|].
  destruct (split_on sep r) as [|h t]; [repeat constructor; now apply free_of_cons|].
  inversion IH; subst. constructor; [now apply free_of_cons | assumption].
Qed.

(** [s.split(sep).join(sep)] is [s]. *)
Lemma split_on_join (sep : ascii) (s : string) :
  String.concat (String sep "") (split_on sep s) = s.
Proof.
  induction s as [|c r IH]; simpl; [reflexivity|].
  pose proof (split_on_nonempty sep r) as Hne.
  destruct (Ascii.eqb c sep) eqn:Hc.
  - apply Ascii.eqb_eq in Hc. subst c.
    destruct (split_on sep r) as [|h t]; [congruence|].
    change (String.concat (String sep "") ("" :: h :: t))
      with ("" ++ String sep "" ++ String.concat (String sep "") (h :: t))%string.
    now rewrite IH.
  - destruct (split_on sep r) as [|h t]; [congruence|].
    rewrite <- IH. destruct t; reflexivity.
Qed.

(* ================================================================== *)
(** ** Further properties: the command line of [agent-browser] *)

Lemma escape_ampersands_free (url : string) :
  free_of "&" url -> escape_ampersands url = url.
Proof.
  induction url as [|c r IH]; intros H; simpl; [reflexivity|].
  apply free_of_cons in H as [Hc Hr]. now rewrite Hc, (IH Hr).
Qed.

(** X13.  The port the controller was constructed with is the port it
    passes to [agent-browser --cdp]: splitting the endpoint
    [http://localhost:<port>] at the colons gives the port back, for
    every port number, so that a command line is [agent-browser --cdp
    <port> <command> <args>].  An endpoint without a colon would give
    an empty port.  [open] passes the URL with each [&] escaped as
    [^&], so a URL without [&] as it is, and [scroll] the direction
    and the pixels. *)
Theorem command_line_addresses_port
        (chromeDebugPort : Z) (command : string) (args : list string) :
  port_of (chromeWsEndpoint chromeDebugPort) = Some (Js.show_Z chromeDebugPort) /\
  fullCommand (chromeWsEndpoint chromeDebugPort) command args =
    String.concat " "
      ("agent-browser" :: "--cdp" :: Js.show_Z chromeDebugPort :: command :: args) /\
  (forall url,
     open_command (chromeWsEndpoint chromeDebugPort) url =
       ("agent-browser --cdp " ++ Js.show_Z chromeDebugPort ++ " open " ++
        escape_ampersands url)%string) /\
  (forall url,
     free_of "&" url ->
     open_command (chromeWsEndpoint chromeDebugPort) url =
       ("agent-browser --cdp " ++ Js.show_Z chromeDebugPort ++ " open " ++ url)%string) /\
  (forall pixels,
     scroll_command (chromeWsEndpoint chromeDebugPort) down pixels =
       ("agent-browser --cdp " ++ Js.show_Z chromeDebugPort ++ " scroll down " ++
        Js.show_Z pixels)%string) /\
  (forall endpoint,
     free_of ":" endpoint ->
     fullCommand endpoint command args =
       String.concat " " ("agent-browser" :: "--cdp" :: "" :: command :: args)).
Proof.
  assert (Hport : port_of (chromeWsEndpoint chromeDebugPort) =
                  Some (Js.show_Z chromeDebugPort)).
  { unfold port_of, chromeWsEndpoint.
    change ("http://localhost:" ++ Js.show_Z chromeDebugPort)%string
      with ("http" ++ String ":" ("//localhost" ++
                                  String ":" (Js.show_Z chromeDebugPort)))%string.
    rewrite split_on_app by reflexivity.
    rewrite split_on_app by reflexivity.
    rewrite split_on_free by apply show_Z_free_of_colon. reflexivity. }
  assert (Hfull : forall cmd l,
             fullCommand (chromeWsEndpoint chromeDebugPort) cmd l =
               String.concat " "
                 ("agent-browser" :: "--cdp" :: Js.show_Z chromeDebugPort :: cmd :: l)).
  { intros cmd l. unfold fullCommand. now rewrite Hport. }
  split; [exact Hport|]. split; [apply Hfull|]. split; [|split; [|split]].
  - intros url. unfold open_command. rewrite Hfull. reflexivity.
  - intros url Hfree. unfold open_command.
    rewrite Hfull, escape_ampersands_free by exact Hfree. reflexivity.
  - intros pixels. unfold scroll_command. rewrite Hfull. reflexivity.
  - intros endpoint Hfree. unfold fullCommand, port_of.
    now rewrite split_on_free by exact Hfree.
Qed.

(* ================================================================== *)
(** ** Further properties: the lines of [.dev.vars] *)

Lemma trimStart_head (s : string) (c : ascii) (r : string) :
  Js.trimStart s = String c r -> Js.is_space c = false.
Proof.
  induction s as [|d s IH]; simpl; [discriminate|].
  destruct (Js.is_space d) eqn:Hd; [exact IH|].
  intros H. inversion H; subst. exact Hd.
Qed.

Lemma trimEnd_head (c : ascii) (r : string) :
  Js.is_space c = false -> exists r', Js.trimEnd (String c r) = String c r'.
Proof.
  intros Hc. simpl. destruct (Js.trimEnd r); [rewrite Hc|]; eauto.
Qed.

Lemma trimEnd_head_inv (s : string) (c : ascii) (r : string) :
  Js.trimEnd s = String c r -> exists r0, s = String c r0.
Proof.
  destruct s as [|d s]; simpl; [discriminate|].
  destruct (Js.trimEnd s); [destruct (Js.is_space d)|];
    intros H; inversion H; subst; eauto.
Qed.

(** A trimmed text does not start with white space. *)
Lemma trim_head (s : string) (c : ascii) (r : string) :
  Js.trim s = String c r -> Js.is_space c = false.
Proof.
  unfold Js.trim. intros H.
  destruct (trimEnd_head_inv _ _ _ H) as (r0 & Hr0).
  now apply trimStart_head in Hr0.
Qed.

Lemma trim_nonempty (c : ascii) (r : string) :
  Js.is_space c = false -> Js.trim (String c r) <> "".
Proof.
  intros Hc. unfold Js.trim. simpl Js.trimStart. rewrite Hc.
  destruct (trimEnd_head c r Hc) as (r' & ->). discriminate.
Qed.

Lemma includes_at (a b : string) (c : ascii) :
  Js.includes (a ++ String c b) (String c "") = true.
Proof.
  induction a as [|d a IH]; simpl.
  - destruct (ascii_dec c c) as [_|Hne]; [now destruct b | congruence].
  - rewrite IH. apply orb_true_r.
Qed.

Lemma truthy_nonempty (s : string) : Js.truthy s = true <-> s <> "".
Proof. destruct s; simpl; split; congruence. Qed.

Lemma lookup_assign_other (k : string) (kv : string * string) (vars : Vars) :
  fst kv <> k -> lookup_var k (assign kv vars) = lookup_var k vars.
Proof.
  intros Hne. unfold assign. destruct kv as [k' v']. simpl in *.
  destruct (String.eqb k' "__proto__"); [reflexivity|]. simpl.
  destruct (String.eqb k k') eqn:Hk; [|reflexivity].
  apply String.eqb_eq in Hk. congruence.
Qed.

Lemma lookup_assign_same (k v : string) (vars : Vars) :
  k <> "__proto__" -> lookup_var k (assign (k, v) vars) = Some v.
Proof.
  intros Hne. unfold assign. simpl.
  destruct (String.eqb k "__proto__") eqn:Hp;
    [apply String.eqb_eq in Hp; congruence|].
  simpl. now rewrite String.eqb_refl.
Qed.

Lemma lookup_proto_assign (kv : string * string) (vars : Vars) :
  lookup_var "__proto__" (assign kv vars) = lookup_var "__proto__" vars.
Proof.
  unfold assign. destruct kv as [k' v']. cbn [fst].
  destruct (String.eqb k' "__proto__") eqn:Hp; [reflexivity|].
  cbn [lookup_var]. rewrite String.eqb_sym, Hp. reflexivity.
Qed.

(** X14.  A line of [.dev.vars] makes the loader execute an assignment
    exactly when, trimmed, it is not a [#] comment and reads [key=rest]
    with a non-empty [key] free of [=] and a [rest] that is not all
    white space: the key assigned is everything before the first [=],
    the value everything after it, further [=] signs included, both
    trimmed, and neither is ever empty.  The assignment gives the
    variable its value, unless the key is [__proto__]: assigning a
    string to that key of a plain object makes no entry, and such a
    line changes nothing, like a line that assigns nothing. *)
Theorem parse_line_reads_first_equals (line k v : string) :
  (parse_line line = Some (k, v) <->
   exists key rest,
     Js.trim line = (key ++ "=" ++ rest)%string /\
     free_of "=" key /\ key <> "" /\
     Js.startsWith (Js.trim line) "#" = false /\
     k = Js.trim key /\ v = Js.trim rest /\ v <> "") /\
  (parse_line line = Some (k, v) -> k <> "" /\ v <> "") /\
  (forall vars,
     parse_line line = Some (k, v) ->
     (k <> "__proto__" -> lookup_var k (assign_lines [line] vars) = Some v) /\
     (k = "__proto__" -> assign_lines [line] vars = vars)) /\
  (forall vars, parse_line line = None -> assign_lines [line] vars = vars).
Proof.
  assert (Hiff : parse_line line = Some (k, v) <->
    exists key rest,
      Js.trim line = (key ++ "=" ++ rest)%string /\
      free_of "=" key /\ key <> "" /\
      Js.startsWith (Js.trim line) "#" = false /\
      k = Js.trim key /\ v = Js.trim rest /\ v <> "").
  { unfold parse_line. cbv zeta. split.
    - destruct (Js.truthy (Js.trim line) && negb (Js.startsWith (Js.trim line) "#") &&
                Js.includes (Js.trim line) "=") eqn:Hguard; [|discriminate].
      apply andb_true_iff in Hguard as [Hguard _].
      apply andb_true_iff in Hguard as [_ Hhash]. apply negb_true_iff in Hhash.
      pose proof (split_on_join "=" (Js.trim line)) as Hjoin.
      pose proof (split_on_parts_free "=" (Js.trim line)) as Hfree.
      destruct (split_on "=" (Js.trim line)) as [|key valueParts]; [discriminate|].
      destruct (Js.truthy key && Js.truthy (Js.trim (String.concat "=" valueParts)))
        eqn:Hboth; [|discriminate].
      apply andb_true_iff in Hboth as [Hkey Hvalue].
      intros H. inversion H; subst. clear H.
      exists key, (String.concat "=" valueParts).
      inversion Hfree; subst.
      split; [|repeat split; try assumption; now apply truthy_nonempty].
      destruct valueParts as [|x xs]; [discriminate|].
      symmetry. exact Hjoin.
    - intros (key & rest & Htrim & Hfree & Hkey & Hhash & -> & -> & Hv).
      rewrite Htrim in *. rewrite Hhash.
      change (key ++ "=" ++ rest)%string with (key ++ String "=" rest)%string.
      rewrite includes_at, split_on_app by exact Hfree.
      rewrite split_on_join.
      apply truthy_nonempty in Hkey. apply truthy_nonempty in Hv.
      rewrite Hkey, Hv.
      destruct key; [discriminate|]. reflexivity. }
  split; [exact Hiff|]. split; [|split].
  - intros H. apply Hiff in H as (key & rest & Htrim & _ & Hkey & _ & -> & -> & Hv).
    split; [|exact Hv].
    destruct key as [|c key]; [congruence|].
    apply trim_nonempty. exact (trim_head line c _ Htrim).
  - intros vars Hline. simpl. rewrite Hline. split.
    + intros Hne. now apply lookup_assign_same.
    + intros ->. reflexivity.
  - intros vars Hline. simpl. now rewrite Hline.
Qed.

Lemma assign_lines_app (pre post : list string) :
  forall vars, assign_lines (pre ++ post) vars = assign_lines post (assign_lines pre vars).
Proof. induction pre as [|l pre IH]; intros vars; simpl; [reflexivity | apply IH]. Qed.

Lemma lookup_assign_others (k : string) (lines : list string) :
  (forall line, In line lines -> forall v, parse_line line <> Some (k, v)) ->
  forall vars, lookup_var k (assign_lines lines vars) = lookup_var k vars.
Proof.
  induction lines as [|l lines IH]; intros Hnone vars; simpl; [reflexivity|].
  rewrite IH by (intros line Hin; apply Hnone; now right).
  destruct (parse_line l) as [[k' v']|] eqn:Hl; [|reflexivity].
  apply lookup_assign_other. simpl. intros ->.
  exact (Hnone l (or_introl eq_refl) v' Hl).
Qed.

Lemma lookup_proto_assign_lines (lines : list string) :
  forall vars,
    lookup_var "__proto__" (assign_lines lines vars) = lookup_var "__proto__" vars.
Proof.
  induction lines as [|l lines IH]; intros vars; simpl; [reflexivity|].
  rewrite IH. destruct (parse_line l); [apply lookup_proto_assign | reflexivity].
Qed.

Lemma lookup_var_app (k : string) (a b : Vars) :
  lookup_var k (a ++ b) =
    match lookup_var k a with Some v => Some v | None => lookup_var k b end.
Proof.
  induction a as [|[k' v'] a IH]; simpl; [reflexivity|].
  destruct (String.eqb k k'); [reflexivity | exact IH].
Qed.

(** The copy keeps, for each key but [__proto__], its last entry. *)
Lemma lookup_copy (k : string) (entries : list (string * string)) :
  k <> "__proto__" ->
  forall acc,
    lookup_var k (fold_left (fun vars kv => assign kv vars) entries acc) =
      match lookup_var k (rev entries) with
      | Some v => Some v
      | None => lookup_var k acc
      end.
Proof.
  intros Hne. induction entries as [|[k' v'] entries IH]; intros acc; simpl;
    [reflexivity|].
  rewrite IH, lookup_var_app. destruct (lookup_var k (rev entries)); [reflexivity|].
  simpl. destruct (String.eqb k k') eqn:Hk.
  - apply String.eqb_eq in Hk. subst k'. now apply lookup_assign_same.
  - apply lookup_assign_other. simpl. intros ->. now rewrite String.eqb_refl in Hk.
Qed.

Lemma lookup_proto_copy (entries : list (string * string)) :
  forall acc,
    lookup_var "__proto__" (fold_left (fun vars kv => assign kv vars) entries acc) =
      lookup_var "__proto__" acc.
Proof.
  induction entries as [|kv entries IH]; intros acc; simpl; [reflexivity|].
  rewrite IH. apply lookup_proto_assign.
Qed.

(** X15.  [loadEnvVars]: without a readable file the variables are the
    copies of those of the process environment.  With one, a variable
    has the value of the last line of the file that assigns it,
    whatever the process environment and the earlier lines say, and a
    variable that no line assigns keeps its value from the process
    environment.  This holds of every key but [__proto__], which never
    becomes an entry of the record, neither from the process
    environment nor from the file. *)
Theorem dev_vars_override_environment
        (process_env : list (string * string)) (content k : string) :
  loadEnvVars process_env None = copy_entries process_env /\
  (forall dev_vars,
     lookup_var "__proto__" (loadEnvVars process_env dev_vars) = None) /\
  (k <> "__proto__" ->
   lookup_var k (copy_entries process_env) = lookup_var k (rev process_env)) /\
  ((forall line, In line (split_on LF content) ->
      forall v, parse_line line <> Some (k, v)) ->
   lookup_var k (loadEnvVars process_env (Some content)) =
     lookup_var k (copy_entries process_env)) /\
  (forall pre line post v,
     k <> "__proto__" ->
     split_on LF content = pre ++ line :: post ->
     parse_line line = Some (k, v) ->
     (forall later, In later post -> forall v', parse_line later <> Some (k, v')) ->
     lookup_var k (loadEnvVars process_env (Some content)) = Some v).
Proof.
  split; [reflexivity|]. split; [|split; [|split]].
  - intros [c|]; unfold loadEnvVars, copy_entries;
      rewrite ?lookup_proto_assign_lines, lookup_proto_copy; reflexivity.
  - intros Hne. unfold copy_entries. rewrite (lookup_copy k process_env Hne).
    now destruct (lookup_var k (rev process_env)).
  - intros Hnone. unfold loadEnvVars. now apply lookup_assign_others.
  - intros pre line post v Hne Hsplit Hline Hlater. unfold loadEnvVars.
    rewrite Hsplit, assign_lines_app. simpl. rewrite Hline.
    rewrite lookup_assign_others by exact Hlater.
    now apply lookup_assign_same.
Qed.

(* ================================================================== *)
(** ** Further properties: where the agent navigates *)

Section Navigation.

Variable env : Env.
Variable old : list Event.
Variable allowed : list string.
Hypothesis home_allowed : In home_url allowed.

Lemma nav_record ev st :
  (forall url, ev = EvOpen url -> In url allowed) ->
  opened_within old allowed st -> opened_within old allowed (record ev st).
Proof.
  intros Hev H url [Heq|Hin]; [right; now apply Hev | now apply H].
Qed.

Lemma nav_ask {A} ev (f : nat -> A) :
  (forall url, ev = EvOpen url -> In url allowed) ->
  keeps (opened_within old allowed) (ask ev f).
Proof. intros Hev st H. now apply nav_record. Qed.

Lemma nav_call {A} ev (f : nat -> option A) (e : Error) :
  (forall url, ev = EvOpen url -> In url allowed) ->
  keeps (opened_within old allowed) (call ev f e).
Proof.
  intros Hev st H. unfold call. destruct (f (calls st)); now apply nav_record.
Qed.

Ltac nav_prim :=
  first [apply nav_ask | apply nav_call];
  let E := fresh "E" in
  intros ? E; first [discriminate E | inversion E; subst; assumption].

Lemma nav_set_initialized b : keeps (opened_within old allowed) (set_initialized b).
Proof. intros st H. exact H. Qed.

Lemma nav_set_files l : keeps (opened_within old allowed) (set_files l).
Proof. intros st H. exact H. Qed.

Lemma nav_set_screenshotPaths l :
  keeps (opened_within old allowed) (set_screenshotPaths l).
Proof. intros st H. exact H. Qed.

Lemma nav_delay ms : keeps (opened_within old allowed) (delay ms).
Proof. unfold delay. nav_prim. Qed.

Lemma nav_random_delay : keeps (opened_within old allowed) random_delay.
Proof. unfold random_delay. nav_prim. Qed.

Lemma nav_Date_now : keeps (opened_within old allowed) (Date_now env).
Proof. unfold Date_now. nav_prim. Qed.

Lemma nav_isConnected : keeps (opened_within old allowed) (browser_isConnected env).
Proof. unfold browser_isConnected. nav_prim. Qed.

Lemma nav_listTabs : keeps (opened_within old allowed) (browser_listTabs env).
Proof. unfold browser_listTabs. nav_prim. Qed.

Lemma nav_switchTab tabId :
  keeps (opened_within old allowed) (browser_switchTab env tabId).
Proof. unfold browser_switchTab. nav_prim. Qed.

Lemma nav_getCurrentUrl : keeps (opened_within old allowed) (browser_getCurrentUrl env).
Proof. unfold browser_getCurrentUrl. nav_prim. Qed.

Lemma nav_open url : In url allowed ->
    keeps (opened_within old allowed) (browser_open env url).
Proof. intros Hurl. unfold browser_open. nav_prim. Qed.

Lemma nav_open_home : keeps (opened_within old allowed) (browser_open env home_url).
Proof. now apply nav_open. Qed.

Lemma nav_setViewportHeight h :
  keeps (opened_within old allowed) (browser_setViewportHeight h).
Proof. unfold browser_setViewportHeight. nav_prim. Qed.

Lemma nav_scroll d px : keeps (opened_within old allowed) (browser_scroll env d px).
Proof. unfold browser_scroll. nav_prim. Qed.

Lemma nav_snapshot : keeps (opened_within old allowed) (browser_snapshot env).
Proof. unfold browser_snapshot. nav_prim. Qed.

Lemma nav_checkAuthentication :
  keeps (opened_within old allowed) (llm_checkAuthentication env).
Proof. unfold llm_checkAuthentication. nav_prim. Qed.

Lemma nav_verifySearchResults :
  keeps (opened_within old allowed) (llm_verifySearchResults env).
Proof. unfold llm_verifySearchResults. nav_prim. Qed.

Lemma nav_extractTweets n :
  keeps (opened_within old allowed) (llm_extractTweetsFromScreenshot env n).
Proof. unfold llm_extractTweetsFromScreenshot. nav_prim. Qed.

Lemma nav_screenshot_call :
 
    keeps (opened_within old allowed) (call EvScreenshot (screenshot_at env) ScreenshotFailed).
Proof. nav_prim. Qed.

Lemma nav_unlink_event path :
  keeps (opened_within old allowed) (ask (EvUnlink path) (fun _ => tt)).
Proof. nav_prim. Qed.

Lemma nav_readdir :
  keeps (opened_within old allowed) (ask EvBrowserCleanup (readdir_at env)).
Proof. nav_prim. Qed.

Hint Resolve nav_set_initialized nav_set_files nav_set_screenshotPaths
  nav_delay nav_random_delay nav_Date_now nav_isConnected nav_listTabs
  nav_switchTab nav_getCurrentUrl nav_open_home nav_setViewportHeight
  nav_scroll nav_snapshot nav_checkAuthentication nav_verifySearchResults
  nav_extractTweets nav_screenshot_call nav_unlink_event nav_readdir : agent.

Lemma nav_tracked_screenshot :
  keeps (opened_within old allowed) (tracked_screenshot env).
Proof. unfold tracked_screenshot, browser_screenshot. keeps_walk. Qed.

Lemma nav_unlink_each paths : keeps (opened_within old allowed) (unlink_each paths).
Proof. induction paths as [|p ps IH]; simpl; unfold unlink; keeps_walk. Qed.

Hint Resolve nav_tracked_screenshot nav_unlink_each : agent.

Lemma nav_cleanupScreenshots :
  keeps (opened_within old allowed) (cleanupScreenshots env).
Proof. unfold cleanupScreenshots, browser_cleanupScreenshots. keeps_walk. Qed.

Hint Resolve nav_cleanupScreenshots : agent.

Lemma nav_init : keeps (opened_within old allowed) (init env).
Proof. unfold init. keeps_walk. Qed.

Hint Resolve nav_init : agent.

Lemma nav_ensure_init : keeps (opened_within old allowed) (ensure_init env).
Proof. unfold ensure_init. keeps_walk. Qed.

Lemma nav_healthCheck : keeps (opened_within old allowed) (healthCheck env).
Proof. unfold healthCheck. keeps_walk. Qed.

Lemma nav_verify_loop n : keeps (opened_within old allowed) (verify_loop env n).
Proof. induction n as [|n IH]; simpl; keeps_walk. Qed.

Lemma nav_extract_step n ls : keeps (opened_within old allowed) (extract_step env n ls).
Proof. unfold extract_step. keeps_walk. Qed.

Lemma nav_recover ls : keeps (opened_within old allowed) (recover env ls).
Proof. unfold recover. keeps_walk. Qed.

Hint Resolve nav_ensure_init nav_verify_loop nav_extract_step nav_recover : agent.

Lemma nav_extraction_loop n fuel : forall ls,
    keeps (opened_within old allowed) (extraction_loop env n fuel ls).
Proof. induction fuel as [|fuel IH]; intros ls; simpl; keeps_walk. Qed.

Lemma nav_rescan_passes n retries : forall s,
    keeps (opened_within old allowed) (rescan_passes env n retries s).
Proof. induction retries as [|r IH]; intros s; simpl; keeps_walk. Qed.

Hint Resolve nav_extraction_loop nav_rescan_passes : agent.

Lemma nav_settle n : keeps (opened_within old allowed) (settle env n).
Proof. unfold settle. keeps_walk. Qed.

Lemma nav_rescan n ls : keeps (opened_within old allowed) (rescan env n ls).
Proof. unfold rescan. keeps_walk. Qed.

Lemma nav_iso_now : keeps (opened_within old allowed) (iso_now env).
Proof. unfold iso_now. keeps_walk. Qed.

Hint Resolve nav_settle nav_rescan nav_iso_now : agent.

Lemma nav_to_tweet i c : keeps (opened_within old allowed) (to_tweet env i c).
Proof. unfold to_tweet. keeps_walk. Qed.

Lemma nav_fallback_tweet i el :
  keeps (opened_within old allowed) (fallback_tweet env i el).
Proof. unfold fallback_tweet. keeps_walk. Qed.

Lemma nav_map_indexed {X Y} (f : nat -> X -> M Y) (l : list X) :
  (forall i x, keeps (opened_within old allowed) (f i x)) ->
  forall i, keeps (opened_within old allowed) (map_indexed f i l).
Proof. intros Hf. induction l as [|x l IH]; intros i; simpl; keeps_walk. Qed.

Hint Resolve nav_to_tweet nav_fallback_tweet nav_map_indexed : agent.

Lemma nav_extractTweetsFallback n :
  keeps (opened_within old allowed) (extractTweetsFallback env n).
Proof. unfold extractTweetsFallback. keeps_walk. Qed.

Hint Resolve nav_extractTweetsFallback : agent.

Lemma nav_finalize n ls : keeps (opened_within old allowed) (finalize env n ls).
Proof. unfold finalize. keeps_walk. Qed.

Lemma nav_on_search_error n : keeps (opened_within old allowed) (on_search_error env n).
Proof. unfold on_search_error. keeps_walk. Qed.

Hint Resolve nav_finalize nav_on_search_error : agent.

Lemma nav_searchTwitter q n :
  In (searchUrl env q) allowed ->
    keeps (opened_within old allowed) (searchTwitter env q n).
Proof.
  intros Hq. pose proof (nav_open (searchUrl env q) Hq) as Hopen.
  unfold searchTwitter, collect, prepare. keeps_walk.
Qed.

Lemma nav_classify_each toCheck tweets :
  forall results,
    keeps (opened_within old allowed) (classify_each env toCheck tweets results).
Proof. induction tweets as [|t ts IH]; intros results; simpl; keeps_walk. Qed.

Lemma nav_checkBreakingNews symbols :
  In (searchUrl env (newsQuery (firstn 3 symbols))) allowed ->
  keeps (opened_within old allowed) (checkBreakingNews env symbols).
Proof.
  intros Hq. unfold checkBreakingNews. destruct symbols as [|s rest]; [apply keeps_ret|].
  cbv zeta. apply keeps_bind; [now apply nav_searchTwitter | intros tweets].
  apply nav_classify_each.
Qed.

End Navigation.

Lemma opened_within_start (st : State) (allowed : list string) :
  opened_within (trace st) allowed st.
Proof. intros url H. now left. Qed.

Lemma after_keeps {A} (J : State -> Prop) (m : M A) (st : State) :
  keeps J m -> J st -> J (snd (m st)).
Proof. intros Hk H. specialize (Hk st H). destruct (m st) as [[a|e] st1]; exact Hk. Qed.

Lemma searchUrl_on_twitter env q :
  Js.startsWith (searchUrl env q) "https://twitter.com/" = true.
Proof. reflexivity. Qed.

(** X16.  Every URL the agent passes to [browser.open] is on
    [https://twitter.com/]: the pages opened during [init] or
    [healthCheck], however they end, are the home page; those opened during [searchTwitter] are the
    home page and the search page of the query; those opened during
    [checkBreakingNews] are the home page and the search page of the
    news query of the first three symbols. *)
Theorem agent_navigates_on_twitter_only (env : Env) (st : State) (url : string) :
  (In (EvOpen url) (trace (snd (init env st))) ->
   In (EvOpen url) (trace st) \/ url = home_url) /\
  (In (EvOpen url) (trace (snd (healthCheck env st))) ->
   In (EvOpen url) (trace st) \/ url = home_url) /\
  (forall query maxResults,
     In (EvOpen url) (trace (snd (searchTwitter env query maxResults st))) ->
     In (EvOpen url) (trace st) \/ url = home_url \/ url = searchUrl env query) /\
  (forall symbols,
     In (EvOpen url) (trace (snd (checkBreakingNews env symbols st))) ->
     In (EvOpen url) (trace st) \/ url = home_url \/
     url = searchUrl env (newsQuery (firstn 3 symbols))) /\
  (forall c,
     In (EvOpen url) (trace (after_call env st c)) ->
     In (EvOpen url) (trace st) \/ Js.startsWith url "https://twitter.com/" = true).
Proof.
  assert (Hinit : In (EvOpen url) (trace (snd (init env st))) ->
                  In (EvOpen url) (trace st) \/ url = home_url).
  { intros H.
    destruct (after_keeps _ _ st (nav_init env (trace st) [home_url] (or_introl eq_refl))
                (opened_within_start st _) url H) as [Ho|[<-|[]]]; auto. }
  assert (Hhealth : In (EvOpen url) (trace (snd (healthCheck env st))) ->
                    In (EvOpen url) (trace st) \/ url = home_url).
  { intros H.
    destruct (after_keeps _ _ st
                (nav_healthCheck env (trace st) [home_url] (or_introl eq_refl))
                (opened_within_start st _) url H) as [Ho|[<-|[]]]; auto. }
  assert (Hsearch : forall query maxResults,
     In (EvOpen url) (trace (snd (searchTwitter env query maxResults st))) ->
     In (EvOpen url) (trace st) \/ url = home_url \/ url = searchUrl env query).
  { intros query maxResults H.
    destruct (after_keeps _ _ st
                (nav_searchTwitter env (trace st) [home_url; searchUrl env query]
                   (or_introl eq_refl) query maxResults (or_intror (or_introl eq_refl)))
                (opened_within_start st _) url H) as [Ho|[<-|[<-|[]]]]; auto. }
  assert (Hnews : forall symbols,
     In (EvOpen url) (trace (snd (checkBreakingNews env symbols st))) ->
     In (EvOpen url) (trace st) \/ url = home_url \/
     url = searchUrl env (newsQuery (firstn 3 symbols))).
  { intros symbols H.
    destruct (after_keeps _ _ st
                (nav_checkBreakingNews env (trace st)
                   [home_url; searchUrl env (newsQuery (firstn 3 symbols))]
                   (or_introl eq_refl) symbols (or_intror (or_introl eq_refl)))
                (opened_within_start st _) url H) as [Ho|[<-|[<-|[]]]]; auto. }
  split; [exact Hinit|]. split; [exact Hhealth|]. split; [exact Hsearch|].
  split; [exact Hnews|].
  intros c H. destruct c; simpl in H.
  - destruct (Hinit H) as [Ho| ->]; auto.
  - destruct (Hsearch _ _ H) as [Ho|[->| ->]]; auto using searchUrl_on_twitter.
  - destruct (Hnews _ H) as [Ho|[->| ->]]; auto using searchUrl_on_twitter.
  - destruct (Hhealth H) as [Ho| ->]; auto.
Qed.

(* ================================================================== *)
(** ** Further properties: the tab that [init] works on *)

Lemma prefix_app (n b : string) : String.prefix n (n ++ b) = true.
Proof.
  induction n as [|c n IH]; simpl; [now destruct b|].
  destruct (ascii_dec c c) as [_|Hne]; [exact IH | congruence].
Qed.

Lemma includes_prefix (hay n : string) :
  String.prefix n hay = true -> Js.includes hay n = true.
Proof. destruct hay; simpl; intros ->; reflexivity. Qed.

Lemma includes_app (a n b : string) : Js.includes (a ++ n ++ b) n = true.
Proof.
  induction a as [|c a IH].
  - change ("" ++ n ++ b)%string with (n ++ b)%string.
    apply includes_prefix, prefix_app.
  - change ((String c a ++ n ++ b)%string) with (String c (a ++ n ++ b)).
    simpl. rewrite IH. apply orb_true_r.
Qed.

(** X17.  On a connected, not yet initialised agent, [init] adopts the
    first open tab whose URL contains [twitter.com] or [x.com]
    anywhere: it switches to that tab.  The test is a substring test,
    so any URL with [x.com] in it passes, whatever stands before and
    after.  When the switch works and the tab's URL contains [/home],
    [init] opens no page at all. *)
Theorem init_adopts_first_matching_tab
        (env : Env) (st : State) (tabs : list Tab) (t : Tab) :
  initialized st = false ->
  isConnected_at env (calls st) = true ->
  listTabs_at env (S (calls st)) = Some tabs ->
  find is_twitter_tab tabs = Some t ->
  In t tabs /\
  In (EvSwitchTab (tab_id t)) (trace (snd (init env st))) /\
  (forall id before after title,
     is_twitter_tab (mkTab id (before ++ "x.com" ++ after) title) = true) /\
  (forall currentUrl,
     switchTab_at env (S (S (calls st))) = true ->
     getCurrentUrl_at env (4 + calls st) = Some currentUrl ->
     Js.includes currentUrl "/home" = true ->
     forall url, In (EvOpen url) (trace (snd (init env st))) ->
                 In (EvOpen url) (trace st)).
Proof.
  intros Hi Hc Hl Hf.
  split; [exact (proj1 (find_some _ _ Hf))|].
  destruct st as [i paths fs c tr]. simpl in Hi, Hc, Hl. subst i.
  split; [|split].
  - destruct (init env (mkState false paths fs c tr)) as [r st'] eqn:H. unfold_init H.
    rewrite Hc in H. cbv beta iota in H. rewrite Hl in H. cbv beta iota in H.
    rewrite Hf in H. cbv beta iota in H. split_run H.
    all: inversion H; subst; clear H; simpl; auto 10.
  - intros id before after title. unfold is_twitter_tab.
    apply orb_true_iff. right. exact (includes_app before "x.com" after).
  - intros currentUrl Hs Hg Hhome url. simpl in Hs, Hg.
    destruct (init env (mkState false paths fs c tr)) as [r st'] eqn:H. unfold_init H.
    rewrite Hc in H. cbv beta iota in H. rewrite Hl in H. cbv beta iota in H.
    rewrite Hf in H. cbv beta iota in H. rewrite Hs in H. cbv beta iota in H.
    rewrite Hg in H. cbv beta iota in H. rewrite Hhome in H. cbv beta iota in H.
    split_run H.
    all: inversion H; subst; clear H; simpl.
    all: intros Hin; repeat (destruct Hin as [Hin|Hin]; [discriminate Hin|]);
      exact Hin.
Qed.

Lemma init_adopts_first_matching_tab_witness :
  In (EvSwitchTab 7) (trace (snd (init env_other_tab fresh_agent))) /\
  forall url, ~ In (EvOpen url) (trace (snd (init env_other_tab fresh_agent))).
Proof.
  destruct (init_adopts_first_matching_tab env_other_tab fresh_agent
              [mkTab 7 "https://www.netflix.com/home" "Netflix"]
              (mkTab 7 "https://www.netflix.com/home" "Netflix")
              eq_refl eq_refl eq_refl eq_refl) as (_ & Hswitch & _ & Hopen).
  split; [exact Hswitch|].
  intros url Hin.
  exact (Hopen "https://www.netflix.com/home" eq_refl eq_refl eq_refl url Hin).
Defined.
